(** * kos-zbot: sensor sampling, state hand-off and the actuator command gateway

    A shallow embedding of [kos_zbot/imu.py] and of the RPC services of
    [kos_zbot/kos.py], with the properties of their specification.

    Conventions of the embedding:
    - Python floats are idealised as rationals ([Q]); only their order and
      their sums are used by the code under study.
    - A Python call either returns, raises or blocks for ever: [outcome].
    - Mutable objects are threaded explicitly through a state and exception
      monad [M]; the state survives a raised exception, as in Python. *)

From stdpp Require Import gmap strings list fin_maps pretty sorting.
From Stdlib Require Import QArith Qround.

Open Scope Z_scope.
Open Scope string_scope.
Open Scope list_scope.

(** ** Python exceptions and outcomes *)

(** The exception classes that the two source files name or can meet.  All
    of them derive from [Exception]. *)
Inductive exn : Type :=
| QueueEmpty
| QueueFull
| RuntimeError (msg : string)
| AttributeError (msg : string)
| ValueError (msg : string)
| AssertionError (msg : string)
| ZeroDivisionError (msg : string)
| TypeError (msg : string)
| IndexError (msg : string)
| KeyError (msg : string)
| IMUNotAvailableError (msg : string)
| OtherException (msg : string).

(** [str(e)] *)
Definition str_exn (e : exn) : string :=
  match e with
  | QueueEmpty | QueueFull => ""
  | RuntimeError m | AttributeError m | ValueError m | AssertionError m
  | ZeroDivisionError m | TypeError m | IndexError m | KeyError m
  | IMUNotAvailableError m | OtherException m => m
  end.

Inductive outcome (A : Type) : Type :=
| Ret (a : A)
| Raise (e : exn)
| Hang.
Arguments Ret {A} a.
Arguments Raise {A} e.
Arguments Hang {A}.

(** A call into a collaborator that returns or raises: the sensor driver,
    the actuator controller. *)
Inductive result (A : Type) : Type :=
| Ok (a : A)
| Err (e : exn).
Arguments Ok {A} a.
Arguments Err {A} e.

Definition of_result {A} (r : result A) : outcome A :=
  match r with
  | Ok a => Ret a
  | Err e => Raise e
  end.

Definition M (St A : Type) : Type := St -> outcome A * St.

Definition ret {St A} (a : A) : M St A := fun s => (Ret a, s).

Definition bind {St A B} (m : M St A) (k : A -> M St B) : M St B :=
  fun s =>
    match m s with
    | (Ret a, s') => k a s'
    | (Raise e, s') => (Raise e, s')
    | (Hang, s') => (Hang, s')
    end.

Definition raise {St A} (e : exn) : M St A := fun s => (Raise e, s).

Definition gets {St A} (f : St -> A) : M St A := fun s => (Ret (f s), s).

Definition modify {St} (f : St -> St) : M St unit := fun s => (Ret tt, f s).

(** [try: m  except Exception as e: h e] *)
Definition try_except {St A} (m : M St A) (h : exn -> M St A) : M St A :=
  fun s =>
    match m s with
    | (Raise e, s') => h e s'
    | r => r
    end.

(** [try: m  finally: fin]: [fin] runs whether [m] returned or raised, and
    the outcome of [m] goes on unless [fin] itself fails. *)
Definition finally {St A} (m : M St A) (fin : M St unit) : M St A :=
  fun s =>
    match m s with
    | (Hang, s') => (Hang, s')
    | (r, s') =>
        match fin s' with
        | (Ret _, s'') => (r, s'')
        | (Raise e, s'') => (Raise e, s'')
        | (Hang, s'') => (Hang, s'')
        end
    end.

(** Lift a call whose outcome the environment decides. *)
Definition call {St A} (o : outcome A) : M St A := fun s => (o, s).

(** The monad is used through stdpp's [x ← m; k] and [m ;; k]. *)
#[global] Instance M_ret {St} : MRet (M St) := fun A a => ret a.
#[global] Instance M_bind {St} : MBind (M St) := fun A B k m => bind m k.

(** ** imu.py *)

(** *** Sensor samples *)

(** One element of a sensor tuple: [None], a float or a small integer. *)
Inductive value : Type :=
| VNone
| VFloat (x : Q)
| VInt (n : Z).

(** [v is not None] *)
Definition is_not_None (v : value) : bool :=
  match v with
  | VNone => false
  | _ => true
  end.

(** A field of a sample is [None] or a tuple of elements. *)
Definition field : Type := option (list value).

(** [(acceleration, gyro, magnetic, quaternion, calibration_status)] *)
Definition Sample : Type := (field * field * field * field * field)%type.

(** *** The hand-off queue: [multiprocessing.Queue(maxsize)] *)

Record Queue : Type := mkQueue {
  maxsize : nat;
  items : list Sample
}.

(** [Queue(maxsize=1)], as built by [BNO055Manager.__init__]. *)
Definition new_queue : Queue := {| maxsize := 1; items := [] |}.

(** [q.full()]; a non-positive [maxsize] means an unbounded queue. *)
Definition full (q : Queue) : bool :=
  (0 <? maxsize q)%nat && (maxsize q <=? length (items q))%nat.

(** [q.get_nowait()] *)
Definition get_nowait (q : Queue) : outcome Sample * Queue :=
  match items q with
  | [] => (Raise QueueEmpty, q)
  | x :: rest => (Ret x, {| maxsize := maxsize q; items := rest |})
  end.

(** [q.put_nowait(data)] *)
Definition put_nowait (data : Sample) (q : Queue) : outcome unit * Queue :=
  if full q then (Raise QueueFull, q)
  else (Ret tt, {| maxsize := maxsize q; items := items q ++ [data] |}).

(** [q.get(timeout=0.1)]: the item if there is one, [queue.Empty] once the
    timeout has elapsed. *)
Definition get_timeout (q : Queue) : outcome Sample * Queue := get_nowait q.

(** *** The state buffer and the reader loop *)

(** [self._buffer] as set up by [BNO055Manager.__init__]. *)
Definition init_buffer : gmap string (list value) :=
  <["calib" := [VInt 0; VInt 0; VInt 0; VInt 0]]>
  (<["quat" := [VFloat 0; VFloat 0; VFloat 0; VFloat 0]]>
  (<["mag" := [VFloat 0; VFloat 0; VFloat 0]]>
  (<["gyro" := [VFloat 0; VFloat 0; VFloat 0]]>
  (<["accel" := [VFloat 0; VFloat 0; VFloat 0]]> ∅)))).

(** [f is not None and all(v is not None for v in f)] *)
Definition fully_valid (f : field) : bool :=
  match f with
  | None => false
  | Some t => forallb is_not_None t
  end.

(** [if <fully valid>: self._buffer[key] = f] *)
Definition store_if_valid (key : string) (f : field)
    (buf : gmap string (list value)) : gmap string (list value) :=
  match f with
  | Some t => if forallb is_not_None t then <[key := t]> buf else buf
  | None => buf
  end.

(** The body of [with self._lock:] in [_reader_loop]. *)
Definition merge_sample (s : Sample) (buf : gmap string (list value))
    : gmap string (list value) :=
  let '(accel, gyro, mag, quat, calib) := s in
  store_if_valid "calib" calib
    (store_if_valid "quat" quat
      (store_if_valid "mag" mag
        (store_if_valid "gyro" gyro
          (store_if_valid "accel" accel buf)))).

(** [_reader_loop], driven by the successive results of
    [self._queue.get(timeout=0.1)]: [None] is a timeout ([queue.Empty],
    the loop continues), [Some s] a received sample. *)
Fixpoint reader_loop (received : list (option Sample))
    (buf : gmap string (list value)) : gmap string (list value) :=
  match received with
  | [] => buf
  | None :: rest => reader_loop rest buf
  | Some s :: rest => reader_loop rest (merge_sample s buf)
  end.

(** No element of the tuple is [None]. *)
Definition no_null (t : list value) : Prop := Forall (fun v => v ≠ VNone) t.

(** *** The sampler process: [_sensor_proc] *)

(** What the child process owns: the deadline accumulator, its end of the
    queue, the log, and the durations it has slept (most recent first). *)
Record Sampler : Type := mkSampler {
  next_deadline : Q;
  queue : Queue;
  log : list string;
  sleeps : list Q
}.

Definition set_next_deadline (d : Q) (s : Sampler) : Sampler :=
  {| next_deadline := d; queue := queue s; log := log s; sleeps := sleeps s |}.

Definition set_queue (q : Queue) (s : Sampler) : Sampler :=
  {| next_deadline := next_deadline s; queue := q; log := log s;
     sleeps := sleeps s |}.

(** [log.exception(msg)] *)
Definition log_exception (msg : string) : M Sampler unit :=
  modify (fun s => {| next_deadline := next_deadline s; queue := queue s;
                      log := msg :: log s; sleeps := sleeps s |}).

(** [time.sleep(d)] *)
Definition sleep (d : Q) : M Sampler unit :=
  modify (fun s => {| next_deadline := next_deadline s; queue := queue s;
                      log := log s; sleeps := d :: sleeps s |}).

(** A queue operation applied to the sampler's queue. *)
Definition on_queue {A} (op : Queue -> outcome A * Queue) : M Sampler A :=
  fun s => let '(r, q') := op (queue s) in (r, set_queue q' s).

(** [x > y] on floats *)
Definition Qgt_bool (x y : Q) : bool := negb (Qle_bool x y).

(** [period = 1.0 / rate_hz] *)
Definition period_of (rate_hz : Z) : outcome Q :=
  if decide (rate_hz = 0) then Raise (ZeroDivisionError "float division by zero")
  else Ret (1 / inject_Z rate_hz)%Q.

(** Lines 27-35: resynchronise on overrun, then add one period. *)
Definition advance_deadline (period now : Q) : M Sampler unit :=
  nd ← gets next_deadline;
  (if Qgt_bool now nd then modify (set_next_deadline now) else mret tt);;
  nd' ← gets next_deadline;
  modify (set_next_deadline (nd' + period)%Q).

(** Lines 38-49: the sensor read, with its handler. *)
Definition read_sensor (read : result Sample) : M Sampler (option Sample) :=
  try_except
    (d ← call (of_result read); mret (Some d))
    (fun _ => log_exception "Failed to read sensor values";; mret None).

(** Lines 52-64: keep only the latest sample in the queue. *)
Definition push_latest (data : Sample) : M Sampler unit :=
  try_except
    (is_full ← gets (fun s => full (queue s));
     (if is_full : bool then
        try_except
          (_ ← on_queue get_nowait; mret tt)
          (fun e => match e with QueueEmpty => mret tt | _ => raise e end)
      else mret tt);;
     on_queue (put_nowait data))
    (fun e =>
       match e with
       | QueueFull => mret tt
       | _ => log_exception "Unexpected queue error in sensor process"
       end).

(** What [push_latest] leaves in the queue: the occupant of a full queue
    is taken out, and the sample goes in if there is room by then. *)
Definition pushed (data : Sample) (q : Queue) : Queue :=
  let q1 := if full q then (get_nowait q).2 else q in
  if full q1 then q1
  else {| maxsize := maxsize q1; items := items q1 ++ [data] |}.

(** Lines 66-68: sleep for the positive remainder only. *)
Definition sleep_until_deadline (now : Q) : M Sampler unit :=
  nd ← gets next_deadline;
  let sleep_time := (nd - now)%Q in
  if Qgt_bool sleep_time 0 then sleep sleep_time else mret tt.

(** What the environment supplies to one iteration: the two readings of
    [time.monotonic()] and the outcome of the sensor read. *)
Record TickEnv : Type := mkTickEnv {
  now_top : Q;
  sensor : result Sample;
  now_bottom : Q
}.

(** One iteration of [while True:]. *)
Definition tick (period : Q) (env : TickEnv) : M Sampler unit :=
  advance_deadline period (now_top env);;
  data ← read_sensor (sensor env);
  match data with
  | Some d => push_latest d
  | None => mret tt
  end;;
  sleep_until_deadline (now_bottom env).

(** The loop, run for as many iterations as the environment is given. *)
Fixpoint sensor_loop (period : Q) (envs : list TickEnv) : M Sampler unit :=
  match envs with
  | [] => mret tt
  | env :: rest => tick period env;; sensor_loop period rest
  end.

(** [_sensor_proc(q, rate_hz)], started at time [t0]. *)
Definition _sensor_proc (q : Queue) (rate_hz : Z) (t0 : Q)
    (envs : list TickEnv) : outcome unit * Sampler :=
  let s0 := {| next_deadline := t0; queue := q; log := []; sleeps := [] |} in
  match period_of rate_hz with
  | Ret period => sensor_loop period envs s0
  | Raise e => (Raise e, s0)
  | Hang => (Hang, s0)
  end.

(** *** The hand-off channel under interleaving

    The producer's push is three queue operations ([full], [get_nowait],
    [put_nowait]); the reader's [get] may run between any two of them. *)

Inductive producer_pc : Type :=
| PIdle
| PEvict (data : Sample)    (* [q.full()] answered true *)
| PInsert (data : Sample).  (* about to call [q.put_nowait(data)] *)

Record Channel : Type := mkChannel {
  ch_queue : Queue;
  ch_pc : producer_pc;
  (* the sample of the last [put_nowait] that succeeded *)
  ch_last : option Sample;
  (* what the last [get] of the reader returned *)
  ch_got : option Sample
}.

Definition new_channel : Channel :=
  {| ch_queue := new_queue; ch_pc := PIdle; ch_last := None; ch_got := None |}.

Inductive action : Type :=
| Produce (data : Sample)      (* the producer runs its next queue operation;
                                  [data] is the sample of a push that begins *)
| ProduceUnseen (data : Sample)  (* the same, but the occupant has not come
                                  through the pipe yet: a [get_nowait] finds
                                  nothing although the slot is taken *)
| Consume.                     (* the reader runs [get(timeout=0.1)] *)

Definition producer_step (seen : bool) (data : Sample) (c : Channel)
    : Channel :=
  match ch_pc c with
  | PIdle =>
      {| ch_queue := ch_queue c;
         ch_pc := if full (ch_queue c) then PEvict data else PInsert data;
         ch_last := ch_last c; ch_got := ch_got c |}
  | PEvict d =>
      (* [queue.Empty] is passed over *)
      {| ch_queue := if seen then (get_nowait (ch_queue c)).2 else ch_queue c;
         ch_pc := PInsert d; ch_last := ch_last c; ch_got := ch_got c |}
  | PInsert d =>
      match put_nowait d (ch_queue c) with
      | (Ret _, q') =>
          {| ch_queue := q'; ch_pc := PIdle; ch_last := Some d;
             ch_got := ch_got c |}
      | (_, q') =>
          (* [queue.Full] is passed over: the update is lost *)
          {| ch_queue := q'; ch_pc := PIdle; ch_last := ch_last c;
             ch_got := ch_got c |}
      end
  end.

Definition consumer_step (c : Channel) : Channel :=
  match get_timeout (ch_queue c) with
  | (Ret x, q') =>
      {| ch_queue := q'; ch_pc := ch_pc c; ch_last := ch_last c;
         ch_got := Some x |}
  | (_, q') =>
      {| ch_queue := q'; ch_pc := ch_pc c; ch_last := ch_last c;
         ch_got := None |}
  end.

Definition step (a : action) (c : Channel) : Channel :=
  match a with
  | Produce d => producer_step true d c
  | ProduceUnseen d => producer_step false d c
  | Consume => consumer_step c
  end.

(** An interleaving is a list of actions, the first one run first. *)
Definition run (schedule : list action) (c : Channel) : Channel :=
  foldl (fun c a => step a c) c schedule.



(** *** The lifecycle controller: [BNO055Manager] *)

(** A [multiprocessing.Process] object: created, started and running,
    exited but not yet joined, or joined. *)
Inductive proc_status : Type := PNew | PAlive | PDead | PJoined.

(** A [threading.Thread] object running [_reader_loop]. *)
Inductive thread_status : Type := TNew | TAlive | TDone.

(** The manager together with the process and thread objects it has
    created; [_process] and [_reader_thread] are references into them. *)
Record Manager : Type := mkManager {
  procs : list proc_status;
  threads : list thread_status;
  update_rate : Z;
  _queue : Queue;
  _process : option nat;
  _reader_thread : option nat;
  _stop_reader : bool;
  _buffer : gmap string (list value);
  mlog : list (string * string)
}.

(** [BNO055Manager.__init__(update_rate)] *)
Definition BNO055Manager_init (rate : Z) : Manager :=
  {| procs := []; threads := []; update_rate := rate; _queue := new_queue;
     _process := None; _reader_thread := None; _stop_reader := false;
     _buffer := init_buffer; mlog := [] |}.

Definition set_procs (ps : list proc_status) (m : Manager) : Manager :=
  {| procs := ps; threads := threads m; update_rate := update_rate m;
     _queue := _queue m; _process := _process m;
     _reader_thread := _reader_thread m; _stop_reader := _stop_reader m;
     _buffer := _buffer m; mlog := mlog m |}.

Definition set_threads (ts : list thread_status) (m : Manager) : Manager :=
  {| procs := procs m; threads := ts; update_rate := update_rate m;
     _queue := _queue m; _process := _process m;
     _reader_thread := _reader_thread m; _stop_reader := _stop_reader m;
     _buffer := _buffer m; mlog := mlog m |}.

Definition set_process (p : option nat) (m : Manager) : Manager :=
  {| procs := procs m; threads := threads m; update_rate := update_rate m;
     _queue := _queue m; _process := p;
     _reader_thread := _reader_thread m; _stop_reader := _stop_reader m;
     _buffer := _buffer m; mlog := mlog m |}.

Definition set_reader_thread (t : option nat) (m : Manager) : Manager :=
  {| procs := procs m; threads := threads m; update_rate := update_rate m;
     _queue := _queue m; _process := _process m;
     _reader_thread := t; _stop_reader := _stop_reader m;
     _buffer := _buffer m; mlog := mlog m |}.

Definition set_stop_reader (b : bool) (m : Manager) : Manager :=
  {| procs := procs m; threads := threads m; update_rate := update_rate m;
     _queue := _queue m; _process := _process m;
     _reader_thread := _reader_thread m; _stop_reader := b;
     _buffer := _buffer m; mlog := mlog m |}.

(** [self.log.<level>(msg)] *)
Definition mlog_add (level msg : string) : M Manager unit :=
  modify (fun m =>
    {| procs := procs m; threads := threads m; update_rate := update_rate m;
       _queue := _queue m; _process := _process m;
       _reader_thread := _reader_thread m; _stop_reader := _stop_reader m;
       _buffer := _buffer m; mlog := mlog m ++ [(level, msg)] |}).

(** [Process(target=_sensor_proc, ...)]: a new object, not yet started. *)
Definition Process_new : M Manager nat :=
  fun m => (Ret (length (procs m)), set_procs (procs m ++ [PNew]) m).

(** [p.start()] *)
Definition Process_start (pid : nat) : M Manager unit :=
  fun m =>
    match procs m !! pid with
    | Some PNew => (Ret tt, set_procs (<[pid := PAlive]> (procs m)) m)
    | _ => (Raise (AssertionError "cannot start a process twice"), m)
    end.

(** [p.is_alive()] *)
Definition Process_is_alive (pid : nat) : M Manager bool :=
  gets (fun m => match procs m !! pid with Some PAlive => true | _ => false end).

(** [p.terminate()]: a process that was never started has no [_popen]. *)
Definition Process_terminate (pid : nat) : M Manager unit :=
  fun m =>
    match procs m !! pid with
    | Some PAlive => (Ret tt, set_procs (<[pid := PDead]> (procs m)) m)
    | Some PDead | Some PJoined => (Ret tt, m)
    | Some PNew | None =>
        (Raise (AttributeError
                  "'NoneType' object has no attribute 'terminate'"), m)
    end.

(** [p.join()]: returns once the process has exited; the sampler loops for
    ever, so joining it while it runs does not return. *)
Definition Process_join (pid : nat) : M Manager unit :=
  fun m =>
    match procs m !! pid with
    | Some PDead | Some PJoined =>
        (Ret tt, set_procs (<[pid := PJoined]> (procs m)) m)
    | Some PAlive => (Hang, m)
    | Some PNew | None =>
        (Raise (AssertionError "can only join a started process"), m)
    end.

(** [threading.Thread(target=self._reader_loop, ...)] *)
Definition Thread_new : M Manager nat :=
  fun m => (Ret (length (threads m)), set_threads (threads m ++ [TNew]) m).

(** [t.start()] *)
Definition Thread_start (tid : nat) : M Manager unit :=
  fun m =>
    match threads m !! tid with
    | Some TNew => (Ret tt, set_threads (<[tid := TAlive]> (threads m)) m)
    | _ => (Raise (RuntimeError "threads can only be started once"), m)
    end.

(** [t.is_alive()] *)
Definition Thread_is_alive (tid : nat) : M Manager bool :=
  gets (fun m =>
    match threads m !! tid with Some TAlive => true | _ => false end).

(** [t.join()]: [_reader_loop] leaves its [while] within one queue timeout
    of the stop event being set, and never while it is clear. *)
Definition Thread_join (tid : nat) : M Manager unit :=
  fun m =>
    match threads m !! tid with
    | Some TDone => (Ret tt, m)
    | Some TAlive =>
        if _stop_reader m
        then (Ret tt, set_threads (<[tid := TDone]> (threads m)) m)
        else (Hang, m)
    | Some TNew | None =>
        (Raise (RuntimeError "cannot join thread before it is started"), m)
    end.

(** [BNO055Manager.start], lines 93-102: the sampler process. *)
Definition start_sampler : M Manager unit :=
  p ← gets _process;
  alive ← match p with
          | Some pid => Process_is_alive pid
          | None => mret false
          end;
  if negb alive then
    pid ← Process_new;
    modify (set_process (Some pid));;
    Process_start pid;;
    mlog_add "info" "Sensor process started"
  else mlog_add "warning" "Sensor process already running".

(** [BNO055Manager.start], lines 104-113: the reader thread. *)
Definition start_reader : M Manager unit :=
  t ← gets _reader_thread;
  talive ← match t with
           | Some tid => Thread_is_alive tid
           | None => mret false
           end;
  if negb talive then
    modify (set_stop_reader false);;
    tid ← Thread_new;
    modify (set_reader_thread (Some tid));;
    Thread_start tid;;
    mlog_add "info" "Reader thread started"
  else mlog_add "warning" "Reader thread already running".

(** [BNO055Manager.start] *)
Definition start : M Manager unit := start_sampler;; start_reader.

(** [BNO055Manager.stop], lines 117-121: the sampler process. *)
Definition stop_sampler : M Manager unit :=
  p ← gets _process;
  match p with
  | Some pid =>
      Process_terminate pid;;
      Process_join pid;;
      modify (set_process None);;
      mlog_add "info" "Sensor process stopped"
  | None => mret tt
  end.

(** [BNO055Manager.stop], lines 123-127: the reader thread. *)
Definition stop_reader : M Manager unit :=
  t ← gets _reader_thread;
  match t with
  | Some tid =>
      modify (set_stop_reader true);;
      Thread_join tid;;
      modify (set_reader_thread None);;
      mlog_add "info" "Reader thread stopped"
  | None => mret tt
  end.

(** [BNO055Manager.stop] *)
Definition stop : M Manager unit := stop_sampler;; stop_reader.

(** The sampler process dies on its own (a failing I2C set-up, a signal). *)
Definition crash (m : Manager) : Manager :=
  match _process m with
  | Some pid =>
      match procs m !! pid with
      | Some PAlive => set_procs (<[pid := PDead]> (procs m)) m
      | _ => m
      end
  | None => m
  end.

(** What the public interface and the environment can do to a manager. *)
Inductive life_op : Type := OpStart | OpStop | OpCrash.

Definition apply_op (op : life_op) (m : Manager) : outcome unit * Manager :=
  match op with
  | OpStart => start m
  | OpStop => stop m
  | OpCrash => (Ret tt, crash m)
  end.

(** The states a manager goes through from its construction, as long as
    every call returns. *)
Inductive reachable (rate : Z) : Manager -> Prop :=
| reach_init : reachable rate (BNO055Manager_init rate)
| reach_op m op m' :
    reachable rate m -> apply_op op m = (Ret tt, m') -> reachable rate m'.

(** Every handle that the manager holds is of a process or of a thread
    that has been started. *)
Definition handles_started (m : Manager) : bool :=
  match _process m with
  | Some pid =>
      match procs m !! pid with
      | Some PNew | None => false
      | Some _ => true
      end
  | None => true
  end &&
  match _reader_thread m with
  | Some tid =>
      match threads m !! tid with
      | Some TNew | None => false
      | Some _ => true
      end
  | None => true
  end.

(** Both executors are up: the sampler process is alive, the reader thread
    runs and its stop event is clear. *)
Definition running (m : Manager) : Prop :=
  (exists pid, _process m = Some pid /\ procs m !! pid = Some PAlive) /\
  (exists tid, _reader_thread m = Some tid /\ threads m !! tid = Some TAlive) /\
  _stop_reader m = false.

(** [get_values], [get_quaternion], [get_calibration_status]:
    [self._buffer[key]] raises [KeyError] on a missing key. *)
Definition buffer_get (key : string) : M Manager (list value) :=
  fun m =>
    match _buffer m !! key with
    | Some t => (Ret t, m)
    | None => (Raise (KeyError key), m)
    end.

Definition get_values : M Manager (list value * list value * list value) :=
  a ← buffer_get "accel";
  g ← buffer_get "gyro";
  mg ← buffer_get "mag";
  mret (a, g, mg).

Definition get_quaternion : M Manager (list value) := buffer_get "quat".

Definition get_calibration_status : M Manager (list value) :=
  buffer_get "calib".

(** ** kos.py *)

(** The members of [grpc.StatusCode] that the services set. *)
Inductive StatusCode : Type := UNAVAILABLE | RESOURCE_EXHAUSTED | INTERNAL.

(** *** Messages *)

Inductive cfgval : Type :=
| CBool (b : bool)
| CFloat (x : Q)
| CInt (n : Z).

Record ConfigureActuatorRequest : Type := mkConfigureActuatorRequest {
  actuator_id : Z;
  torque_enabled : option bool;
  zero_position : option bool;
  kp : option Q;
  kd : option Q;
  ki : option Q;
  max_torque : option Q;
  acceleration : option Q;
  new_actuator_id : option Z
}.

Record ActuatorCommand : Type := mkActuatorCommand {
  cmd_actuator_id : Z;
  cmd_position : Q
}.

Record ParameterDumpEntry : Type := mkParameterDumpEntry {
  pd_actuator_id : Z;
  pd_parameters : gmap string Q
}.

Record ActuatorStateResponse : Type := mkActuatorStateResponse {
  st_actuator_id : Z;
  st_position : Q;
  st_velocity : Q;
  st_online : bool;
  st_faults : list string
}.

(** What [get_faults] reports for an actuator that has faulted. *)
Record fault_info : Type := mkFaultInfo {
  last_fault_message : string;
  total_faults : Z;
  last_fault_time : Q
}.

(** The response messages; a handler returns whichever object it builds. *)
Inductive Response : Type :=
| ActionResponse (success : bool)
| CommandActuatorsResponse
| ParameterDumpResponse (entries : list ParameterDumpEntry)
| GetActuatorsStateResponse (states : list ActuatorStateResponse)
| QuaternionResponse (wxyz : option (Q * Q * Q * Q)) (error : option string)
| EulerAnglesResponse (angles : option (Q * Q * Q)) (error : option string)
| IMUAdvancedValuesResponse (values : option (list Q)) (error : option string).

(** The message class of a response object. *)
Definition message_class (r : Response) : string :=
  match r with
  | ActionResponse _ => "common_pb2.ActionResponse"
  | CommandActuatorsResponse => "actuator_pb2.CommandActuatorsResponse"
  | ParameterDumpResponse _ => "actuator_pb2.ParameterDumpResponse"
  | GetActuatorsStateResponse _ => "actuator_pb2.GetActuatorsStateResponse"
  | QuaternionResponse _ _ => "imu_pb2.QuaternionResponse"
  | EulerAnglesResponse _ _ => "imu_pb2.EulerAnglesResponse"
  | IMUAdvancedValuesResponse _ _ => "imu_pb2.IMUAdvancedValuesResponse"
  end.

(** *** What a handler acts on *)

Inductive ctl_call : Type :=
| CallConfigure (id : Z) (config : gmap string cfgval)
| CallSetPositions (commands : gmap Z Q).

Inductive event : Type :=
| EvAcquire                       (* [temporal_lock] taken *)
| EvRelease                       (* [temporal_lock] released *)
| EvDecode                        (* the request is read into a command *)
| EvEnter (c : ctl_call)          (* a mutating controller call begins *)
| EvExit (c : ctl_call)           (* ... and ends, by return or raise *)
| EvQuery (name : string) (id : Z)  (* a read-only controller call *)
| EvSetCode (c : StatusCode)
| EvSetDetails (d : string)
| EvLog (level msg : string).

(** The service's collaborator of state type [S], its lock, the RPC
    context of the call and everything done so far, oldest first. *)
Record World (S : Type) : Type := mkWorld {
  backend : S;
  locked : bool;
  code : option StatusCode;
  details : option string;
  trace : list event
}.
Arguments mkWorld {S}.
Arguments backend {S}.
Arguments locked {S}.
Arguments code {S}.
Arguments details {S}.
Arguments trace {S}.

(** A fresh call on a service whose lock is free. *)
Definition fresh {S} (s : S) : World S :=
  {| backend := s; locked := false; code := None; details := None;
     trace := [] |}.

Definition emit {S} (e : event) : M (World S) unit :=
  modify (fun w =>
    {| backend := backend w; locked := locked w; code := code w;
       details := details w; trace := trace w ++ [e] |}).

(** [context.set_code(c)] *)
Definition set_code {S} (c : StatusCode) : M (World S) unit :=
  modify (fun w =>
    {| backend := backend w; locked := locked w; code := Some c;
       details := details w; trace := trace w ++ [EvSetCode c] |}).

(** [context.set_details(d)] *)
Definition set_details {S} (d : string) : M (World S) unit :=
  modify (fun w =>
    {| backend := backend w; locked := locked w; code := code w;
       details := Some d; trace := trace w ++ [EvSetDetails d] |}).

(** [self.log.<level>(msg)] *)
Definition klog {S} (level msg : string) : M (World S) unit :=
  emit (EvLog level msg).

(** A call that changes the collaborator's state. *)
Definition on_backend {S A} (f : S -> result A * S) : M (World S) A :=
  fun w =>
    let '(r, s') := f (backend w) in
    (of_result r,
     {| backend := s'; locked := locked w; code := code w;
        details := details w; trace := trace w |}).

(** A call that only reads it. *)
Definition ask_backend {S A} (f : S -> result A) : M (World S) A :=
  fun w => (of_result (f (backend w)), w).

(** [asyncio.Lock.acquire]: a caller that finds the lock taken waits for
    a release. *)
Definition Lock_acquire {S} : M (World S) unit :=
  fun w =>
    if locked w then (Hang, w)
    else (Ret tt,
          {| backend := backend w; locked := true; code := code w;
             details := details w; trace := trace w ++ [EvAcquire] |}).

(** [asyncio.Lock.release] *)
Definition Lock_release {S} : M (World S) unit :=
  fun w =>
    if locked w then
      (Ret tt,
       {| backend := backend w; locked := false; code := code w;
          details := details w; trace := trace w ++ [EvRelease] |})
    else (Raise (RuntimeError "Lock is not acquired."), w).

(** [async with self.temporal_lock: body]: [__aexit__] releases the lock
    whether the body returned or raised. *)
Definition async_with_lock {S A} (body : M (World S) A) : M (World S) A :=
  Lock_acquire;; finally body Lock_release.

(** *** The actuator controller

    [kos_zbot.actuator.SCSMotorController] is used through this interface
    only.  Commands change its state; queries read it. *)
Record SCSMotorController (S : Type) : Type := mkController {
  actuator_ids : S -> list Z;
  configure_actuator : Z -> gmap string cfgval -> S -> result bool * S;
  set_positions : gmap Z Q -> S -> result unit * S;
  read_all_servo_params : Z -> S -> result (gmap string Q);
  get_torque_enabled : Z -> S -> result bool;
  get_state : Z -> S -> result (option (gmap string Q));
  get_faults : Z -> S -> result (option fault_info)
}.
Arguments actuator_ids {S}.
Arguments configure_actuator {S}.
Arguments set_positions {S}.
Arguments read_all_servo_params {S}.
Arguments get_torque_enabled {S}.
Arguments get_state {S}.
Arguments get_faults {S}.

(** [int(x)] on a float: truncation towards zero. *)
Definition int_of_float (x : Q) : Z :=
  if Qle_bool 0 x then Qfloor x else Qceiling x.

(** *** [ActuatorService] *)

Section ActuatorService.
Context {S : Type} (ctl : SCSMotorController S).

(** A mutating controller call, bracketed by its entry and its exit. *)
Definition ctl_command {A} (c : ctl_call) (f : S -> result A * S)
    : M (World S) A :=
  emit (EvEnter c);;
  finally (on_backend f) (emit (EvExit c)).

Definition ctl_query {A} (name : string) (id : Z) (f : S -> result A)
    : M (World S) A :=
  emit (EvQuery name id);;
  ask_backend f.

(** [self.actuator_controller.actuator_ids] *)
Definition known_ids : M (World S) (list Z) :=
  gets (fun w => actuator_ids ctl (backend w)).

(** The [config] dictionary of [ConfigureActuator]: one key for each
    field that the request has. *)
Definition add_field {A} (key : string) (inj : A -> cfgval)
    (f : option A) (config : gmap string cfgval) : gmap string cfgval :=
  match f with
  | Some v => <[key := inj v]> config
  | None => config
  end.

Definition decode_config (request : ConfigureActuatorRequest)
    : gmap string cfgval :=
  add_field "new_actuator_id" CInt (new_actuator_id request)
    (add_field "acceleration" CFloat (acceleration request)
      (add_field "max_torque" CFloat (max_torque request)
        (add_field "ki" CFloat (ki request)
          (add_field "kd" CFloat (kd request)
            (add_field "kp" CFloat (kp request)
              (add_field "zero_position" CBool (zero_position request)
                (add_field "torque_enabled" CBool (torque_enabled request)
                  ∅))))))).

(** [ActuatorService.ConfigureActuator] *)
Definition ConfigureActuator (request : ConfigureActuatorRequest)
    : M (World S) Response :=
  try_except
    (async_with_lock
       (emit EvDecode;;
        let config := decode_config request in
        success ← ctl_command (CallConfigure (actuator_id request) config)
                    (configure_actuator ctl (actuator_id request) config);
        (if negb success then
           klog "error"
             ("failed to configure actuator " +:+ pretty (actuator_id request))
         else mret tt);;
        mret (ActionResponse success)))
    (fun e =>
       match e with
       | RuntimeError _ =>
           set_code RESOURCE_EXHAUSTED;;
           set_details "another control operation is in progress";;
           mret (ActionResponse false)
       | _ =>
           let error_msg :=
             "error configuring actuator " +:+ pretty (actuator_id request)
             +:+ ": " +:+ str_exn e in
           klog "error" error_msg;;
           set_code INTERNAL;;
           set_details error_msg;;
           mret (ActionResponse false)
       end).

(** The [servo_commands] dictionary of [CommandActuators]: the commands
    whose target is registered, a later command for an actuator
    replacing an earlier one. *)
Definition servo_commands_of (ids : list Z)
    (commands : list ActuatorCommand) : gmap Z Q :=
  foldl
    (fun d cmd =>
       if bool_decide (cmd_actuator_id cmd ∈ ids)
       then <[cmd_actuator_id cmd := cmd_position cmd]> d
       else d)
    ∅ commands.

(** [ActuatorService.CommandActuators] *)
Definition CommandActuators (commands : list ActuatorCommand)
    : M (World S) Response :=
  try_except
    (async_with_lock
       (emit EvDecode;;
        ids ← known_ids;
        let servo_commands := servo_commands_of ids commands in
        ctl_command (CallSetPositions servo_commands)
          (set_positions ctl servo_commands);;
        mret CommandActuatorsResponse))
    (fun e =>
       match e with
       | RuntimeError _ =>
           set_code RESOURCE_EXHAUSTED;;
           set_details "Another control operation is in progress.";;
           mret (ActionResponse false)
       | _ =>
           set_code INTERNAL;;
           set_details (str_exn e);;
           mret CommandActuatorsResponse
       end).

(** [request.actuator_ids or sorted(self.actuator_controller.actuator_ids)] *)
Definition requested_ids (request_ids : list Z) : M (World S) (list Z) :=
  match request_ids with
  | [] => all ← known_ids; mret (merge_sort Z.le all)
  | _ => mret request_ids
  end.

(** The [for aid in ids:] loop of [ParameterDump]. *)
Fixpoint dump_loop (ids : list Z) (acc : list ParameterDumpEntry)
    : M (World S) (list ParameterDumpEntry) :=
  match ids with
  | [] => mret acc
  | aid :: rest =>
      known ← known_ids;
      if bool_decide (aid ∈ known) then
        acc' ← try_except
                 (param_dict ← ctl_query "read_all_servo_params" aid
                                 (read_all_servo_params ctl aid);
                  mret (acc ++ [{| pd_actuator_id := aid;
                                   pd_parameters := param_dict |}]))
                 (fun e =>
                    klog "warning"
                      ("failed to read parameters from actuator "
                       +:+ pretty aid +:+ ": " +:+ str_exn e);;
                    mret acc);
        dump_loop rest acc'
      else
        klog "warning" ("actuator " +:+ pretty aid +:+ " not registered");;
        dump_loop rest acc
  end.

(** [ActuatorService.ParameterDump]; the text of the [info] line, which
    prints the list of ids, is shortened. *)
Definition ParameterDump (request_ids : list Z) : M (World S) Response :=
  try_except
    (ids ← requested_ids request_ids;
     klog "info" "ParameterDump request";;
     entries ← dump_loop ids [];
     mret (ParameterDumpResponse entries))
    (fun e =>
       klog "error" ("failed to handle GetParameters: " +:+ str_exn e);;
       set_code INTERNAL;;
       set_details (str_exn e);;
       mret (ParameterDumpResponse [])).

(** The [faults] list of a registered actuator. *)
Definition faults_of (fi : option fault_info) : list string :=
  match fi with
  | None => []
  | Some f =>
      [last_fault_message f; pretty (total_faults f);
       pretty (int_of_float (last_fault_time f))]
  end.

(** The entry of an id that the controller does not know. *)
Definition unregistered_state (id : Z) : ActuatorStateResponse :=
  {| st_actuator_id := id; st_position := 0; st_velocity := 0;
     st_online := false; st_faults := ["servo not registered"] |}.

(** The entry of a registered id, from what the controller answered. *)
Definition registered_state (id : Z) (torque : bool)
    (state_dict : option (gmap string Q)) (fi : option fault_info)
    : ActuatorStateResponse :=
  match state_dict with
  | None =>
      {| st_actuator_id := id; st_position := 0; st_velocity := 0;
         st_online := false; st_faults := faults_of fi |}
  | Some d =>
      {| st_actuator_id := id;
         st_position := default 0%Q (d !! "position");
         st_velocity := default 0%Q (d !! "velocity");
         st_online := torque; st_faults := faults_of fi |}
  end.

(** The [for actuator_id in ids:] loop of [GetActuatorsState]. *)
Fixpoint state_loop (ids : list Z) (states : list ActuatorStateResponse)
    : M (World S) (list ActuatorStateResponse) :=
  match ids with
  | [] => mret states
  | id :: rest =>
      known ← known_ids;
      if bool_decide (id ∈ known) then
        torque ← ctl_query "get_torque_enabled" id
                   (get_torque_enabled ctl id);
        state_dict ← ctl_query "get_state" id (get_state ctl id);
        fi ← ctl_query "get_faults" id (get_faults ctl id);
        state_loop rest (states ++ [registered_state id torque state_dict fi])
      else
        state_loop rest (states ++ [unregistered_state id])
  end.

(** [ActuatorService.GetActuatorsState] *)
Definition GetActuatorsState (request_ids : list Z)
    : M (World S) Response :=
  try_except
    (ids ← requested_ids request_ids;
     states ← state_loop ids [];
     mret (GetActuatorsStateResponse states))
    (fun e =>
       set_code INTERNAL;;
       set_details (str_exn e);;
       mret (GetActuatorsStateResponse [])).

(** What [ParameterDump] answers and what it does, id by id, when the
    controller is in state [s]: an entry for each requested id that is
    registered and whose parameters can be read, nothing for the others. *)
Definition dumped_entry (s : S) (aid : Z) : option ParameterDumpEntry :=
  if bool_decide (aid ∈ actuator_ids ctl s) then
    match read_all_servo_params ctl aid s with
    | Ok param_dict =>
        Some {| pd_actuator_id := aid; pd_parameters := param_dict |}
    | Err _ => None
    end
  else None.

Definition dump_events (s : S) (aid : Z) : list event :=
  if bool_decide (aid ∈ actuator_ids ctl s) then
    EvQuery "read_all_servo_params" aid ::
    match read_all_servo_params ctl aid s with
    | Ok _ => []
    | Err e =>
        [EvLog "warning"
           ("failed to read parameters from actuator "
            +:+ pretty aid +:+ ": " +:+ str_exn e)]
    end
  else [EvLog "warning" ("actuator " +:+ pretty aid +:+ " not registered")].

End ActuatorService.

(** *** A bench controller

    A small controller on which the statements below are instantiated: it
    knows the actuators [bench_ids], keeps the last commanded positions,
    and refuses commands with [RuntimeError] while it is busy. *)
Record bench : Type := mkBench {
  bench_ids : list Z;
  bench_positions : gmap Z Q;
  bench_busy : bool
}.

Definition bench_controller : SCSMotorController bench :=
  {| actuator_ids := bench_ids;
     configure_actuator id config s :=
       if bench_busy s
       then (Err (RuntimeError "operation already in progress"), s)
       else (Ok (bool_decide (id ∈ bench_ids s)), s);
     set_positions commands s :=
       if bench_busy s
       then (Err (RuntimeError "operation already in progress"), s)
       else (Ok tt,
             {| bench_ids := bench_ids s;
                bench_positions := commands ∪ bench_positions s;
                bench_busy := false |});
     read_all_servo_params id s := Ok {[ "id" := inject_Z id ]};
     get_torque_enabled id s := Ok true;
     get_state id s :=
       Ok (match bench_positions s !! id with
           | Some pos => Some (<["position" := pos]> {[ "velocity" := 0%Q ]})
           | None => None
           end);
     get_faults id s := Ok None |}.

(** Only actuator 1 is registered; it stands at position 1/2. *)
Definition bench_one : bench :=
  {| bench_ids := [1]; bench_positions := {[ 1 := (1 # 2)%Q ]};
     bench_busy := false |}.

(** The same bench while an operation is in progress. *)
Definition bench_one_busy : bench :=
  {| bench_ids := [1]; bench_positions := {[ 1 := (1 # 2)%Q ]};
     bench_busy := true |}.

(** *** [IMUService]

    The service holds the [BNO055Manager] that [serve] builds and reaches
    it through attribute look-up, as any Python caller does. *)

(** What a method call hands back: an element or a tuple. *)
#[warnings="-register-all"]
Inductive pyobj : Type :=
| PyVal (v : value)
| PyTuple (elems : list pyobj).

Definition py_tuple (t : list value) : pyobj := PyTuple (PyVal <$> t).

(** The attributes that [__init__] sets on the instance. *)
Definition BNO055Manager_fields : list string :=
  ["log"; "update_rate"; "_queue"; "_process"; "_reader_thread";
   "_stop_reader"; "_buffer"; "_lock"].

(** [_reader_loop] called in the caller's own thread: it returns at once
    when the stop event is set and never when it is clear. *)
Definition reader_loop_inline : M Manager pyobj :=
  fun m => if _stop_reader m then (Ret (PyVal VNone), m) else (Hang, m).

(** [__init__] called again on the instance, with the default rate. *)
Definition reinit : M Manager pyobj :=
  fun m =>
    (Ret (PyVal VNone),
     {| procs := procs m; threads := threads m; update_rate := 100;
        _queue := new_queue; _process := None; _reader_thread := None;
        _stop_reader := false; _buffer := init_buffer; mlog := mlog m |}).

(** The functions that the body of [class BNO055Manager] defines. *)
Definition BNO055Manager_dict : list (string * M Manager pyobj) :=
  [("__init__", reinit);
   ("start", start;; mret (PyVal VNone));
   ("stop", stop;; mret (PyVal VNone));
   ("_reader_loop", reader_loop_inline);
   ("get_values",
     '(a, g, mg) ← get_values;
     mret (PyTuple [py_tuple a; py_tuple g; py_tuple mg]));
   ("get_quaternion", q ← get_quaternion; mret (py_tuple q));
   ("get_calibration_status", c ← get_calibration_status; mret (py_tuple c))].

Fixpoint assoc {A} (name : string) (d : list (string * A)) : option A :=
  match d with
  | [] => None
  | (k, v) :: rest => if String.eqb k name then Some v else assoc name rest
  end.

(** [imu.<name>()]: the instance attributes are looked up first, then the
    class; an instance attribute is not callable. *)
Definition call_method (name : string) : M Manager pyobj :=
  if bool_decide (name ∈ BNO055Manager_fields) then
    raise (TypeError "object is not callable")
  else
    match assoc name BNO055Manager_dict with
    | Some body => body
    | None =>
        raise (AttributeError
                 ("'BNO055Manager' object has no attribute '" +:+ name +:+ "'"))
    end.

(** A call on [self.imu] from a handler. *)
Definition on_imu {A} (m : M Manager A) : M (World Manager) A :=
  fun w =>
    let '(r, imu') := m (backend w) in
    (r, {| backend := imu'; locked := locked w; code := code w;
           details := details w; trace := trace w |}).

(** [a, b, c = obj] *)
Definition unpack3 {St} (o : pyobj) : M St (pyobj * pyobj * pyobj) :=
  match o with
  | PyTuple [a; b; c] => mret (a, b, c)
  | PyTuple _ => raise (ValueError "wrong number of values to unpack")
  | PyVal _ => raise (TypeError "cannot unpack non-iterable object")
  end.

(** [a, b, c, d = obj] *)
Definition unpack4 {St} (o : pyobj) : M St (pyobj * pyobj * pyobj * pyobj) :=
  match o with
  | PyTuple [a; b; c; d] => mret (a, b, c, d)
  | PyTuple _ => raise (ValueError "wrong number of values to unpack")
  | PyVal _ => raise (TypeError "cannot unpack non-iterable object")
  end.

(** [obj[i]] *)
Definition getitem {St} (o : pyobj) (i : nat) : M St pyobj :=
  match o with
  | PyTuple l =>
      match l !! i with
      | Some x => mret x
      | None => raise (IndexError "tuple index out of range")
      end
  | PyVal _ => raise (TypeError "object is not subscriptable")
  end.

(** [float(obj)] *)
Definition float_of {St} (o : pyobj) : M St Q :=
  match o with
  | PyVal (VFloat x) => mret x
  | PyVal (VInt n) => mret (inject_Z n)
  | _ => raise (TypeError "float() argument must be a string or a real number")
  end.

(** The two [except] clauses that every [IMUService] handler ends with. *)
Definition imu_except (mk_error : string -> Response) (e : exn)
    : M (World Manager) Response :=
  match e with
  | IMUNotAvailableError _ =>
      set_code UNAVAILABLE;;
      set_details (str_exn e);;
      mret (mk_error (str_exn e))
  | _ =>
      set_code INTERNAL;;
      set_details (str_exn e);;
      mret (mk_error (str_exn e))
  end.

(** [IMUService.GetEuler] *)
Definition GetEuler : M (World Manager) Response :=
  try_except
    (r ← on_imu (call_method "get_euler");
     '(roll, pitch, yaw) ← unpack3 r;
     roll ← float_of roll;
     pitch ← float_of pitch;
     yaw ← float_of yaw;
     mret (EulerAnglesResponse (Some (roll, pitch, yaw)) None))
    (imu_except (fun msg => EulerAnglesResponse None (Some msg))).

(** [IMUService.GetAdvancedValues] *)
Definition GetAdvancedValues : M (World Manager) Response :=
  try_except
    (r ← on_imu (call_method "get_advanced_values");
     '(lin_accel, gravity, temp) ← unpack3 r;
     lx ← getitem lin_accel 0 ≫= float_of;
     ly ← getitem lin_accel 1 ≫= float_of;
     lz ← getitem lin_accel 2 ≫= float_of;
     gx ← getitem gravity 0 ≫= float_of;
     gy ← getitem gravity 1 ≫= float_of;
     gz ← getitem gravity 2 ≫= float_of;
     temp ← float_of temp;
     mret (IMUAdvancedValuesResponse (Some [lx; ly; lz; gx; gy; gz; temp]) None))
    (imu_except (fun msg => IMUAdvancedValuesResponse None (Some msg))).

(** [IMUService.GetQuaternion], which calls a method that the manager
    has. *)
Definition GetQuaternion : M (World Manager) Response :=
  try_except
    (r ← on_imu (call_method "get_quaternion");
     '(w, x, y, z) ← unpack4 r;
     w ← float_of w;
     x ← float_of x;
     y ← float_of y;
     z ← float_of z;
     mret (QuaternionResponse (Some (w, x, y, z)) None))
    (imu_except (fun msg => QuaternionResponse None (Some msg))).

(** *** Concurrent calls on one service instance

    Each call in flight is what it still has to do, as the list of its
    events; the scheduler picks which call runs its next event.  A call
    whose next event is the acquisition of a taken lock waits. *)

Record System : Type := mkSystem {
  sys_locked : bool;                 (* [temporal_lock.locked()] *)
  sys_calls : list (list event);
  sys_trace : list (nat * event)     (* who did what, oldest first *)
}.

Definition init_system (calls : list (list event)) : System :=
  {| sys_locked := false; sys_calls := calls; sys_trace := [] |}.

(** Call [i] runs its next event.  [asyncio.Lock.release] on a free lock
    raises; no call modelled here reaches that, and the call is then left
    where it is. *)
Definition sys_step (i : nat) (s : System) : System :=
  match sys_calls s !! i with
  | Some (EvAcquire :: rest) =>
      if sys_locked s then s
      else {| sys_locked := true; sys_calls := <[i := rest]> (sys_calls s);
              sys_trace := sys_trace s ++ [(i, EvAcquire)] |}
  | Some (EvRelease :: rest) =>
      if sys_locked s then
        {| sys_locked := false; sys_calls := <[i := rest]> (sys_calls s);
           sys_trace := sys_trace s ++ [(i, EvRelease)] |}
      else s
  | Some (e :: rest) =>
      {| sys_locked := sys_locked s; sys_calls := <[i := rest]> (sys_calls s);
         sys_trace := sys_trace s ++ [(i, e)] |}
  | Some [] | None => s
  end.

Definition sys_run (schedule : list nat) (s : System) : System :=
  foldl (fun s i => sys_step i s) s schedule.

Definition is_lock_event (e : event) : bool :=
  match e with
  | EvAcquire | EvRelease => true
  | _ => false
  end.

(** The events that read the request or act on the controller. *)
Definition is_effect (e : event) : bool :=
  match e with
  | EvDecode | EvEnter _ | EvExit _ => true
  | _ => false
  end.

(** The calls that acted, in the order of their effects. *)
Definition effects (t : list (nat * event)) : list nat :=
  fst <$> filter (fun x => is_effect x.2 = true) t.

(** Two calls interleave when one acts between two effects of the other. *)
Definition interleaved (l : list nat) : Prop :=
  exists i j l1 l2 l3 l4,
    i ≠ j /\ l = l1 ++ i :: l2 ++ j :: l3 ++ i :: l4.

(** Nothing in [t] touches the lock or acts on the controller. *)
Definition quiet (t : list event) : bool :=
  forallb (fun e => negb (is_lock_event e) && negb (is_effect e)) t.

(** [t] is the rest of a call that holds the lock: it releases it once,
    and only then stops acting. *)
Fixpoint closes (t : list event) : bool :=
  match t with
  | [] => false
  | EvAcquire :: _ => false
  | EvRelease :: post => quiet post
  | _ :: t' => closes t'
  end.

(** [t] takes the lock first, acts under it and releases it once. *)
Definition bracketed (t : list event) : bool :=
  match t with
  | EvAcquire :: t' => closes t'
  | _ => false
  end.

(** The events of a call, counted. *)
Definition count_event (p : event -> bool) (t : list event) : nat :=
  length (filter (fun e => p e = true) t).

Definition is_acquire (e : event) : bool :=
  match e with EvAcquire => true | _ => false end.

Definition is_release (e : event) : bool :=
  match e with EvRelease => true | _ => false end.

(** [t] is everything that one mutating call does, from its arrival on a
    service whose lock is free to its response. *)
Definition mutating_call {S : Type} (ctl : SCSMotorController S)
    (t : list event) : Prop :=
  exists s : S,
    (exists request, t = trace (ConfigureActuator ctl request (fresh s)).2) \/
    (exists commands, t = trace (CommandActuators ctl commands (fresh s)).2).

(** The effects come in blocks: a call that has acted and acts again is
    the one that acted last. *)
Definition blocks (l : list nat) : Prop :=
  forall l1 i l2, l = l1 ++ i :: l2 -> i ∈ l1 -> last l1 = Some i.

(** What holds of the calls in flight at every moment: each is yet to take
    the lock, holds it, or is past it; a call holds the lock only while
    the lock is taken, and at most one does; a call yet to take the lock
    has not acted; the holder is the last call that acted, if it did. *)
Definition sys_inv (s : System) : Prop :=
  (forall i r, sys_calls s !! i = Some r ->
     bracketed r = true \/ closes r = true \/ quiet r = true) /\
  (forall i r, sys_calls s !! i = Some r -> closes r = true ->
     sys_locked s = true) /\
  (forall i j ri rj,
     sys_calls s !! i = Some ri -> sys_calls s !! j = Some rj ->
     closes ri = true -> closes rj = true -> i = j) /\
  (forall i r, sys_calls s !! i = Some r -> bracketed r = true ->
     i ∉ effects (sys_trace s)) /\
  (forall i r, sys_calls s !! i = Some r -> closes r = true ->
     i ∉ effects (sys_trace s) \/ last (effects (sys_trace s)) = Some i) /\
  blocks (effects (sys_trace s)).

(** The only process that is alive is the one that [_process] names, and
    the only thread that runs is the one that [_reader_thread] names, with
    the stop event clear. *)
Definition only_held_alive (m : Manager) : Prop :=
  (forall pid, procs m !! pid = Some PAlive -> _process m = Some pid) /\
  (forall tid, threads m !! tid = Some TAlive ->
     _reader_thread m = Some tid /\ _stop_reader m = false).
(** The fields of a sample, by name. *)
Definition accel_of (s : Sample) : field := s.1.1.1.1.
Definition gyro_of (s : Sample) : field := s.1.1.1.2.
Definition mag_of (s : Sample) : field := s.1.1.2.
Definition quat_of (s : Sample) : field := s.1.2.
Definition calib_of (s : Sample) : field := s.2.

(** The fully valid readings of one field among what the reader received,
    oldest first. *)
Definition valid_readings (proj : Sample -> field)
    (received : list (option Sample)) : list (list value) :=
  omap (fun o => match o with
                 | Some s => if fully_valid (proj s) then proj s else None
                 | None => None
                 end) received.




(** The producer's [get_nowait] finds the occupant. *)
Definition occupant_seen (a : action) : bool :=
  match a with
  | ProduceUnseen _ => false
  | _ => true
  end.

(** A controller that knows the actuators 1 and 2 and raises the
    exception it is given on every call; the properties of the error paths
    are instantiated on it. *)
Definition raising_controller : SCSMotorController exn :=
  {| actuator_ids := fun _ => [1; 2];
     configure_actuator := fun _ _ e => (Err e, e);
     set_positions := fun _ e => (Err e, e);
     read_all_servo_params := fun _ e => Err e;
     get_torque_enabled := fun _ e => Err e;
     get_state := fun _ e => Err e;
     get_faults := fun _ e => Err e |}.

(** The ids that a query with the request list [request_ids] goes through:
    the list itself, or every registered id in ascending order when the
    list is empty. *)
Definition ids_of_request {S : Type} (ctl : SCSMotorController S) (s : S)
    (request_ids : list Z) : list Z :=
  match request_ids with
  | [] => merge_sort Z.le (actuator_ids ctl s)
  | _ => request_ids
  end.

(** The controller knows [id] and its parameters can be read. *)
Definition readable {S : Type} (ctl : SCSMotorController S) (s : S) (id : Z)
    : bool :=
  bool_decide (id ∈ actuator_ids ctl s) &&
  match read_all_servo_params ctl id s with
  | Ok _ => true
  | Err _ => false
  end.

(** The entry of [GetActuatorsState] for [id], when the controller answers
    the three queries with [torque id], [state id] and [faults id]. *)
Definition state_entry {S : Type} (ctl : SCSMotorController S) (s : S)
    (torque : Z -> bool) (state : Z -> option (gmap string Q))
    (faults : Z -> option fault_info) (id : Z) : ActuatorStateResponse :=
  if bool_decide (id ∈ actuator_ids ctl s)
  then registered_state id (torque id) (state id) (faults id)
  else unregistered_state id.

(** *** [IMUService]: the handlers that read the buffer *)




(** [int(obj)] *)
Definition int_of {St} (o : pyobj) : M St Z :=
  match o with
  | PyVal (VInt n) => mret n
  | PyVal (VFloat x) => mret (int_of_float x)
  | _ => raise (TypeError "int() argument must be a string or a real number")
  end.




Definition to_int (v : value) : Z :=
  match v with
  | VInt n => n
  | VFloat x => int_of_float x
  | VNone => 0
  end.









(** ** kos.py: [singleton_check]

    [singleton_check] works on the operating system: the pid file and its
    lock, the other processes, the terminal.  The model keeps what the
    function can observe of them:
    - the text of the pid file is ASCII;
    - a lock taken with [fcntl.lockf] belongs to a process and to a file,
      not to a path: it stays when the path is removed and goes when the
      process ends;
    - the caller may signal every process;
    - while the function runs nothing else happens, except that a process
      that got SIGTERM ends after some calls of [time.sleep]. *)

(** How the function can end other than by returning.  [OSError] stands for
    the class and its subclasses ([BlockingIOError], [ProcessLookupError],
    [FileNotFoundError]; [IOError] is another name of it), [PyException]
    for the other classes that derive from [Exception], [SystemExit] for
    what [sys.exit] raises. *)
Inductive os_exn : Type :=
| OSError (msg : string)
| PyException (e : exn)
| SystemExit (status : Z).

Inductive os_outcome (A : Type) : Type :=
| Done (a : A)
| Fails (e : os_exn)
| Killed (signum : Z).      (* a signal ends the calling process *)
Arguments Done {A} a.
Arguments Fails {A} e.
Arguments Killed {A} signum.

Record Inode : Type := mkInode {
  content : string;
  lock : option Z             (* the process that holds the lock *)
}.

Record OS : Type := mkOS {
  os_getpid : Z;                (* the calling process *)
  os_alive : gset Z;            (* the other processes that run *)
  os_exits_after : gmap Z nat;  (* how many [time.sleep] of the caller a
                                   process outlives SIGTERM; none: all *)
  os_dying : gmap Z nat;        (* what is left of it, once signalled *)
  os_path : option nat;         (* the file that [pidfile] names *)
  os_inodes : list Inode;       (* the files; a descriptor is an index *)
  os_stdin : list string;       (* the lines that [input] will read *)
  os_stdout : list string;      (* the prompts written *)
  os_log : list string;
  os_signals : list (Z * Z);    (* signals delivered, oldest first *)
  os_slept : nat                (* calls of [time.sleep(0.5)] *)
}.

Definition OSM (A : Type) : Type := OS -> os_outcome A * OS.

#[global] Instance OSM_ret : MRet OSM := fun A a s => (Done a, s).
#[global] Instance OSM_bind : MBind OSM := fun A B k m s =>
  match m s with
  | (Done a, s') => k a s'
  | (Fails e, s') => (Fails e, s')
  | (Killed n, s') => (Killed n, s')
  end.

(** [try: m  except OSError: h] *)
Definition try_OSError {A} (m : OSM A) (h : OSM A) : OSM A :=
  fun s =>
    match m s with
    | (Fails (OSError _), s') => h s'
    | r => r
    end.

Definition os_fail {A} (e : os_exn) : OSM A := fun s => (Fails e, s).

Definition set_files (p : option nat) (l : list Inode) (s : OS) : OS :=
  {| os_getpid := os_getpid s; os_alive := os_alive s;
     os_exits_after := os_exits_after s; os_dying := os_dying s;
     os_path := p; os_inodes := l; os_stdin := os_stdin s;
     os_stdout := os_stdout s; os_log := os_log s;
     os_signals := os_signals s; os_slept := os_slept s |}.

Definition set_processes (a : gset Z) (d : gmap Z nat) (sg : list (Z * Z))
    (n : nat) (s : OS) : OS :=
  {| os_getpid := os_getpid s; os_alive := a;
     os_exits_after := os_exits_after s; os_dying := d;
     os_path := os_path s; os_inodes := os_inodes s; os_stdin := os_stdin s;
     os_stdout := os_stdout s; os_log := os_log s;
     os_signals := sg; os_slept := n |}.

Definition set_terminal (i o l : list string) (s : OS) : OS :=
  {| os_getpid := os_getpid s; os_alive := os_alive s;
     os_exits_after := os_exits_after s; os_dying := os_dying s;
     os_path := os_path s; os_inodes := os_inodes s; os_stdin := i;
     os_stdout := o; os_log := l;
     os_signals := os_signals s; os_slept := os_slept s |}.

(** [os.open(pidfile, os.O_RDWR | os.O_CREAT, 0o644)]: the descriptor of
    the file that the path names, which is made if there is none. *)
Definition os_open : OSM nat :=
  fun s =>
    match os_path s with
    | Some fd => (Done fd, s)
    | None =>
        let fd := length (os_inodes s) in
        (Done fd,
         set_files (Some fd)
           (os_inodes s ++ [{| content := ""; lock := None |}]) s)
    end.

(** Another process that runs holds the lock. *)
Definition lock_taken (s : OS) (ino : Inode) : bool :=
  match lock ino with
  | Some p => bool_decide (p <> os_getpid s /\ p ∈ os_alive s)
  | None => false
  end.

(** [fcntl.lockf(fd, fcntl.LOCK_EX | fcntl.LOCK_NB)] *)
Definition lockf (fd : nat) : OSM unit :=
  fun s =>
    match os_inodes s !! fd with
    | Some ino =>
        if lock_taken s ino then
          (Fails (OSError "Resource temporarily unavailable"), s)
        else
          (Done tt,
           set_files (os_path s)
             (<[fd := {| content := content ino;
                         lock := Some (os_getpid s) |}]> (os_inodes s)) s)
    | None => (Fails (OSError "Bad file descriptor"), s)
    end.

(** [with open(pidfile, "r") as f: f.read()] *)
Definition read_pidfile : OSM string :=
  fun s =>
    match os_path s ≫= (fun fd => os_inodes s !! fd) with
    | Some ino => (Done (content ino), s)
    | None => (Fails (OSError "No such file or directory"), s)
    end.

(** [os.remove(pidfile)]: the path goes, the file stays for those who have
    it open. *)
Definition os_remove : OSM unit :=
  fun s =>
    match os_path s with
    | Some _ => (Done tt, set_files None (os_inodes s) s)
    | None => (Fails (OSError "No such file or directory"), s)
    end.

(** A signal other than the probe [0] reaches a process that runs: the
    code sends SIGTERM only. *)
Definition deliver (pid sig : Z) (s : OS) : OS :=
  if bool_decide (sig = 0) then s
  else
    let sg := os_signals s ++ [(pid, sig)] in
    match os_exits_after s !! pid with
    | Some O =>
        set_processes (os_alive s ∖ {[pid]}) (os_dying s) sg (os_slept s) s
    | Some (S n) =>
        match os_dying s !! pid with
        | None =>
            set_processes (os_alive s) (<[pid := S n]> (os_dying s)) sg
              (os_slept s) s
        | Some _ => set_processes (os_alive s) (os_dying s) sg (os_slept s) s
        end
    | None => set_processes (os_alive s) (os_dying s) sg (os_slept s) s
    end.

(** [os.kill(pid, sig)] for [pid >= 0].  A process id is a C [int]; id 0
    is the process group of the caller, which the caller is part of. *)
Definition os_kill (pid sig : Z) : OSM unit :=
  fun s =>
    if bool_decide (2 ^ 31 <= pid) then
      (Fails (PyException
                (OtherException "signed integer is greater than maximum")), s)
    else if bool_decide (pid = 0 \/ pid = os_getpid s) then
      if bool_decide (sig = 0) then (Done tt, s) else (Killed sig, s)
    else if bool_decide (pid ∈ os_alive s) then (Done tt, deliver pid sig s)
    else (Fails (OSError "No such process"), s).

(** [time.sleep(0.5)]: the processes whose time is up end. *)
Definition time_sleep : OSM unit :=
  fun s =>
    (Done tt,
     set_processes
       (filter (fun p => os_dying s !! p <> Some 1%nat) (os_alive s))
       (Nat.pred <$> os_dying s) (os_signals s) (S (os_slept s)) s).

(** [input(prompt)] *)
Definition input (prompt : string) : OSM string :=
  fun s =>
    match os_stdin s with
    | line :: rest =>
        (Done line,
         set_terminal rest (os_stdout s ++ [prompt]) (os_log s) s)
    | [] =>
        (Fails (PyException (OtherException "EOF when reading a line")),
         set_terminal [] (os_stdout s ++ [prompt]) (os_log s) s)
    end.

(** [log.info(msg)] *)
Definition log_info (msg : string) : OSM unit :=
  fun s =>
    (Done tt, set_terminal (os_stdin s) (os_stdout s) (os_log s ++ [msg]) s).

(** [sys.exit(status)] *)
Definition sys_exit {A} (status : Z) : OSM A := os_fail (SystemExit status).

(** [os.ftruncate(fd, 0)] *)
Definition os_ftruncate (fd : nat) : OSM unit :=
  fun s =>
    match os_inodes s !! fd with
    | Some ino =>
        (Done tt,
         set_files (os_path s)
           (<[fd := {| content := ""; lock := lock ino |}]> (os_inodes s)) s)
    | None => (Fails (OSError "Bad file descriptor"), s)
    end.

(** The bytes of a file after [data] is written at its start. *)
Fixpoint overwrite (data old : string) : string :=
  match data with
  | EmptyString => old
  | String c rest =>
      String c (overwrite rest
                  (match old with
                   | String _ old' => old'
                   | EmptyString => EmptyString
                   end))
  end.

(** [os.write(fd, data)] on a descriptor that has neither been read nor
    written: the data go to the start of the file. *)
Definition os_write (fd : nat) (data : string) : OSM unit :=
  fun s =>
    match os_inodes s !! fd with
    | Some ino =>
        (Done tt,
         set_files (os_path s)
           (<[fd := {| content := overwrite data (content ino);
                       lock := lock ino |}]> (os_inodes s)) s)
    | None => (Fails (OSError "Bad file descriptor"), s)
    end.

(** *** The string methods, on ASCII text *)

(** [c.isspace()] *)
Definition isspace (c : Ascii.ascii) : bool :=
  let n := Ascii.N_of_ascii c in
  ((9 <=? n) && (n <=? 13) || (28 <=? n) && (n <=? 32))%N.

Fixpoint lstrip (s : string) : string :=
  match s with
  | String c rest => if isspace c then lstrip rest else s
  | EmptyString => EmptyString
  end.

Definition rstrip (s : string) : string := String.rev (lstrip (String.rev s)).

(** [s.strip()] *)
Definition strip (s : string) : string := rstrip (lstrip s).

Definition digit_of (c : Ascii.ascii) : option Z :=
  let n := Ascii.N_of_ascii c in
  if ((48 <=? n) && (n <=? 57))%N then Some (Z.of_N n - 48) else None.

Fixpoint all_digits (s : string) : bool :=
  match s with
  | String c rest => bool_decide (is_Some (digit_of c)) && all_digits rest
  | EmptyString => true
  end.

(** [s.isdigit()] *)
Definition isdigit (s : string) : bool :=
  match s with
  | EmptyString => false
  | _ => all_digits s
  end.

Fixpoint int_go (acc : Z) (s : string) : Z :=
  match s with
  | String c rest => int_go (10 * acc + default 0 (digit_of c)) rest
  | EmptyString => acc
  end.

(** The decimal number that a string of digits writes. *)
Definition int_of_digits (s : string) : Z := int_go 0 s.

(** [int(s)] for a string of digits: the conversion refuses more than 4300
    of them. *)
Definition int (s : string) : OSM Z :=
  if (4300 <? String.length s)%nat then
    os_fail (PyException
               (ValueError
                  "Exceeds the limit (4300 digits) for integer string conversion"))
  else mret (int_of_digits s).

Definition lower_char (c : Ascii.ascii) : Ascii.ascii :=
  let n := Ascii.N_of_ascii c in
  if ((65 <=? n) && (n <=? 90))%N then Ascii.ascii_of_N (n + 32) else c.

(** [s.lower()] *)
Fixpoint lower (s : string) : string :=
  match s with
  | String c rest => String (lower_char c) (lower rest)
  | EmptyString => EmptyString
  end.

(** *** The function *)

(** The [for _ in range(10)] loop: [true] when it ends by [break], [false]
    when it runs out and its [else] is due. *)
Fixpoint wait_for_exit (n : nat) (existing_pid : string) : OSM bool :=
  match n with
  | O => mret false
  | S n' =>
      still_there ← try_OSError
                      (pid ← int existing_pid;
                       os_kill pid 0;;
                       time_sleep;;
                       mret true)
                      (mret false);
      if still_there : bool then wait_for_exit n' existing_pid else mret true
  end.

(** [f"A kos process is already running (PID: {existing_pid}). Stop it? [y/N] "] *)
Definition question (existing_pid : string) : string :=
  "A kos process is already running (PID: " +:+ existing_pid
  +:+ "). Stop it? [y/N] ".

(** The question, and what follows the answer. *)
Definition ask_and_stop (pidfile_fd : nat) (existing_pid : string)
    : OSM unit :=
  pid ← int existing_pid;
  os_kill pid 0;;
  answer ← input (question existing_pid);
  if String.eqb (lower answer) "y" then
    pid ← int existing_pid;
    os_kill pid 15;;
    log_info "Sent SIGTERM, waiting for process to exit...";;
    exited ← wait_for_exit 10 existing_pid;
    (if exited : bool then mret tt
     else log_info "Process did not exit, exiting.";; sys_exit 1);;
    lockf pidfile_fd
  else
    log_info "Exiting.";;
    sys_exit 1.

(** What the function does when the lock is taken. *)
Definition lock_is_taken (pidfile_fd : nat) : OSM unit :=
  text ← read_pidfile;
  let existing_pid := strip text in
  if negb (String.eqb existing_pid "") && isdigit existing_pid then
    try_OSError
      (ask_and_stop pidfile_fd existing_pid)
      (log_info "Stale PID file found, removing.";;
       os_remove;;
       lockf pidfile_fd)
  else
    log_info "PID file exists but is invalid, removing.";;
    os_remove;;
    lockf pidfile_fd.

(** [# Write our PID] *)
Definition write_pid (pidfile_fd : nat) : OSM nat :=
  os_ftruncate pidfile_fd;;
  pid ← (fun s => (Done (os_getpid s), s)) : OSM Z;
  os_write pidfile_fd (pretty pid);;
  mret pidfile_fd.

(** [singleton_check()] *)
Definition singleton_check : OSM nat :=
  pidfile_fd ← os_open;
  try_OSError (lockf pidfile_fd) (lock_is_taken pidfile_fd);;
  write_pid pidfile_fd.

(** The pid file is absent, or no other process that runs has its lock. *)
Definition pidfile_free (s : OS) : Prop :=
  match os_path s with
  | Some fd => exists ino, os_inodes s !! fd = Some ino /\
                           lock_taken s ino = false
  | None => True
  end.

(** The file of descriptor [fd] with the caller's lock and the caller's
    id in it. *)
Definition claimed (fd : nat) (s : OS) : OS :=
  set_files (Some fd)
    (<[fd := {| content := pretty (os_getpid s);
                lock := Some (os_getpid s) |}]> (os_inodes s)) s.

(** The system as a process [q] that starts later finds it: the former
    caller runs on, and [answers] is what the user will type. *)
Definition started_later (q : Z) (answers : list string) (s : OS) : OS :=
  {| os_getpid := q; os_alive := os_alive s ∪ {[os_getpid s]};
     os_exits_after := os_exits_after s; os_dying := os_dying s;
     os_path := os_path s; os_inodes := os_inodes s; os_stdin := answers;
     os_stdout := os_stdout s; os_log := os_log s;
     os_signals := os_signals s; os_slept := os_slept s |}.


(** A machine on which no kos process runs and [pidfile] is absent. *)
Definition quiet_machine (pid : Z) (answers : list string) : OS :=
  {| os_getpid := pid; os_alive := ∅; os_exits_after := ∅; os_dying := ∅;
     os_path := None; os_inodes := []; os_stdin := answers;
     os_stdout := []; os_log := []; os_signals := []; os_slept := 0 |}.

(** Process 4242 holds the lock of the pid file and has written its id;
    it ends [k] sleeps after SIGTERM, or never when [k] is [None]. *)
Definition busy_machine (pid : Z) (k : option nat) (text : string)
    (answers : list string) : OS :=
  {| os_getpid := pid; os_alive := {[4242]};
     os_exits_after := from_option (fun n => {[4242 := n]}) ∅ k;
     os_dying := ∅;
     os_path := Some 0%nat;
     os_inodes := [{| content := text; lock := Some 4242 |}];
     os_stdin := answers;
     os_stdout := []; os_log := []; os_signals := []; os_slept := 0 |}.

(** The process that the pid file names is another one. *)
Definition other_process (s : OS) (p : Z) : Prop :=
  p < 2 ^ 31 /\ p <> 0 /\ p <> os_getpid s.

(** The state after [time.sleep]. *)
Definition asleep (s : OS) : OS := (time_sleep s).2.

(** What the waiting loop leaves alone. *)
Definition only_time_passed (s s' : OS) : Prop :=
  os_getpid s' = os_getpid s /\ os_path s' = os_path s /\
  os_inodes s' = os_inodes s /\ os_stdin s' = os_stdin s /\
  os_stdout s' = os_stdout s /\ os_log s' = os_log s /\
  os_signals s' = os_signals s.



(** A machine on which only the caller runs; it ends [k] sleeps after a
    SIGTERM. *)
Definition lone_machine (pid : Z) (k : nat) : OS :=
  {| os_getpid := pid; os_alive := ∅; os_exits_after := {[pid := k]};
     os_dying := ∅; os_path := None; os_inodes := []; os_stdin := [];
     os_stdout := []; os_log := []; os_signals := []; os_slept := 0 |}.

(** * Properties *)

(** ** The state buffer *)

Lemma forallb_is_not_None_no_null (t : list value) :
  forallb is_not_None t = true -> no_null t.
Proof.
  unfold no_null. induction t as [|v t IH]; simpl; intros H.
  - constructor.
  - apply andb_prop in H as [Hv Ht]. constructor; [|by apply IH].
    intros ->. discriminate Hv.
Qed.

Lemma store_if_valid_lookup (key key' : string) (f : field)
    (buf : gmap string (list value)) :
  store_if_valid key f buf !! key' =
    if decide (key = key') then (if fully_valid f then f else buf !! key')
    else buf !! key'.
Proof.
  unfold store_if_valid, fully_valid.
  destruct f as [t|]; [destruct (forallb is_not_None t)|];
    case_decide; simplify_map_eq; done.
Qed.

Lemma store_if_valid_no_null (key : string) (f : field)
    (buf : gmap string (list value)) :
  map_Forall (fun _ t => no_null t) buf ->
  map_Forall (fun _ t => no_null t) (store_if_valid key f buf).
Proof.
  intros Hbuf. unfold store_if_valid.
  destruct f as [t|]; [|done].
  destruct (forallb is_not_None t) eqn:Ht; [|done].
  apply map_Forall_insert_2; [|done].
  by apply forallb_is_not_None_no_null.
Qed.

Lemma merge_sample_no_null (s : Sample) (buf : gmap string (list value)) :
  map_Forall (fun _ t => no_null t) buf ->
  map_Forall (fun _ t => no_null t) (merge_sample s buf).
Proof.
  destruct s as [[[[accel gyro] mag] quat] calib]. simpl. intros Hbuf.
  do 5 apply store_if_valid_no_null. exact Hbuf.
Qed.

Lemma init_buffer_no_null : map_Forall (fun _ t => no_null t) init_buffer.
Proof.
  unfold init_buffer.
  repeat (apply map_Forall_insert_2;
          [unfold no_null; repeat constructor; discriminate|]).
  apply map_Forall_empty.
Qed.

Lemma reader_loop_no_null (received : list (option Sample))
    (buf : gmap string (list value)) :
  map_Forall (fun _ t => no_null t) buf ->
  map_Forall (fun _ t => no_null t) (reader_loop received buf).
Proof.
  revert buf. induction received as [|[s|] rest IH]; simpl; intros buf Hbuf.
  - exact Hbuf.
  - apply IH. by apply merge_sample_no_null.
  - by apply IH.
Qed.

(** C1.  A merged sample overwrites a slot of the state buffer exactly when
    the field for that slot is a tuple none of whose elements is [None],
    and leaves the slot as it was otherwise; so from the zero defaults, no
    run of the reader loop ever leaves a tuple with a [None] in the
    buffer. *)
Theorem reader_loop_never_stores_null :
  (forall (accel gyro mag quat calib : field) (buf : gmap string (list value)),
     let buf' := merge_sample (accel, gyro, mag, quat, calib) buf in
     buf' !! "accel" = (if fully_valid accel then accel else buf !! "accel") /\
     buf' !! "gyro" = (if fully_valid gyro then gyro else buf !! "gyro") /\
     buf' !! "mag" = (if fully_valid mag then mag else buf !! "mag") /\
     buf' !! "quat" = (if fully_valid quat then quat else buf !! "quat") /\
     buf' !! "calib" = (if fully_valid calib then calib else buf !! "calib")) /\
  (forall (f : field),
     fully_valid f = true <-> exists t, f = Some t /\ no_null t) /\
  (forall received : list (option Sample),
     map_Forall (fun _ t => no_null t) (reader_loop received init_buffer)).
Proof.
  split; [|split].
  - intros accel gyro mag quat calib buf. simpl.
    rewrite !store_if_valid_lookup. simpl. repeat split; reflexivity.
  - intros [t|]; simpl; split.
    + intros H. exists t. split; [done|]. by apply forallb_is_not_None_no_null.
    + intros (t' & [= <-] & Ht). apply forallb_forall. intros v Hv.
      unfold no_null in Ht. rewrite Forall_forall in Ht.
      apply list_elem_of_In in Hv. specialize (Ht v Hv). by destruct v.
    + discriminate.
    + intros (t' & [=] & _).
  - intros received. apply reader_loop_no_null, init_buffer_no_null.
Qed.

(** ** The sampler *)

(** Unfolding of the monad's operations, for proofs by computation. *)
Ltac unfold_M :=
  unfold mbind, mret, M_bind, M_ret, bind, ret, raise, gets, modify,
    try_except, finally, call, of_result in *.



Lemma advance_deadline_spec (period now : Q) (s : Sampler) :
  advance_deadline period now s =
    (Ret tt,
     set_next_deadline
       ((if Qgt_bool now (next_deadline s) then now else next_deadline s)
        + period)%Q s).
Proof.
  unfold advance_deadline. unfold_M.
  destruct (Qgt_bool now (next_deadline s)); reflexivity.
Qed.

Lemma read_sensor_spec (read : result Sample) (s : Sampler) :
  read_sensor read s =
    match read with
    | Ok d => (Ret (Some d), s)
    | Err _ =>
        (Ret None,
         {| next_deadline := next_deadline s; queue := queue s;
            log := "Failed to read sensor values" :: log s;
            sleeps := sleeps s |})
    end.
Proof.
  unfold read_sensor, log_exception. unfold_M. by destruct read.
Qed.

Lemma push_latest_spec (d : Sample) (s : Sampler) :
  push_latest d s = (Ret tt, set_queue (pushed d (queue s)) s).
Proof.
  unfold push_latest, pushed, on_queue, put_nowait, get_nowait. unfold_M.
  destruct s as [nd [mx its] lg sl]. simpl.
  destruct (full {| maxsize := mx; items := its |}) eqn:Hfull; simpl.
  - destruct its as [|x rest]; simpl.
    + rewrite Hfull. reflexivity.
    + destruct (full {| maxsize := mx; items := rest |}); reflexivity.
  - rewrite Hfull. reflexivity.
Qed.

Lemma sleep_until_deadline_spec (now : Q) (s : Sampler) :
  sleep_until_deadline now s =
    (Ret tt,
     if Qgt_bool (next_deadline s - now) 0
     then {| next_deadline := next_deadline s; queue := queue s;
             log := log s;
             sleeps := (next_deadline s - now)%Q :: sleeps s |}
     else s).
Proof.
  unfold sleep_until_deadline, sleep. unfold_M.
  destruct (Qgt_bool (next_deadline s - now) 0); reflexivity.
Qed.

Lemma tick_returns (period : Q) (env : TickEnv) (s : Sampler) :
  (tick period env s).1 = Ret tt.
Proof.
  unfold tick. unfold mbind, M_bind, bind.
  rewrite advance_deadline_spec, read_sensor_spec.
  destruct (sensor env) as [d|e].
  - rewrite push_latest_spec, sleep_until_deadline_spec. reflexivity.
  - unfold mret, M_ret, ret. rewrite sleep_until_deadline_spec. reflexivity.
Qed.

Lemma sensor_loop_returns (period : Q) (envs : list TickEnv) (s : Sampler) :
  (sensor_loop period envs s).1 = Ret tt.
Proof.
  revert s. induction envs as [|env rest IH]; intros s; simpl.
  - reflexivity.
  - unfold mbind, M_bind, bind.
    pose proof (tick_returns period env s) as Ht.
    destruct (tick period env s) as [r s']. simpl in Ht. subst r.
    apply IH.
Qed.

Lemma tick_spec (period : Q) (env : TickEnv) (s : Sampler) :
  tick period env s =
    let s1 := set_next_deadline
                ((if Qgt_bool (now_top env) (next_deadline s)
                  then now_top env else next_deadline s) + period)%Q s in
    let s2 := match sensor env with
              | Ok d => set_queue (pushed d (queue s1)) s1
              | Err _ =>
                  {| next_deadline := next_deadline s1; queue := queue s1;
                     log := "Failed to read sensor values" :: log s1;
                     sleeps := sleeps s1 |}
              end in
    (Ret tt,
     if Qgt_bool (next_deadline s2 - now_bottom env) 0
     then {| next_deadline := next_deadline s2; queue := queue s2;
             log := log s2;
             sleeps := (next_deadline s2 - now_bottom env)%Q :: sleeps s2 |}
     else s2).
Proof.
  unfold tick. unfold mbind, M_bind, bind.
  rewrite advance_deadline_spec, read_sensor_spec.
  destruct (sensor env) as [d|e]; simpl.
  - rewrite push_latest_spec, sleep_until_deadline_spec. reflexivity.
  - unfold mret, M_ret, ret. rewrite sleep_until_deadline_spec. reflexivity.
Qed.


Lemma tick_queue (period : Q) (env : TickEnv) (s : Sampler) :
  queue (tick period env s).2 =
    match sensor env with
    | Ok d => pushed d (queue s)
    | Err _ => queue s
    end.
Proof.
  rewrite tick_spec. cbv zeta.
  destruct (sensor env); simpl; by destruct (Qgt_bool _ 0).
Qed.

Lemma tick_log (period : Q) (env : TickEnv) (s : Sampler) :
  log (tick period env s).2 =
    match sensor env with
    | Ok _ => log s
    | Err _ => "Failed to read sensor values" :: log s
    end.
Proof.
  rewrite tick_spec. cbv zeta.
  destruct (sensor env); simpl; by destruct (Qgt_bool _ 0).
Qed.




(** C8.  When the sensor read raises, the iteration catches and logs the
    exception, leaves the queue as it was, and returns; the loop goes on
    with the next iteration and itself returns for every run of
    iterations, so the exception does not leave it. *)
Theorem sensor_failure_skips_push :
  forall (period now now' : Q) (e : exn) (s : Sampler) (rest : list TickEnv),
    let env := {| now_top := now; sensor := Err e; now_bottom := now' |} in
    (tick period env s).1 = Ret tt /\
    queue (tick period env s).2 = queue s /\
    log (tick period env s).2 = "Failed to read sensor values" :: log s /\
    (read_sensor (Err e) s).1 = Ret None /\
    sensor_loop period (env :: rest) s =
      sensor_loop period rest (tick period env s).2 /\
    (sensor_loop period (env :: rest) s).1 = Ret tt.
Proof.
  intros period now now' e s rest. cbv zeta.
  split; [apply tick_returns|].
  split; [by rewrite tick_queue|].
  split; [by rewrite tick_log|].
  split; [by rewrite read_sensor_spec|].
  split; [|apply sensor_loop_returns].
  cbn [sensor_loop]. unfold mbind, M_bind, bind at 1.
  pose proof (tick_returns period
    {| now_top := now; sensor := Err e; now_bottom := now' |} s) as Ht.
  destruct (tick period _ s) as [r s']. simpl in Ht. by subst r.
Qed.

(** ** The hand-off channel *)

Lemma full_one (its : list Sample) :
  full {| maxsize := 1; items := its |} =
    match its with [] => false | _ => true end.
Proof. by destruct its. Qed.




Lemma run_snoc (schedule : list action) (a : action) (c : Channel) :
  run (schedule ++ [a]) c = step a (run schedule c).
Proof. unfold run. by rewrite foldl_app. Qed.




(** The producer's queue operations, run with no [get] of the reader in
    between, are [push_latest]. *)
Lemma push_latest_as_steps (d : Sample) (c : Channel) :
  ch_pc c = PIdle ->
  let c1 := producer_step true d c in
  let c' := match ch_pc c1 with
            | PEvict _ => producer_step true d (producer_step true d c1)
            | _ => producer_step true d c1
            end in
  ch_queue c' = pushed d (ch_queue c) /\ ch_pc c' = PIdle.
Proof.
  intros Hpc. destruct c as [[mx its] pc last got]. simpl in Hpc. subst pc.
  cbv zeta. unfold pushed, producer_step, put_nowait, get_nowait. simpl.
  destruct (full {| maxsize := mx; items := its |}) eqn:Hfull; simpl.
  - destruct its as [|x rest]; simpl.
    + by rewrite Hfull.
    + by destruct (full {| maxsize := mx; items := rest |}).
  - by rewrite Hfull.
Qed.

(** The lost update: the occupant [x] is not seen by [get_nowait], the
    [put_nowait] of [d] fails, and the reader still gets [x], the last
    sample whose push succeeded. *)
Example lost_update_keeps_last_pushed (x d : Sample) :
  let c := run [Produce x; Produce x; Produce d; ProduceUnseen d; Produce d]
               new_channel in
  items (ch_queue c) = [x] /\ ch_last c = Some x /\
  ch_got (step Consume c) = Some x.
Proof. by cbv. Qed.

(** ** The lifecycle controller *)

Ltac unfold_life :=
  unfold start_sampler, start_reader, stop_sampler, stop_reader,
    Process_new, Process_start, Process_is_alive,
    Process_terminate, Process_join, Thread_new, Thread_start,
    Thread_is_alive, Thread_join, mlog_add, set_procs, set_threads,
    set_process, set_reader_thread, set_stop_reader in *;
  unfold_M.

Lemma lookup_snoc_new {A} (l : list A) (x : A) :
  (l ++ [x]) !! length l = Some x.
Proof. rewrite lookup_app_r; [|lia]. by rewrite Nat.sub_diag. Qed.

Lemma insert_snoc_new {A} (l : list A) (x y : A) :
  <[length l := y]> (l ++ [x]) = l ++ [y].
Proof.
  rewrite insert_app_r_alt; [|lia]. by rewrite Nat.sub_diag.
Qed.

(** The manager after the first half of [stop]. *)
Lemma stop_sampler_spec (m : Manager) :
  handles_started m = true ->
  stop_sampler m =
    (Ret tt,
     match _process m with
     | Some pid =>
         {| procs := <[pid := PJoined]> (procs m); threads := threads m;
            update_rate := update_rate m; _queue := _queue m;
            _process := None; _reader_thread := _reader_thread m;
            _stop_reader := _stop_reader m; _buffer := _buffer m;
            mlog := mlog m ++ [("info", "Sensor process stopped")] |}
     | None => m
     end).
Proof.
  unfold handles_started. intros H. apply andb_prop in H as [Hp _].
  destruct m as [ps ts rate q p t sr buf lg]. simpl in *.
  unfold_life. simpl. destruct p as [pid|]; [|done]. simpl.
  destruct (ps !! pid) as [[]|] eqn:Ep; try discriminate; simpl.
  - rewrite list_lookup_insert_eq by (by eapply lookup_lt_Some). simpl.
    by rewrite list_insert_insert_eq.
  - by rewrite Ep.
  - by rewrite Ep.
Qed.

(** The manager after the second half of [stop]. *)
Lemma stop_reader_spec (m : Manager) :
  handles_started m = true ->
  stop_reader m =
    (Ret tt,
     match _reader_thread m with
     | Some tid =>
         {| procs := procs m; threads := <[tid := TDone]> (threads m);
            update_rate := update_rate m; _queue := _queue m;
            _process := _process m; _reader_thread := None;
            _stop_reader := true; _buffer := _buffer m;
            mlog := mlog m ++ [("info", "Reader thread stopped")] |}
     | None => m
     end).
Proof.
  unfold handles_started. intros H. apply andb_prop in H as [_ Ht].
  destruct m as [ps ts rate q p t sr buf lg]. simpl in *.
  unfold_life. simpl. destruct t as [tid|]; [|done]. simpl.
  destruct (ts !! tid) as [[]|] eqn:Et; try discriminate; simpl.
  - done.
  - by rewrite list_insert_id.
Qed.

Lemma start_sampler_spec (m : Manager) :
  start_sampler m =
    (Ret tt,
     if match _process m with
        | Some pid =>
            match procs m !! pid with Some PAlive => true | _ => false end
        | None => false
        end
     then
       {| procs := procs m; threads := threads m;
          update_rate := update_rate m; _queue := _queue m;
          _process := _process m; _reader_thread := _reader_thread m;
          _stop_reader := _stop_reader m; _buffer := _buffer m;
          mlog := mlog m ++ [("warning", "Sensor process already running")] |}
     else
       {| procs := procs m ++ [PAlive]; threads := threads m;
          update_rate := update_rate m; _queue := _queue m;
          _process := Some (length (procs m));
          _reader_thread := _reader_thread m;
          _stop_reader := _stop_reader m; _buffer := _buffer m;
          mlog := mlog m ++ [("info", "Sensor process started")] |}).
Proof.
  destruct m as [ps ts rate q p t sr buf lg]. unfold_life. simpl.
  destruct p as [pid|]; simpl.
  - destruct (ps !! pid) as [[]|]; simpl;
      rewrite ?lookup_snoc_new; simpl; rewrite ?insert_snoc_new; done.
  - rewrite lookup_snoc_new. simpl. by rewrite insert_snoc_new.
Qed.

Lemma start_reader_spec (m : Manager) :
  start_reader m =
    (Ret tt,
     if match _reader_thread m with
        | Some tid =>
            match threads m !! tid with Some TAlive => true | _ => false end
        | None => false
        end
     then
       {| procs := procs m; threads := threads m;
          update_rate := update_rate m; _queue := _queue m;
          _process := _process m; _reader_thread := _reader_thread m;
          _stop_reader := _stop_reader m; _buffer := _buffer m;
          mlog := mlog m ++ [("warning", "Reader thread already running")] |}
     else
       {| procs := procs m; threads := threads m ++ [TAlive];
          update_rate := update_rate m; _queue := _queue m;
          _process := _process m;
          _reader_thread := Some (length (threads m));
          _stop_reader := false; _buffer := _buffer m;
          mlog := mlog m ++ [("info", "Reader thread started")] |}).
Proof.
  destruct m as [ps ts rate q p t sr buf lg]. unfold_life. simpl.
  destruct t as [tid|]; simpl.
  - destruct (ts !! tid) as [[]|]; simpl;
      rewrite ?lookup_snoc_new; simpl; rewrite ?insert_snoc_new; done.
  - rewrite lookup_snoc_new. simpl. by rewrite insert_snoc_new.
Qed.

Lemma start_keeps_handles_started (m : Manager) :
  exists m',
    start m = (Ret tt, m') /\
    (handles_started m = true -> handles_started m' = true).
Proof.
  unfold start. unfold mbind, M_bind, bind.
  rewrite start_sampler_spec.
  match goal with |- context [start_reader ?x] => set (m1 := x) end.
  rewrite start_reader_spec.
  eexists. split; [reflexivity|].
  unfold handles_started. intros H. apply andb_prop in H as [Hp Ht].
  assert (Hp1 : match _process m1 with
                | Some pid =>
                    match procs m1 !! pid with
                    | Some PNew | None => false
                    | Some _ => true
                    end
                | None => true
                end = true).
  { subst m1. destruct (_process m) as [pid|]; simpl.
    - destruct (procs m !! pid) as [[]|] eqn:Ep; simpl;
        rewrite ?Ep, ?lookup_snoc_new; done.
    - by rewrite lookup_snoc_new. }
  assert (Hth : threads m1 = threads m /\ _reader_thread m1 = _reader_thread m).
  { subst m1.
    destruct (_process m) as [pid|]; [destruct (procs m !! pid) as [[]|]|];
      done. }
  destruct Hth as [Hth1 Hth2]. rewrite Hth1, Hth2. clearbody m1.
  destruct (_reader_thread m) as [tid|]; simpl.
  - destruct (threads m !! tid) as [[]|] eqn:Et; simpl;
      rewrite ?Hp1, ?Hth1, ?Et, ?lookup_snoc_new; done.
  - by rewrite Hp1, lookup_snoc_new.
Qed.


Lemma stop_spec (m : Manager) :
  handles_started m = true ->
  exists m',
    stop m = (Ret tt, m') /\
    _process m' = None /\ _reader_thread m' = None /\
    (forall pid, _process m = Some pid -> procs m' !! pid = Some PJoined) /\
    (forall tid, _reader_thread m = Some tid ->
       _stop_reader m' = true /\ threads m' !! tid = Some TDone).
Proof.
  intros H. unfold stop. unfold mbind, M_bind, bind.
  rewrite (stop_sampler_spec m H).
  match goal with |- context [stop_reader ?x] => set (m1 := x) end.
  assert (H1 : handles_started m1 = true).
  { subst m1. unfold handles_started in *.
    apply andb_prop in H as [Hp Ht].
    destruct (_process m) eqn:E; simpl; [done|].
    by rewrite E, Ht. }
  rewrite (stop_reader_spec m1 H1).
  eexists. split; [reflexivity|].
  assert (Hm1 : _process m1 = None /\ threads m1 = threads m /\
                _reader_thread m1 = _reader_thread m /\
                forall pid, _process m = Some pid ->
                            procs m1 !! pid = Some PJoined).
  { subst m1. unfold handles_started in H. apply andb_prop in H as [Hp _].
    destruct (_process m) as [pid|] eqn:E; simpl; [|done].
    repeat split; try done. intros ? [= <-].
    destruct (procs m !! pid) eqn:Ep; [|done].
    apply list_lookup_insert_eq. by eapply lookup_lt_Some. }
  destruct Hm1 as (Hp1 & Hts & Hrt & Hj).
  unfold handles_started in H1. apply andb_prop in H1 as [_ Ht1].
  clearbody m1.
  destruct (_reader_thread m1) as [tid|] eqn:E; simpl.
  - repeat split; try done.
    match goal with Htid : _reader_thread m = Some _ |- _ =>
      rewrite <- Hrt in Htid; injection Htid as <- end.
    destruct (threads m1 !! tid) eqn:Et; [|done].
    apply list_lookup_insert_eq. by eapply lookup_lt_Some.
  - repeat split; try done; congruence.
Qed.

Lemma crash_keeps_handles_started (m : Manager) :
  handles_started m = true -> handles_started (crash m) = true.
Proof.
  unfold crash. destruct (_process m) as [pid|] eqn:Hp; [|done].
  destruct (procs m !! pid) as [[]|] eqn:Ep; try done.
  unfold handles_started. simpl. rewrite Hp, Ep.
  rewrite list_lookup_insert_eq by (by eapply lookup_lt_Some). done.
Qed.

Lemma reachable_handles_started (rate : Z) (m : Manager) :
  reachable rate m -> handles_started m = true.
Proof.
  induction 1 as [|m op m' _ IH Hop]; [done|].
  destruct op; simpl in Hop.
  - destruct (start_keeps_handles_started m) as (m1 & Hs & Hk).
    rewrite Hs in Hop. injection Hop as <-. by apply Hk.
  - destruct (stop_spec m IH) as (m1 & Hs & Hp & Ht & _).
    rewrite Hs in Hop. injection Hop as <-.
    unfold handles_started. by rewrite Hp, Ht.
  - injection Hop as <-. by apply crash_keeps_handles_started.
Qed.




(** ** The actuator service *)

Ltac unfold_kos :=
  unfold async_with_lock, ctl_command, ctl_query, known_ids, Lock_acquire,
    Lock_release, on_backend, ask_backend, emit, set_code, set_details,
    klog in *;
  unfold_M.

Section ActuatorServiceFacts.
Context {S : Type} (ctl : SCSMotorController S).

(** What [ConfigureActuator] does on a service whose lock is free, by the
    answer of the controller. *)
Lemma ConfigureActuator_spec (request : ConfigureActuatorRequest)
    (w : World S) :
  locked w = false ->
  ConfigureActuator ctl request w =
    let id := actuator_id request in
    let config := decode_config request in
    let c := CallConfigure id config in
    match configure_actuator ctl id config (backend w) with
    | (Ok success, s') =>
        (Ret (ActionResponse success),
         {| backend := s'; locked := false; code := code w;
            details := details w;
            trace := trace w ++
              [EvAcquire; EvDecode; EvEnter c; EvExit c] ++
              (if success then []
               else [EvLog "error"
                       ("failed to configure actuator " +:+ pretty id)]) ++
              [EvRelease] |})
    | (Err (RuntimeError msg), s') =>
        (Ret (ActionResponse false),
         {| backend := s'; locked := false;
            code := Some RESOURCE_EXHAUSTED;
            details := Some "another control operation is in progress";
            trace := trace w ++
              [EvAcquire; EvDecode; EvEnter c; EvExit c; EvRelease;
               EvSetCode RESOURCE_EXHAUSTED;
               EvSetDetails "another control operation is in progress"] |})
    | (Err e, s') =>
        let error_msg :=
          "error configuring actuator " +:+ pretty id +:+ ": " +:+ str_exn e in
        (Ret (ActionResponse false),
         {| backend := s'; locked := false; code := Some INTERNAL;
            details := Some error_msg;
            trace := trace w ++
              [EvAcquire; EvDecode; EvEnter c; EvExit c; EvRelease;
               EvLog "error" error_msg; EvSetCode INTERNAL;
               EvSetDetails error_msg] |})
    end.
Proof.
  intros Hfree. destruct w as [s lk cd dt tr]. simpl in Hfree. subst lk.
  unfold ConfigureActuator. unfold_kos. simpl.
  destruct (configure_actuator ctl (actuator_id request)
              (decode_config request) s) as [[success|e] s']; simpl.
  - destruct success; simpl; rewrite <- ?app_assoc; reflexivity.
  - destruct e; simpl; rewrite <- ?app_assoc; reflexivity.
Qed.

(** The same for [CommandActuators]. *)
Lemma CommandActuators_spec (commands : list ActuatorCommand) (w : World S) :
  locked w = false ->
  CommandActuators ctl commands w =
    let servo_commands :=
      servo_commands_of (actuator_ids ctl (backend w)) commands in
    let c := CallSetPositions servo_commands in
    match set_positions ctl servo_commands (backend w) with
    | (Ok _, s') =>
        (Ret CommandActuatorsResponse,
         {| backend := s'; locked := false; code := code w;
            details := details w;
            trace := trace w ++
              [EvAcquire; EvDecode; EvEnter c; EvExit c; EvRelease] |})
    | (Err (RuntimeError msg), s') =>
        (Ret (ActionResponse false),
         {| backend := s'; locked := false;
            code := Some RESOURCE_EXHAUSTED;
            details := Some "Another control operation is in progress.";
            trace := trace w ++
              [EvAcquire; EvDecode; EvEnter c; EvExit c; EvRelease;
               EvSetCode RESOURCE_EXHAUSTED;
               EvSetDetails "Another control operation is in progress."] |})
    | (Err e, s') =>
        (Ret CommandActuatorsResponse,
         {| backend := s'; locked := false; code := Some INTERNAL;
            details := Some (str_exn e);
            trace := trace w ++
              [EvAcquire; EvDecode; EvEnter c; EvExit c; EvRelease;
               EvSetCode INTERNAL; EvSetDetails (str_exn e)] |})
    end.
Proof.
  intros Hfree. destruct w as [s lk cd dt tr]. simpl in Hfree. subst lk.
  unfold CommandActuators. unfold_kos. simpl.
  destruct (set_positions ctl (servo_commands_of (actuator_ids ctl s) commands) s)
    as [[[]|e] s']; simpl.
  - rewrite <- ?app_assoc; reflexivity.
  - destruct e; simpl; rewrite <- ?app_assoc; reflexivity.
Qed.

End ActuatorServiceFacts.

Section ActuatorQueriesFacts.
Context {S : Type} (ctl : SCSMotorController S).

Lemma servo_commands_of_snoc (ids : list Z) (commands : list ActuatorCommand)
    (cmd : ActuatorCommand) :
  servo_commands_of ids (commands ++ [cmd]) =
    if bool_decide (cmd_actuator_id cmd ∈ ids)
    then <[cmd_actuator_id cmd := cmd_position cmd]>
           (servo_commands_of ids commands)
    else servo_commands_of ids commands.
Proof. unfold servo_commands_of. by rewrite foldl_app. Qed.

Lemma servo_commands_of_registered (ids : list Z)
    (commands : list ActuatorCommand) (id : Z) (pos : Q) :
  servo_commands_of ids commands !! id = Some pos ->
  id ∈ ids /\
  {| cmd_actuator_id := id; cmd_position := pos |} ∈ commands.
Proof.
  induction commands as [|cmd commands IH] using rev_ind.
  - unfold servo_commands_of. simpl. by rewrite lookup_empty.
  - rewrite servo_commands_of_snoc. case_bool_decide as Hin.
    + destruct (decide (cmd_actuator_id cmd = id)) as [<-|Hne].
      * rewrite lookup_insert_eq. intros [= <-]. split; [done|].
        apply elem_of_app. right. destruct cmd. simpl. by left.
      * rewrite lookup_insert_ne by done. intros H.
        destruct (IH H) as [? ?]. split; [done|].
        apply elem_of_app. by left.
    + intros H. destruct (IH H) as [? ?]. split; [done|].
      apply elem_of_app. by left.
Qed.

Lemma servo_commands_of_keeps_registered (ids : list Z)
    (commands : list ActuatorCommand) (cmd : ActuatorCommand) :
  cmd ∈ commands -> cmd_actuator_id cmd ∈ ids ->
  is_Some (servo_commands_of ids commands !! cmd_actuator_id cmd).
Proof.
  induction commands as [|cmd' commands IH] using rev_ind.
  - intros H. by apply elem_of_nil in H.
  - intros Hin Hid. rewrite servo_commands_of_snoc.
    apply elem_of_app in Hin as [Hin|Hin].
    + case_bool_decide; [|by apply IH].
      destruct (decide (cmd_actuator_id cmd' = cmd_actuator_id cmd)) as [->|Hne].
      * rewrite lookup_insert_eq. by eexists.
      * rewrite lookup_insert_ne by done. by apply IH.
    + apply list_elem_of_singleton in Hin as ->.
      rewrite bool_decide_eq_true_2 by done.
      rewrite lookup_insert_eq. by eexists.
Qed.

Lemma dump_loop_spec (ids : list Z) (acc : list ParameterDumpEntry)
    (w : World S) :
  dump_loop ctl ids acc w =
    (Ret (acc ++ omap (dumped_entry ctl (backend w)) ids),
     {| backend := backend w; locked := locked w; code := code w;
        details := details w;
        trace := trace w ++ mjoin (dump_events ctl (backend w) <$> ids) |}).
Proof.
  revert acc w. induction ids as [|aid ids IH]; intros acc w.
  - simpl. unfold_M. rewrite !app_nil_r. by destruct w.
  - cbn [dump_loop]. unfold mbind at 1, M_bind at 1, bind at 1.
    unfold known_ids at 1, gets at 1.
    cbn [fmap list_fmap mjoin list_join omap list_omap].
    unfold dumped_entry at 1, dump_events at 1.
    destruct (bool_decide (aid ∈ actuator_ids ctl (backend w))) eqn:Hin.
    + unfold mbind at 1, M_bind at 1, bind at 1.
      unfold try_except at 1. unfold_kos. simpl.
      destruct (read_all_servo_params ctl aid (backend w)) as [pd|e]; simpl.
      * rewrite IH. simpl. rewrite <- !app_assoc. reflexivity.
      * rewrite IH. simpl. rewrite <- !app_assoc. reflexivity.
    + unfold mbind at 1, M_bind at 1, bind at 1. unfold_kos. simpl.
      rewrite IH. simpl. rewrite <- !app_assoc. reflexivity.
Qed.

Lemma ParameterDump_spec (request_ids : list Z) (w : World S) :
  ParameterDump ctl request_ids w =
    let ids := match request_ids with
               | [] => merge_sort Z.le (actuator_ids ctl (backend w))
               | _ => request_ids
               end in
    (Ret (ParameterDumpResponse (omap (dumped_entry ctl (backend w)) ids)),
     {| backend := backend w; locked := locked w; code := code w;
        details := details w;
        trace := trace w ++ EvLog "info" "ParameterDump request" ::
                 mjoin (dump_events ctl (backend w) <$> ids) |}).
Proof.
  unfold ParameterDump, requested_ids.
  unfold try_except, mbind, M_bind, bind.
  destruct request_ids as [|aid rest]; unfold_kos;
    cbn -[dump_loop merge_sort mjoin omap fmap];
    rewrite dump_loop_spec; cbn -[merge_sort mjoin omap fmap];
    rewrite <- !app_assoc; reflexivity.
Qed.

Lemma dumped_entry_registered (s : S) (ids : list Z) (e : ParameterDumpEntry) :
  e ∈ omap (dumped_entry ctl s) ids ->
  pd_actuator_id e ∈ ids /\ pd_actuator_id e ∈ actuator_ids ctl s.
Proof.
  rewrite list_elem_of_omap. intros (aid & Hin & Hd).
  unfold dumped_entry in Hd. case_bool_decide as Hreg; [|done].
  destruct (read_all_servo_params ctl aid s); [|done].
  injection Hd as <-. simpl. done.
Qed.

Lemma dump_events_unregistered (s : S) (ids : list Z) (aid : Z) :
  aid ∈ ids -> aid ∉ actuator_ids ctl s ->
  EvLog "warning" ("actuator " +:+ pretty aid +:+ " not registered")
    ∈ mjoin (dump_events ctl s <$> ids).
Proof.
  intros Hin Hreg. apply list_elem_of_join.
  exists (dump_events ctl s aid). split.
  - unfold dump_events. rewrite bool_decide_eq_false_2 by done. by left.
  - apply list_elem_of_fmap. by exists aid.
Qed.

End ActuatorQueriesFacts.

(** When the controller raises [RuntimeError], both mutating calls set
    [RESOURCE_EXHAUSTED], release the lock, and return an [ActionResponse]
    with [success=False] without raising. *)
Lemma busy_is_resource_exhausted {S : Type} (ctl : SCSMotorController S)
    (s s' : S) (msg : string) :
  (forall request : ConfigureActuatorRequest,
     configure_actuator ctl (actuator_id request) (decode_config request) s
       = (Err (RuntimeError msg), s') ->
     (ConfigureActuator ctl request (fresh s)).1 = Ret (ActionResponse false) /\
     code (ConfigureActuator ctl request (fresh s)).2
       = Some RESOURCE_EXHAUSTED /\
     locked (ConfigureActuator ctl request (fresh s)).2 = false) /\
  (forall commands : list ActuatorCommand,
     set_positions ctl (servo_commands_of (actuator_ids ctl s) commands) s
       = (Err (RuntimeError msg), s') ->
     (CommandActuators ctl commands (fresh s)).1 = Ret (ActionResponse false) /\
     code (CommandActuators ctl commands (fresh s)).2
       = Some RESOURCE_EXHAUSTED /\
     locked (CommandActuators ctl commands (fresh s)).2 = false).
Proof.
  split.
  - intros request H. rewrite ConfigureActuator_spec by done.
    cbv zeta. simpl. by rewrite H.
  - intros commands H. rewrite CommandActuators_spec by done.
    cbv zeta. simpl. by rewrite H.
Qed.

(** C5.  On the bench controller, busy: [ConfigureActuator] answers
    [RESOURCE_EXHAUSTED] with its own message class, the one it returns on
    success.  [CommandActuators] answers [RESOURCE_EXHAUSTED] too, but the
    object it returns is a [common_pb2.ActionResponse], while on success
    and on every other exception it returns an
    [actuator_pb2.CommandActuatorsResponse]. *)
Theorem CommandActuators_busy_response_class :
  let request :=
    {| actuator_id := 1; torque_enabled := Some true; zero_position := None;
       kp := None; kd := None; ki := None; max_torque := None;
       acceleration := None; new_actuator_id := None |} in
  let commands := [{| cmd_actuator_id := 1; cmd_position := 1%Q |}] in
  ((ConfigureActuator bench_controller request (fresh bench_one_busy)).1
     = Ret (ActionResponse false) /\
   code (ConfigureActuator bench_controller request (fresh bench_one_busy)).2
     = Some RESOURCE_EXHAUSTED /\
   (ConfigureActuator bench_controller request (fresh bench_one)).1
     = Ret (ActionResponse true)) /\
  ((CommandActuators bench_controller commands (fresh bench_one_busy)).1
     = Ret (ActionResponse false) /\
   code (CommandActuators bench_controller commands (fresh bench_one_busy)).2
     = Some RESOURCE_EXHAUSTED /\
   (CommandActuators bench_controller commands (fresh bench_one)).1
     = Ret CommandActuatorsResponse /\
   message_class (ActionResponse false) = "common_pb2.ActionResponse" /\
   message_class CommandActuatorsResponse
     = "actuator_pb2.CommandActuatorsResponse").
Proof.
  cbv zeta. rewrite !ConfigureActuator_spec, !CommandActuators_spec by done.
  repeat split.
Qed.



(** A registered actuator for which the controller has no state is
    reported offline at zero, with its faults. *)
Lemma GetActuatorsState_no_state {S : Type} (ctl : SCSMotorController S)
    (s : S) (id : Z) (torque : bool) (fi : option fault_info) :
  id ∈ actuator_ids ctl s ->
  get_torque_enabled ctl id s = Ok torque ->
  get_state ctl id s = Ok None ->
  get_faults ctl id s = Ok fi ->
  (GetActuatorsState ctl [id] (fresh s)).1 =
    Ret (GetActuatorsStateResponse
           [ {| st_actuator_id := id; st_position := 0; st_velocity := 0;
                st_online := false; st_faults := faults_of fi |} ]).
Proof.
  intros Hin Ht Hs Hf.
  unfold GetActuatorsState, requested_ids, state_loop.
  unfold try_except. unfold_kos. simpl.
  rewrite (bool_decide_eq_true_2 _ Hin). simpl.
  rewrite Ht. simpl. rewrite Hs. simpl. by rewrite Hf.
Qed.

(** C7, as stated, fails for [ParameterDump]: with only actuator 1
    registered, a dump of the ids [1; 99] returns the entry of 1 alone;
    the response has no item for 99. *)
Lemma ParameterDump_omits_unregistered :
  (ParameterDump bench_controller [1; 99] (fresh bench_one)).1 =
    Ret (ParameterDumpResponse
           [ {| pd_actuator_id := 1;
                pd_parameters := {[ "id" := inject_Z 1 ]} |} ]) /\
  (99 ∉ bench_ids bench_one).
Proof.
  split.
  - by rewrite ParameterDump_spec.
  - simpl. intros H. apply list_elem_of_singleton in H. discriminate.
Qed.

(** C7, amended.  An id that the controller does not know never fails the
    call.  [CommandActuators] hands [set_positions] the commands of the
    registered targets only: an unknown id has no key in the dictionary, a
    command for a registered id has one, and every pair in it is a command
    of the request; when [set_positions] returns, so does the call, with no
    error code.  [ParameterDump] always answers without an error code; an
    unknown id has no entry in the response, and a requested unknown id is
    logged as a warning "actuator <id> not registered". *)
Theorem unregistered_ids_are_skipped {S : Type} (ctl : SCSMotorController S)
    (s : S) :
  (forall commands : list ActuatorCommand,
     let servo := servo_commands_of (actuator_ids ctl s) commands in
     let out := CommandActuators ctl commands (fresh s) in
     (forall id, id ∉ actuator_ids ctl s -> servo !! id = None) /\
     (forall cmd, cmd ∈ commands ->
        cmd_actuator_id cmd ∈ actuator_ids ctl s ->
        is_Some (servo !! cmd_actuator_id cmd)) /\
     (forall id pos, servo !! id = Some pos ->
        {| cmd_actuator_id := id; cmd_position := pos |} ∈ commands) /\
     EvEnter (CallSetPositions servo) ∈ trace out.2 /\
     (forall c, EvEnter c ∈ trace out.2 -> c = CallSetPositions servo) /\
     backend out.2 = (set_positions ctl servo s).2 /\
     (forall s', set_positions ctl servo s = (Ok tt, s') ->
        out.1 = Ret CommandActuatorsResponse /\ code out.2 = None)) /\
  (forall request_ids : list Z,
     let out := ParameterDump ctl request_ids (fresh s) in
     exists entries,
       out.1 = Ret (ParameterDumpResponse entries) /\
       code out.2 = None /\
       forall aid, aid ∉ actuator_ids ctl s ->
         (aid ∉ (pd_actuator_id <$> entries)) /\
         (aid ∈ request_ids ->
          EvLog "warning" ("actuator " +:+ pretty aid +:+ " not registered")
            ∈ trace out.2)).
Proof.
  split.
  - intros commands. cbv zeta.
    rewrite CommandActuators_spec by done. cbv zeta.
    cbn [backend fresh trace code details].
    set (servo := servo_commands_of (actuator_ids ctl s) commands).
    assert (Htrace : forall post,
      (forall c, EvEnter c ∈ post -> False) ->
      EvEnter (CallSetPositions servo) ∈
        [EvAcquire; EvDecode; EvEnter (CallSetPositions servo);
         EvExit (CallSetPositions servo); EvRelease] ++ post /\
      forall c, EvEnter c ∈
        [EvAcquire; EvDecode; EvEnter (CallSetPositions servo);
         EvExit (CallSetPositions servo); EvRelease] ++ post ->
        c = CallSetPositions servo).
    { intros post Hpost. split.
      - simpl. do 2 right. by left.
      - simpl. intros c Hc.
        repeat (apply elem_of_cons in Hc as [Hc|Hc];
                [try discriminate; by injection Hc|]).
        by destruct (Hpost c). }
    split; [|split; [|split]].
    + intros id Hid. destruct (servo !! id) as [pos|] eqn:E; [|done].
      by apply servo_commands_of_registered in E as [? _].
    + intros cmd Hin Hreg. by apply servo_commands_of_keeps_registered.
    + intros id pos E. by apply servo_commands_of_registered in E as [_ ?].
    + destruct (set_positions ctl servo s) as [[[]|e] s1]; simpl.
      * destruct (Htrace []) as [H1 H2].
        { intros c Hc. by apply elem_of_nil in Hc. }
        rewrite app_nil_r in H1, H2.
        split; [done|]. split; [done|]. split; [done|].
        intros s' [= <-]. done.
      * assert (Hquiet : forall post : list event,
          post = [EvSetCode RESOURCE_EXHAUSTED;
                  EvSetDetails "Another control operation is in progress."] \/
          post = [EvSetCode INTERNAL; EvSetDetails (str_exn e)] ->
          forall c, EvEnter c ∈ post -> False).
        { intros post [-> | ->] c Hc;
            repeat (apply elem_of_cons in Hc as [Hc|Hc]; [discriminate|]);
            by apply elem_of_nil in Hc. }
        destruct e; simpl;
          (split; [|split; [|split; [done|intros s' [=]]]]);
          try (eapply (proj1 (Htrace _ (Hquiet _ (or_intror eq_refl)))));
          try (eapply (proj2 (Htrace _ (Hquiet _ (or_intror eq_refl)))));
          try (eapply (proj1 (Htrace _ (Hquiet _ (or_introl eq_refl)))));
          try (eapply (proj2 (Htrace _ (Hquiet _ (or_introl eq_refl))))).
  - intros request_ids. cbv zeta. rewrite ParameterDump_spec. cbv zeta.
    cbn [fst snd backend fresh trace code details].
    eexists. split; [reflexivity|]. split; [reflexivity|].
    intros aid Hreg. split.
    + intros Hin. apply list_elem_of_fmap in Hin as (e & -> & He).
      apply dumped_entry_registered in He as [_ He]. done.
    + intros Hin. destruct request_ids as [|r rest].
      { by apply elem_of_nil in Hin. }
      apply elem_of_cons. right.
      exact (dump_events_unregistered ctl s (r :: rest) aid Hin Hreg).
Qed.

(** ** The IMU service *)

Lemma call_method_missing (name : string) (m : Manager) :
  bool_decide (name ∈ BNO055Manager_fields) = false ->
  assoc name BNO055Manager_dict = None ->
  call_method name m =
    (Raise (AttributeError
              ("'BNO055Manager' object has no attribute '" +:+ name +:+ "'")),
     m).
Proof.
  intros Hf Hd. unfold call_method. by rewrite Hf, Hd.
Qed.

(** C10.  Whatever the state of the manager and of the call, [GetEuler]
    and [GetAdvancedValues] return the response that carries the error
    and set the code [INTERNAL]: the class of the manager defines neither
    [get_euler] nor [get_advanced_values], the look-up raises
    [AttributeError], and the last [except] clause handles it.  The manager
    is left as it was. *)
Theorem missing_imu_methods_give_internal_error :
  (assoc "get_euler" BNO055Manager_dict = None /\
   assoc "get_advanced_values" BNO055Manager_dict = None) /\
  forall w : World Manager,
    let no_euler := "'BNO055Manager' object has no attribute 'get_euler'" in
    let no_advanced :=
      "'BNO055Manager' object has no attribute 'get_advanced_values'" in
    GetEuler w =
      (Ret (EulerAnglesResponse None (Some no_euler)),
       {| backend := backend w; locked := locked w; code := Some INTERNAL;
          details := Some no_euler;
          trace := trace w ++ [EvSetCode INTERNAL; EvSetDetails no_euler] |}) /\
    GetAdvancedValues w =
      (Ret (IMUAdvancedValuesResponse None (Some no_advanced)),
       {| backend := backend w; locked := locked w; code := Some INTERNAL;
          details := Some no_advanced;
          trace := trace w ++
                   [EvSetCode INTERNAL; EvSetDetails no_advanced] |}).
Proof.
  split; [by split|].
  intros w. cbv zeta. split.
  - unfold GetEuler, on_imu, imu_except, try_except.
    unfold mbind at 1, M_bind at 1, bind at 1.
    rewrite call_method_missing by reflexivity.
    unfold_kos. simpl. by rewrite <- app_assoc.
  - unfold GetAdvancedValues, on_imu, imu_except, try_except.
    unfold mbind at 1, M_bind at 1, bind at 1.
    rewrite call_method_missing by reflexivity.
    unfold_kos. simpl. by rewrite <- app_assoc.
Qed.

(** By contrast [GetQuaternion], whose method the manager has, answers with
    the quaternion of the buffer. *)
Example GetQuaternion_answers :
  (GetQuaternion (fresh (BNO055Manager_init 100))).1 =
    Ret (QuaternionResponse (Some (0, 0, 0, 0)%Q) None).
Proof. reflexivity. Qed.

(** ** The command lock *)

Lemma closes_not_bracketed (r : list event) :
  closes r = true -> bracketed r = false.
Proof. by destruct r as [|[] r]. Qed.

Lemma quiet_not_closes (r : list event) : quiet r = true -> closes r = false.
Proof.
  induction r as [|e r IH]; [done|]. simpl. intros H.
  apply andb_prop in H as [He Hr]. destruct e; try discriminate; by apply IH.
Qed.

Lemma quiet_not_bracketed (r : list event) :
  quiet r = true -> bracketed r = false.
Proof. by destruct r as [|[] r]. Qed.

Lemma closes_cons (e : event) (rest : list event) :
  closes (e :: rest) = true ->
  (e = EvRelease /\ quiet rest = true) \/
  (is_lock_event e = false /\ closes rest = true).
Proof. destruct e; simpl; intros H; try discriminate; auto. Qed.

Lemma quiet_cons (e : event) (rest : list event) :
  quiet (e :: rest) = true ->
  is_lock_event e = false /\ is_effect e = false /\ quiet rest = true.
Proof.
  simpl. intros H. apply andb_prop in H as [He Hr].
  apply andb_prop in He as [H1 H2].
  by rewrite negb_true_iff in H1, H2.
Qed.

Lemma effects_snoc (t : list (nat * event)) (i : nat) (e : event) :
  effects (t ++ [(i, e)]) =
    if is_effect e then effects t ++ [i] else effects t.
Proof.
  unfold effects. rewrite filter_app, fmap_app.
  rewrite filter_cons, filter_nil. simpl.
  destruct (is_effect e) eqn:He.
  - by rewrite decide_True.
  - rewrite decide_False by done. simpl. by rewrite app_nil_r.
Qed.

Lemma blocks_snoc (l : list nat) (i : nat) :
  blocks l -> i ∉ l \/ last l = Some i -> blocks (l ++ [i]).
Proof.
  intros Hb Hi l1 j l2 Heq Hj.
  destruct l2 as [|x l2 _] using rev_ind.
  - apply app_inj_tail in Heq as [<- <-].
    destruct Hi as [Hi|Hi]; [by destruct Hi|done].
  - rewrite app_comm_cons, app_assoc in Heq.
    apply app_inj_tail in Heq as [-> _].
    by apply (Hb l1 j l2).
Qed.

Lemma blocks_not_interleaved (l : list nat) : blocks l -> ~ interleaved l.
Proof.
  intros Hb (i & j & l1 & l2 & l3 & l4 & Hne & Heq).
  revert l4 Heq. induction l3 as [|x l3 IH] using rev_ind; intros l4 Heq.
  - simpl in Heq.
    assert (Hl : last (l1 ++ i :: l2 ++ [j]) = Some i).
    { apply (Hb _ i l4).
      - rewrite Heq. rewrite <- !app_assoc. simpl. by rewrite <- app_assoc.
      - apply elem_of_app. right. by left. }
    rewrite app_comm_cons, app_assoc, last_snoc in Hl. congruence.
  - assert (Hl : last (l1 ++ i :: l2 ++ j :: l3 ++ [x]) = Some i).
    { apply (Hb _ i l4).
      - rewrite Heq. rewrite <- !app_assoc. simpl.
        rewrite <- !app_assoc. simpl. by rewrite <- !app_assoc.
      - apply elem_of_app. right. by left. }
    assert (Hx : x = i).
    { replace (l1 ++ i :: l2 ++ j :: l3 ++ [x])
        with ((l1 ++ i :: l2 ++ j :: l3) ++ [x]) in Hl.
      - rewrite last_snoc in Hl. congruence.
      - rewrite <- !app_assoc. simpl. rewrite <- !app_assoc. done. }
    subst x. apply (IH (i :: l4)).
    rewrite Heq. rewrite <- !app_assoc. done.
Qed.

Lemma sys_inv_init (calls : list (list event)) :
  Forall (fun t => bracketed t = true) calls -> sys_inv (init_system calls).
Proof.
  intros Hall. rewrite Forall_lookup in Hall.
  unfold sys_inv, init_system. simpl. repeat split.
  - intros i r Hi. left. by eapply Hall.
  - intros i r Hi Hc. apply closes_not_bracketed in Hc.
    rewrite (Hall i r Hi) in Hc. discriminate.
  - intros i j ri rj Hi _ Hc _. apply closes_not_bracketed in Hc.
    rewrite (Hall i ri Hi) in Hc. discriminate.
  - intros i r _ _ H. by apply elem_of_nil in H.
  - intros i r _ _. left. intros H. by apply elem_of_nil in H.
  - intros l1 i l2 Heq. by destruct l1.
Qed.

Lemma sys_inv_acquire (s : System) (i : nat) (rest : list event) :
  sys_inv s ->
  sys_calls s !! i = Some (EvAcquire :: rest) ->
  sys_locked s = false ->
  sys_inv {| sys_locked := true; sys_calls := <[i := rest]> (sys_calls s);
             sys_trace := sys_trace s ++ [(i, EvAcquire)] |}.
Proof.
  intros (I1 & I2 & I3 & I4 & I5 & I6) Hi Hfree.
  assert (Hrest : closes rest = true).
  { destruct (I1 i _ Hi) as [H|[H|H]]; [done|discriminate|discriminate]. }
  assert (Hnone : forall j r, sys_calls s !! j = Some r -> closes r = false).
  { intros j r Hj. destruct (closes r) eqn:E; [|done].
    rewrite (I2 j r Hj E) in Hfree. discriminate. }
  unfold sys_inv. simpl. rewrite effects_snoc. simpl.
  repeat split.
  - intros k r Hk. apply list_lookup_insert_Some in Hk as [(_ & <- & _)|[_ Hk]].
    + by right; left.
    + by eapply I1.
  - intros k j rk rj Hk Hj Hck Hcj.
    apply list_lookup_insert_Some in Hk as [(<- & <- & _)|[Hne Hk]];
      apply list_lookup_insert_Some in Hj as [(<- & <- & _)|[Hne' Hj]];
      try done.
    + rewrite (Hnone _ _ Hj) in Hcj. discriminate.
    + rewrite (Hnone _ _ Hk) in Hck. discriminate.
    + rewrite (Hnone _ _ Hk) in Hck. discriminate.
  - intros k r Hk Hb.
    apply list_lookup_insert_Some in Hk as [(_ & <- & _)|[_ Hk]].
    + rewrite (closes_not_bracketed _ Hrest) in Hb. discriminate.
    + by eapply I4.
  - intros k r Hk Hc.
    apply list_lookup_insert_Some in Hk as [(<- & <- & _)|[_ Hk]].
    + left. by eapply I4.
    + rewrite (Hnone _ _ Hk) in Hc. discriminate.
  - exact I6.
Qed.

Lemma sys_inv_release (s : System) (i : nat) (rest : list event) :
  sys_inv s ->
  sys_calls s !! i = Some (EvRelease :: rest) ->
  sys_locked s = true /\
  sys_inv {| sys_locked := false; sys_calls := <[i := rest]> (sys_calls s);
             sys_trace := sys_trace s ++ [(i, EvRelease)] |}.
Proof.
  intros (I1 & I2 & I3 & I4 & I5 & I6) Hi.
  assert (Hr : closes (EvRelease :: rest) = true /\ quiet rest = true).
  { destruct (I1 i _ Hi) as [H|[H|H]]; [discriminate| |discriminate].
    split; [done|]. exact H. }
  destruct Hr as [Hc Hq].
  split; [by eapply I2|].
  assert (Hnone : forall j r,
    <[i := rest]> (sys_calls s) !! j = Some r -> closes r = false).
  { intros j r Hj.
    apply list_lookup_insert_Some in Hj as [(_ & <- & _)|[Hne Hj]].
    - by apply quiet_not_closes.
    - destruct (closes r) eqn:E; [|done].
      destruct Hne. by eapply I3. }
  unfold sys_inv. simpl. rewrite effects_snoc. simpl.
  repeat split.
  - intros k r Hk. apply list_lookup_insert_Some in Hk as [(_ & <- & _)|[_ Hk]].
    + by right; right.
    + by eapply I1.
  - intros k r Hk Hck. rewrite (Hnone _ _ Hk) in Hck. discriminate.
  - intros k j rk rj Hk _ Hck _. rewrite (Hnone _ _ Hk) in Hck. discriminate.
  - intros k r Hk Hb.
    apply list_lookup_insert_Some in Hk as [(_ & <- & _)|[_ Hk]].
    + rewrite (quiet_not_bracketed _ Hq) in Hb. discriminate.
    + by eapply I4.
  - intros k r Hk Hck. rewrite (Hnone _ _ Hk) in Hck. discriminate.
  - exact I6.
Qed.

Lemma sys_inv_other (s : System) (i : nat) (e : event) (rest : list event) :
  sys_inv s ->
  sys_calls s !! i = Some (e :: rest) ->
  is_lock_event e = false ->
  sys_inv {| sys_locked := sys_locked s;
             sys_calls := <[i := rest]> (sys_calls s);
             sys_trace := sys_trace s ++ [(i, e)] |}.
Proof.
  intros (I1 & I2 & I3 & I4 & I5 & I6) Hi He.
  assert (Hcase :
    (closes (e :: rest) = true /\ closes rest = true) \/
    (quiet (e :: rest) = true /\ quiet rest = true /\ is_effect e = false)).
  { destruct (I1 i _ Hi) as [H|[H|H]].
    - destruct e; discriminate.
    - left. split; [done|].
      apply closes_cons in H as [[-> _]|[_ H]]; [discriminate|done].
    - right. split; [done|]. by apply quiet_cons in H as (_ & ? & ?). }
  assert (Hsame : forall k r,
    <[i := rest]> (sys_calls s) !! k = Some r ->
    exists r0, sys_calls s !! k = Some r0 /\
      closes r0 = closes r /\ bracketed r0 = bracketed r).
  { intros k r Hk.
    apply list_lookup_insert_Some in Hk as [(<- & <- & _)|[_ Hk]].
    - exists (e :: rest). split; [done|].
      destruct Hcase as [[Hc Hr]|(Hq & Hr & _)].
      + rewrite Hc, Hr. split; [done|].
        by rewrite !closes_not_bracketed.
      + by rewrite !quiet_not_closes, !quiet_not_bracketed.
    - by exists r. }
  unfold sys_inv. simpl. rewrite effects_snoc.
  split; [|split; [|split; [|split; [|split]]]].
  - intros k r Hk. apply list_lookup_insert_Some in Hk as [(_ & <- & _)|[_ Hk]].
    + destruct Hcase as [[_ Hr]|(_ & Hr & _)]; auto.
    + by eapply I1.
  - intros k r Hk Hc. destruct (Hsame k r Hk) as (r0 & Hk0 & E & _).
    rewrite <- E in Hc. by eapply I2.
  - intros k j rk rj Hk Hj Hck Hcj.
    destruct (Hsame k rk Hk) as (rk0 & Hk0 & Ek & _).
    destruct (Hsame j rj Hj) as (rj0 & Hj0 & Ej & _).
    rewrite <- Ek in Hck. rewrite <- Ej in Hcj. by eapply I3.
  - intros k r Hk Hb. destruct (Hsame k r Hk) as (r0 & Hk0 & _ & E).
    rewrite <- E in Hb. pose proof (I4 k r0 Hk0 Hb) as Hnot.
    destruct (is_effect e) eqn:Heff; [|done].
    intros Hin. apply elem_of_app in Hin as [Hin|Hin]; [done|].
    apply list_elem_of_singleton in Hin as ->.
    rewrite Hi in Hk0. injection Hk0 as <-.
    destruct Hcase as [[Hc _]|(_ & _ & Hne)]; [|congruence].
    rewrite (closes_not_bracketed _ Hc) in Hb. discriminate.
  - intros k r Hk Hc. destruct (Hsame k r Hk) as (r0 & Hk0 & E & _).
    rewrite <- E in Hc.
    destruct (is_effect e) eqn:Heff; [|by eapply I5].
    destruct Hcase as [[Hci _]|(_ & _ & Hne)]; [|discriminate].
    assert (k = i) as -> by (by eapply I3).
    right. by rewrite last_snoc.
  - destruct (is_effect e) eqn:Heff; [|done].
    destruct Hcase as [[Hci _]|(_ & _ & Hne)]; [|discriminate].
    apply blocks_snoc; [done|]. by eapply I5.
Qed.

Lemma sys_inv_step (i : nat) (s : System) : sys_inv s -> sys_inv (sys_step i s).
Proof.
  intros Hinv. unfold sys_step.
  destruct (sys_calls s !! i) as [[|e rest]|] eqn:Hi; [done| |done].
  destruct e;
    try (by apply (sys_inv_other s i _ rest Hinv Hi)).
  - destruct (sys_locked s) eqn:Hl; [done|]. by apply sys_inv_acquire.
  - destruct (sys_inv_release s i rest Hinv Hi) as [-> H]. exact H.
Qed.

Lemma sys_inv_run (schedule : list nat) (s : System) :
  sys_inv s -> sys_inv (sys_run schedule s).
Proof.
  revert s. induction schedule as [|i schedule IH]; intros s Hs; [done|].
  simpl. apply IH. by apply sys_inv_step.
Qed.

Lemma quiet_app (t1 t2 : list event) :
  quiet (t1 ++ t2) = quiet t1 && quiet t2.
Proof. unfold quiet. apply forallb_app. Qed.

Section CommandLockFacts.
Context {S : Type} (ctl : SCSMotorController S).

(** Everything a mutating call does: the lock first, then the decoding
    and the controller call, then the release, then nothing that touches
    the lock or the controller. *)
Lemma mutating_call_shape (t : list event) :
  mutating_call ctl t ->
  exists c logged post,
    t = [EvAcquire; EvDecode; EvEnter c; EvExit c] ++ logged ++
        EvRelease :: post /\
    quiet (logged ++ post) = true.
Proof.
  intros (s & [(request & ->)|(commands & ->)]).
  - rewrite ConfigureActuator_spec by done. cbv zeta. simpl.
    destruct (configure_actuator ctl (actuator_id request)
                (decode_config request) s) as [[[]|e] s']; simpl.
    + by eexists _, [], [].
    + by eexists _, [_], [].
    + destruct e; simpl; by eexists _, [], _.
  - rewrite CommandActuators_spec by done. cbv zeta. simpl.
    destruct (set_positions ctl
                (servo_commands_of (actuator_ids ctl s) commands) s)
      as [[[]|e] s']; simpl.
    + by eexists _, [], [].
    + destruct e; simpl; by eexists _, [], _.
Qed.

Lemma closes_quiet_release (logged post : list event) :
  quiet (logged ++ post) = true -> closes (logged ++ EvRelease :: post) = true.
Proof.
  induction logged as [|e logged IH]; simpl.
  - done.
  - intros H. apply andb_prop in H as [He Hr].
    apply andb_prop in He as [H1 H2]. rewrite negb_true_iff in H1, H2.
    destruct e; try discriminate; by apply IH.
Qed.

Lemma count_event_quiet (p : event -> bool) (t : list event) :
  (forall e, p e = true -> is_lock_event e = true) ->
  quiet t = true -> count_event p t = 0%nat.
Proof.
  intros Hp. unfold count_event. induction t as [|e t IH]; [done|].
  intros H. apply quiet_cons in H as (He & _ & Ht).
  rewrite filter_cons. destruct (decide (p e = true)) as [Hpe|Hpe].
  - apply Hp in Hpe. congruence.
  - by apply IH.
Qed.

Lemma count_event_cons (p : event -> bool) (e : event) (t : list event) :
  count_event p (e :: t) =
    ((if p e then 1 else 0) + count_event p t)%nat.
Proof.
  unfold count_event. rewrite filter_cons.
  destruct (p e); [by rewrite decide_True|by rewrite decide_False].
Qed.

Lemma count_event_app (p : event -> bool) (t1 t2 : list event) :
  count_event p (t1 ++ t2) = (count_event p t1 + count_event p t2)%nat.
Proof. unfold count_event. by rewrite filter_app, length_app. Qed.

Lemma mutating_call_bracketed (t : list event) :
  mutating_call ctl t ->
  bracketed t = true /\
  count_event is_acquire t = 1%nat /\ count_event is_release t = 1%nat.
Proof.
  intros H. destruct (mutating_call_shape t H) as (c & logged & post & -> & Hq).
  rewrite quiet_app in Hq. apply andb_prop in Hq as [Hl Hp].
  split; [|split].
  - simpl. apply closes_quiet_release. by rewrite quiet_app, Hl, Hp.
  - repeat (rewrite count_event_app || rewrite count_event_cons).
    rewrite (count_event_quiet is_acquire logged) by (done || by intros []).
    rewrite (count_event_quiet is_acquire post) by (done || by intros []).
    done.
  - repeat (rewrite count_event_app || rewrite count_event_cons).
    rewrite (count_event_quiet is_release logged) by (done || by intros []).
    rewrite (count_event_quiet is_release post) by (done || by intros []).
    done.
Qed.

Lemma dump_events_quiet (s : S) (ids : list Z) :
  quiet (mjoin (dump_events ctl s <$> ids)) = true.
Proof.
  induction ids as [|aid ids IH]; [done|].
  cbn [fmap list_fmap mjoin list_join]. rewrite quiet_app.
  apply andb_true_intro. split; [|exact IH].
  unfold dump_events. case_bool_decide; [|done].
  by destruct (read_all_servo_params ctl aid s).
Qed.

Lemma state_loop_quiet (ids : list Z) (acc : list ActuatorStateResponse)
    (w : World S) :
  exists o w' t,
    state_loop ctl ids acc w = (o, w') /\
    o <> Hang /\
    trace w' = trace w ++ t /\ quiet t = true /\ locked w' = locked w.
Proof.
  revert acc w. induction ids as [|id ids IH]; intros acc w.
  - exists (Ret acc), w, []. simpl. by rewrite app_nil_r.
  - cbn [state_loop]. unfold_kos. simpl.
    destruct (bool_decide (id ∈ actuator_ids ctl (backend w))).
    + destruct (get_torque_enabled ctl id (backend w)) as [torque|e]; simpl.
      2: { eexists _, _, [EvQuery "get_torque_enabled" id].
           by repeat split. }
      destruct (get_state ctl id (backend w)) as [sd|e]; simpl.
      2: { eexists _, _,
             [EvQuery "get_torque_enabled" id; EvQuery "get_state" id].
           split; [reflexivity|]. simpl. rewrite <- app_assoc.
           by repeat split. }
      destruct (get_faults ctl id (backend w)) as [fi|e]; simpl.
      2: { eexists _, _,
             [EvQuery "get_torque_enabled" id; EvQuery "get_state" id;
              EvQuery "get_faults" id].
           split; [reflexivity|]. simpl. rewrite <- !app_assoc.
           by repeat split. }
      match goal with |- context [state_loop ctl ids ?a ?w1] =>
        destruct (IH a w1) as (o & w' & t & -> & Ho & Ht & Hq & Hl) end.
      exists o, w',
        ([EvQuery "get_torque_enabled" id; EvQuery "get_state" id;
          EvQuery "get_faults" id] ++ t).
      split; [reflexivity|]. split; [exact Ho|].
      split; [rewrite Ht; cbn [trace]; by rewrite <- !app_assoc|].
      split; [exact Hq|exact Hl].
    + apply IH.
Qed.

(** The queries run to their response whatever the state of the lock, and
    neither take nor release it. *)
Lemma GetActuatorsState_leaves_lock_alone (request_ids : list Z)
    (w : World S) :
  exists r w' t,
    GetActuatorsState ctl request_ids w = (Ret r, w') /\
    trace w' = trace w ++ t /\ quiet t = true /\ locked w' = locked w.
Proof.
  unfold GetActuatorsState, try_except.
  unfold mbind at 1, M_bind at 1, bind at 1.
  assert (Hids : exists ids, requested_ids ctl request_ids w = (Ret ids, w)).
  { unfold requested_ids. destruct request_ids; unfold_kos; by eexists. }
  destruct Hids as [ids ->].
  unfold mbind at 1, M_bind at 1, bind at 1.
  destruct (state_loop_quiet ids [] w) as (o & w1 & t & -> & Ho & Ht & Hq & Hl).
  destruct o as [states|e|]; [| |done].
  - unfold_M. by eexists _, w1, t.
  - unfold_kos. cbn [fst snd]. eexists _, _, (t ++ [_; _]).
    split; [reflexivity|]. cbn [trace locked]. rewrite Ht, <- !app_assoc.
    split; [reflexivity|]. split; [|exact Hl].
    by rewrite quiet_app, Hq.
Qed.

Lemma ParameterDump_leaves_lock_alone (request_ids : list Z) (w : World S) :
  exists r w' t,
    ParameterDump ctl request_ids w = (Ret r, w') /\
    trace w' = trace w ++ t /\ quiet t = true /\ locked w' = locked w.
Proof.
  rewrite ParameterDump_spec. cbv zeta.
  eexists _, _, _. split; [reflexivity|]. cbn [trace locked].
  split; [reflexivity|]. split; [|reflexivity].
  simpl. apply dump_events_quiet.
Qed.

End CommandLockFacts.

Lemma mutating_calls_return {S : Type} (ctl : SCSMotorController S) (s : S)
    (request : ConfigureActuatorRequest) (commands : list ActuatorCommand) :
  (exists r w',
     ConfigureActuator ctl request (fresh s) = (Ret r, w') /\
     locked w' = false) /\
  (exists r w',
     CommandActuators ctl commands (fresh s) = (Ret r, w') /\
     locked w' = false).
Proof.
  split.
  - rewrite ConfigureActuator_spec by done. cbv zeta.
    destruct (configure_actuator ctl (actuator_id request)
                (decode_config request) (backend (fresh s)))
      as [[success|e] s']; [by eexists _, _|].
    destruct e; by eexists _, _.
  - rewrite CommandActuators_spec by done. cbv zeta.
    destruct (set_positions ctl
                (servo_commands_of (actuator_ids ctl (backend (fresh s)))
                   commands) (backend (fresh s)))
      as [[[]|e] s']; [by eexists _, _|].
    destruct e; by eexists _, _.
Qed.

(** C4.  Whatever the controller answers or raises, a [ConfigureActuator]
    or [CommandActuators] call takes the lock first, decodes the request
    and calls the controller under it, releases it exactly once, touches
    neither the lock nor the controller afterwards, and returns with the
    lock free.  [GetActuatorsState] and [ParameterDump] answer whatever the
    state of the lock and neither take nor release it.  When any number of
    mutating calls run on one service, under every schedule, their effects
    do not interleave: no call decodes or acts on the controller between
    two effects of another call. *)
Theorem command_lock_serialises_mutations {S : Type}
    (ctl : SCSMotorController S) :
  (forall t : list event,
     mutating_call ctl t ->
     (exists c logged post,
        t = [EvAcquire; EvDecode; EvEnter c; EvExit c] ++ logged ++
            EvRelease :: post /\
        quiet (logged ++ post) = true) /\
     count_event is_acquire t = 1%nat /\
     count_event is_release t = 1%nat) /\
  (forall (s : S) (request : ConfigureActuatorRequest)
          (commands : list ActuatorCommand),
     (exists r w',
        ConfigureActuator ctl request (fresh s) = (Ret r, w') /\
        locked w' = false) /\
     (exists r w',
        CommandActuators ctl commands (fresh s) = (Ret r, w') /\
        locked w' = false)) /\
  (forall (request_ids : list Z) (w : World S),
     (exists r w' t,
        GetActuatorsState ctl request_ids w = (Ret r, w') /\
        trace w' = trace w ++ t /\ quiet t = true /\
        locked w' = locked w) /\
     (exists r w' t,
        ParameterDump ctl request_ids w = (Ret r, w') /\
        trace w' = trace w ++ t /\ quiet t = true /\
        locked w' = locked w)) /\
  (forall (calls : list (list event)) (schedule : list nat),
     Forall (mutating_call ctl) calls ->
     ~ interleaved (effects (sys_trace (sys_run schedule (init_system calls))))).
Proof.
  split; [|split; [|split]].
  - intros t Ht. split; [exact (mutating_call_shape ctl t Ht)|].
    apply (proj2 (mutating_call_bracketed ctl t Ht)).
  - intros s request commands. apply mutating_calls_return.
  - intros request_ids w. split.
    + apply GetActuatorsState_leaves_lock_alone.
    + apply ParameterDump_leaves_lock_alone.
  - intros calls schedule Hcalls.
    apply blocks_not_interleaved.
    assert (Hinv : sys_inv (sys_run schedule (init_system calls))).
    { apply sys_inv_run, sys_inv_init.
      eapply Forall_impl; [exact Hcalls|].
      intros t Ht. apply (proj1 (mutating_call_bracketed ctl t Ht)). }
    apply Hinv.
Qed.

(** C4 on the bench: a configuration call and a position command in
    flight together, the scheduler switching between them at will. *)
Lemma command_lock_serialises_mutations_witness :
  let request :=
    {| actuator_id := 1; torque_enabled := Some true; zero_position := None;
       kp := None; kd := None; ki := None; max_torque := None;
       acceleration := None; new_actuator_id := None |} in
  let commands := [{| cmd_actuator_id := 1; cmd_position := 1%Q |}] in
  let calls :=
    [trace (ConfigureActuator bench_controller request (fresh bench_one)).2;
     trace (CommandActuators bench_controller commands (fresh bench_one)).2] in
  Forall (mutating_call bench_controller) calls /\
  ~ interleaved
      (effects (sys_trace
         (sys_run [1; 0; 1; 0; 0; 1; 1; 0; 1; 0; 0; 1; 1; 0; 1; 0; 0]%nat
            (init_system calls)))).
Proof.
  cbv zeta.
  assert (H : Forall (mutating_call bench_controller)
    [trace (ConfigureActuator bench_controller
       {| actuator_id := 1; torque_enabled := Some true;
          zero_position := None; kp := None; kd := None; ki := None;
          max_torque := None; acceleration := None;
          new_actuator_id := None |} (fresh bench_one)).2;
     trace (CommandActuators bench_controller
       [{| cmd_actuator_id := 1; cmd_position := 1%Q |}]
       (fresh bench_one)).2]).
  { repeat constructor.
    - exists bench_one. left. by eexists.
    - exists bench_one. right. by eexists. }
  split; [exact H|].
  exact (proj2 (proj2 (proj2
    (command_lock_serialises_mutations bench_controller))) _ _ H).
Defined.

(** On that schedule the position command takes the lock first and the
    configuration call waits: the effects are the three of call 1, then
    the three of call 0. *)
Example bench_schedule_effects :
  let request :=
    {| actuator_id := 1; torque_enabled := Some true; zero_position := None;
       kp := None; kd := None; ki := None; max_torque := None;
       acceleration := None; new_actuator_id := None |} in
  let commands := [{| cmd_actuator_id := 1; cmd_position := 1%Q |}] in
  let calls :=
    [trace (ConfigureActuator bench_controller request (fresh bench_one)).2;
     trace (CommandActuators bench_controller commands (fresh bench_one)).2] in
  effects (sys_trace
    (sys_run [1; 0; 1; 0; 0; 1; 1; 0; 1; 0; 0; 1; 1; 0; 1; 0; 0]%nat
       (init_system calls))) = [1; 1; 1; 0; 0; 0]%nat.
Proof. by vm_compute. Qed.

(** * Further properties of the code *)

(** ** [BNO055Manager.start] *)

(** X1.  [start] on a manager whose sampler process is alive and whose
    reader thread runs creates nothing and changes no handle: it returns
    after logging the two warnings. *)
Theorem start_while_running_only_warns (m : Manager) :
  running m ->
  start m =
    (Ret tt,
     {| procs := procs m; threads := threads m;
        update_rate := update_rate m; _queue := _queue m;
        _process := _process m; _reader_thread := _reader_thread m;
        _stop_reader := _stop_reader m; _buffer := _buffer m;
        mlog := mlog m ++
                [("warning", "Sensor process already running");
                 ("warning", "Reader thread already running")] |}).
Proof.
  intros ((pid & Hp & Hpa) & (tid & Ht & Hta) & _).
  unfold start. unfold mbind, M_bind, bind.
  rewrite start_sampler_spec, Hp, Hpa.
  rewrite start_reader_spec. cbn [_reader_thread threads].
  rewrite Ht, Hta. cbn. by rewrite <- app_assoc.
Qed.

Lemma start_while_running_only_warns_witness :
  let m := (start (BNO055Manager_init 100)).2 in
  running m /\
  start m =
    (Ret tt,
     {| procs := procs m; threads := threads m;
        update_rate := update_rate m; _queue := _queue m;
        _process := _process m; _reader_thread := _reader_thread m;
        _stop_reader := _stop_reader m; _buffer := _buffer m;
        mlog := mlog m ++
                [("warning", "Sensor process already running");
                 ("warning", "Reader thread already running")] |}).
Proof.
  assert (H : running (start (BNO055Manager_init 100)).2).
  { repeat split; by eexists. }
  split; [exact H|].
  exact (start_while_running_only_warns _ H).
Defined.

Lemma start_keeps_only_held_alive (m : Manager) :
  only_held_alive m -> only_held_alive (start m).2.
Proof.
  intros [Hp Ht]. unfold start. unfold mbind, M_bind, bind.
  rewrite start_sampler_spec.
  match goal with |- context [start_reader ?x] => set (m1 := x) end.
  assert (H1 : (forall pid, procs m1 !! pid = Some PAlive ->
                            _process m1 = Some pid) /\
               threads m1 = threads m /\
               _reader_thread m1 = _reader_thread m /\
               _stop_reader m1 = _stop_reader m).
  { subst m1.
    destruct (match _process m with
              | Some pid =>
                  match procs m !! pid with Some PAlive => true | _ => false end
              | None => false
              end) eqn:E; simpl; [done|].
    repeat split. intros pid Hpid.
    apply lookup_app_Some in Hpid as [Hpid|[Hlen Hpid]].
    - rewrite (Hp pid Hpid), Hpid in E. discriminate.
    - f_equal. apply lookup_lt_Some in Hpid. simpl in Hpid. lia. }
  destruct H1 as (Hp1 & Hts & Hrt & Hsr).
  rewrite start_reader_spec. rewrite Hts, Hrt. clearbody m1.
  destruct (match _reader_thread m with
            | Some tid =>
                match threads m !! tid with Some TAlive => true | _ => false end
            | None => false
            end) eqn:E; simpl.
  - split; [done|]. simpl. rewrite Hsr. exact Ht.
  - split; [done|]. intros tid Htid.
    apply lookup_app_Some in Htid as [Htid|[Hlen Htid]].
    + destruct (Ht tid Htid) as [Hh _]. rewrite Hh, Htid in E. discriminate.
    + split; [|done]. simpl. f_equal. apply lookup_lt_Some in Htid.
      simpl in Htid. lia.
Qed.

Lemma stop_keeps_only_held_alive (m : Manager) :
  handles_started m = true ->
  only_held_alive m -> only_held_alive (stop m).2.
Proof.
  intros Hs [Hp Ht]. unfold stop. unfold mbind, M_bind, bind.
  rewrite (stop_sampler_spec m Hs).
  match goal with |- context [stop_reader ?x] => set (m1 := x) end.
  assert (H1 : handles_started m1 = true /\
               (forall pid, procs m1 !! pid = Some PAlive ->
                            _process m1 = Some pid) /\
               threads m1 = threads m /\
               _reader_thread m1 = _reader_thread m /\
               _stop_reader m1 = _stop_reader m).
  { subst m1. unfold handles_started in *.
    apply andb_prop in Hs as [Hsp Hst].
    destruct (_process m) as [pid|] eqn:E; simpl.
    - split; [done|]. repeat split. intros pid' Hpid'.
      apply list_lookup_insert_Some in Hpid' as [(_ & [=] & _)|[Hne Hpid']].
      specialize (Hp pid' Hpid'). congruence.
    - rewrite E, Hst. done. }
  destruct H1 as (Hs1 & Hp1 & Hts & Hrt & Hsr).
  rewrite (stop_reader_spec m1 Hs1). rewrite Hts, Hrt. clearbody m1.
  destruct (_reader_thread m) as [tid|] eqn:E; simpl.
  - split; [done|]. intros tid' Htid'.
    apply list_lookup_insert_Some in Htid' as [(_ & [=] & _)|[Hne Htid']].
    destruct (Ht tid' Htid') as [Hh _]. congruence.
  - split; [done|]. intros tid' Htid'. rewrite Hts in Htid'.
    destruct (Ht tid' Htid') as [Hh _]. congruence.
Qed.

Lemma crash_keeps_only_held_alive (m : Manager) :
  only_held_alive m -> only_held_alive (crash m).
Proof.
  intros H. unfold crash.
  destruct (_process m) as [pid|] eqn:E; [|exact H].
  destruct (procs m !! pid) as [[]|] eqn:Ep; try exact H.
  destruct H as [Hp Ht]. split; [|exact Ht]. simpl. intros pid' Hpid'.
  apply list_lookup_insert_Some in Hpid' as [(_ & [=] & _)|[Hne Hpid']].
  by apply Hp.
Qed.

(** X2.  In every state that [start], [stop] and a sampler dying on its
    own lead to, no executor is left running unheld: a process that is
    alive is the one [_process] names, and a thread that runs is the one
    [_reader_thread] names, with the stop event clear.  So at most one
    sampler reads the sensor and at most one reader writes the buffer. *)
Theorem no_executor_runs_unheld (rate : Z) (m : Manager) :
  reachable rate m ->
  (forall pid, procs m !! pid = Some PAlive -> _process m = Some pid) /\
  (forall tid, threads m !! tid = Some TAlive ->
     _reader_thread m = Some tid /\ _stop_reader m = false) /\
  (forall pid pid',
     procs m !! pid = Some PAlive -> procs m !! pid' = Some PAlive ->
     pid = pid') /\
  (forall tid tid',
     threads m !! tid = Some TAlive -> threads m !! tid' = Some TAlive ->
     tid = tid').
Proof.
  intros Hm.
  assert (H : only_held_alive m).
  { induction Hm as [|m op m' Hm IH Hop].
    - split; intros i Hi; simpl in Hi; by rewrite lookup_nil in Hi.
    - destruct op; simpl in Hop.
      + pose proof (start_keeps_only_held_alive m IH) as H.
        by rewrite Hop in H.
      + pose proof (stop_keeps_only_held_alive m
                      (reachable_handles_started rate m Hm) IH) as H.
        by rewrite Hop in H.
      + injection Hop as <-. by apply crash_keeps_only_held_alive. }
  destruct H as [Hp Ht]. split; [done|]. split; [done|]. split.
  - intros pid pid' H1 H2. apply Hp in H1, H2. congruence.
  - intros tid tid' H1 H2. apply Ht in H1 as [H1 _], H2 as [H2 _]. congruence.
Qed.

Lemma reachable_start (rate : Z) (m : Manager) :
  reachable rate m -> reachable rate (start m).2.
Proof.
  intros Hm. destruct (start_keeps_handles_started m) as (m' & Hs & _).
  apply (reach_op rate m OpStart); [done|]. simpl. by rewrite Hs.
Qed.

Lemma no_executor_runs_unheld_witness :
  let m := (start (BNO055Manager_init 100)).2 in
  reachable 100 m /\
  (forall pid, procs m !! pid = Some PAlive -> _process m = Some pid) /\
  (forall tid, threads m !! tid = Some TAlive ->
     _reader_thread m = Some tid /\ _stop_reader m = false) /\
  (forall pid pid',
     procs m !! pid = Some PAlive -> procs m !! pid' = Some PAlive ->
     pid = pid') /\
  (forall tid tid',
     threads m !! tid = Some TAlive -> threads m !! tid' = Some TAlive ->
     tid = tid').
Proof.
  split.
  - apply reachable_start. constructor.
  - exact (no_executor_runs_unheld 100 _
             (reachable_start 100 _ (reach_init 100))).
Defined.

(** X3.  [start] on a manager whose sampler process is no longer alive
    while the reader thread runs: a new process is created and started and
    [_process] names it; the old process object is left as it was, not
    joined; the reader thread and the stop event are not touched. *)
Theorem start_replaces_dead_sampler (m : Manager) (pid tid : nat)
    (st : proc_status) :
  _process m = Some pid ->
  procs m !! pid = Some st ->
  st <> PAlive ->
  _reader_thread m = Some tid ->
  threads m !! tid = Some TAlive ->
  exists m',
    start m = (Ret tt, m') /\
    procs m' = procs m ++ [PAlive] /\
    _process m' = Some (length (procs m)) /\
    procs m' !! pid = Some st /\
    threads m' = threads m /\
    _reader_thread m' = Some tid /\
    _stop_reader m' = _stop_reader m /\
    mlog m' = mlog m ++ [("info", "Sensor process started");
                         ("warning", "Reader thread already running")].
Proof.
  intros Hp Hst Hdead Ht Hta.
  unfold start. unfold mbind, M_bind, bind.
  rewrite start_sampler_spec, Hp, Hst.
  assert (Hd : match st with PAlive => true | _ => false end = false)
    by (by destruct st).
  rewrite Hd. rewrite start_reader_spec. cbn [_reader_thread threads].
  rewrite Ht, Hta. eexists. split; [reflexivity|]. cbn.
  repeat split; try done.
  - rewrite lookup_app_l; [done|]. by eapply lookup_lt_Some.
  - by rewrite <- app_assoc.
Qed.

Lemma start_replaces_dead_sampler_witness :
  let m := crash (start (BNO055Manager_init 100)).2 in
  exists m',
    start m = (Ret tt, m') /\
    procs m' = procs m ++ [PAlive] /\
    _process m' = Some (length (procs m)) /\
    procs m' !! 0%nat = Some PDead /\
    threads m' = threads m /\
    _reader_thread m' = Some 0%nat /\
    _stop_reader m' = _stop_reader m /\
    mlog m' = mlog m ++ [("info", "Sensor process started");
                         ("warning", "Reader thread already running")].
Proof.
  apply (start_replaces_dead_sampler
           (crash (start (BNO055Manager_init 100)).2) 0 0 PDead);
    try reflexivity.
  discriminate.
Defined.

(** ** The reader loop, field by field *)

Lemma reader_loop_app (l1 l2 : list (option Sample))
    (buf : gmap string (list value)) :
  reader_loop (l1 ++ l2) buf = reader_loop l2 (reader_loop l1 buf).
Proof.
  revert buf. induction l1 as [|[s|] l1 IH]; intros buf; simpl; by rewrite ?IH.
Qed.

Lemma valid_readings_snoc (proj : Sample -> field)
    (received : list (option Sample)) (o : option Sample) :
  valid_readings proj (received ++ [o]) =
    valid_readings proj received ++
    match o with
    | Some s => if fully_valid (proj s) then option_list (proj s) else []
    | None => []
    end.
Proof.
  unfold valid_readings. rewrite omap_app. f_equal. simpl.
  destruct o as [s|]; [|done].
  destruct (proj s) as [t|]; simpl; [|done].
  by destruct (forallb is_not_None t).
Qed.

Lemma last_valid_snoc (proj : Sample -> field) (l : list (list value))
    (s : Sample) (old : option (list value)) :
  match last (l ++ if fully_valid (proj s)
                   then option_list (proj s) else []) with
  | Some t => Some t
  | None => old
  end =
  if fully_valid (proj s) then proj s
  else match last l with Some t => Some t | None => old end.
Proof.
  destruct (proj s) as [t|]; simpl.
  - destruct (forallb is_not_None t).
    + by rewrite last_snoc.
    + by rewrite app_nil_r.
  - by rewrite app_nil_r.
Qed.

(** X4.  After any run of the reader loop, each slot of the buffer holds
    the most recent fully valid reading of its field among the samples
    received, and what it held before if there is none: a later reading
    with a [None] in it never displaces an earlier valid one, and the five
    fields are kept independently. *)
Theorem buffer_holds_latest_valid_reading :
  forall (received : list (option Sample)) (buf : gmap string (list value)),
    let slot key proj :=
      reader_loop received buf !! key =
        match last (valid_readings proj received) with
        | Some t => Some t
        | None => buf !! key
        end in
    slot "accel" accel_of /\ slot "gyro" gyro_of /\ slot "mag" mag_of /\
    slot "quat" quat_of /\ slot "calib" calib_of.
Proof.
  intros received buf. cbv zeta.
  induction received as [|o received IH] using rev_ind.
  - done.
  - rewrite reader_loop_app. rewrite !valid_readings_snoc.
    destruct IH as (Ha & Hg & Hm & Hq & Hc).
    destruct o as [s|]; simpl.
    + destruct s as [[[[accel gyro] mag] quat] calib].
      rewrite !last_valid_snoc.
      cbn [merge_sample accel_of gyro_of mag_of quat_of calib_of fst snd].
      rewrite !store_if_valid_lookup. simpl.
      rewrite Ha, Hg, Hm, Hq, Hc. done.
    + by rewrite !app_nil_r.
Qed.

(** ** The sampler loop over several iterations *)








(** ** The hand-off channel when the occupant is always seen *)

Lemma run_seen_invariant (schedule : list action) :
  forallb occupant_seen schedule = true ->
  let c := run schedule new_channel in
  maxsize (ch_queue c) = 1%nat /\
  (length (items (ch_queue c)) <= 1)%nat /\
  (forall d, ch_pc c = PInsert d -> items (ch_queue c) = []).
Proof.
  induction schedule as [|a schedule IH] using rev_ind; intros Hseen.
  - simpl. repeat split; try done; lia.
  - rewrite forallb_app in Hseen. apply andb_prop in Hseen as [Hs Ha].
    simpl in Ha. rewrite andb_true_r in Ha.
    destruct (IH Hs) as (Hmax & Hlen & Hins). clear IH.
    cbv zeta. rewrite run_snoc.
    destruct (run schedule new_channel) as [[mx its] pc last got].
    simpl in *. subst mx.
    destruct a as [d|d|]; [|discriminate|]; simpl.
    + unfold producer_step. simpl. destruct pc as [|d'|d']; simpl.
      * rewrite full_one. split; [done|]. split; [done|].
        intros d0. by destruct its.
      * unfold get_nowait. simpl.
        destruct its as [|x [|y its]]; simpl in *;
          [| |exfalso; lia]; (split; [done|]; split; [lia|done]).
      * rewrite (Hins d' eq_refl). simpl.
        split; [done|]. split; [lia|done].
    + unfold consumer_step, get_timeout, get_nowait. simpl.
      destruct its as [|x its]; simpl in *.
      * split; [done|]. split; [lia|done].
      * split; [done|]. split; [lia|]. intros d Hd.
        by specialize (Hins d Hd).
Qed.

(** X7.  In every interleaving in which the producer's [get_nowait] always
    finds the occupant, the queue is empty whenever the producer is about
    to call [put_nowait]: the put succeeds, and the queue then holds the
    new sample.  The handler of [queue.Full] is reached only through the
    race in which the occupant is not yet visible. *)
Theorem put_succeeds_when_occupant_seen (schedule : list action)
    (d d' : Sample) :
  forallb occupant_seen schedule = true ->
  ch_pc (run schedule new_channel) = PInsert d ->
  items (ch_queue (run schedule new_channel)) = [] /\
  items (ch_queue (step (Produce d') (run schedule new_channel))) = [d] /\
  ch_last (step (Produce d') (run schedule new_channel)) = Some d /\
  ch_pc (step (Produce d') (run schedule new_channel)) = PIdle.
Proof.
  intros Hseen Hpc.
  destruct (run_seen_invariant schedule Hseen) as (Hmax & _ & Hins).
  specialize (Hins d Hpc).
  split; [done|].
  destruct (run schedule new_channel) as [[mx its] pc last got].
  simpl in *. subst. unfold producer_step. simpl. done.
Qed.

Lemma put_succeeds_when_occupant_seen_witness :
  let x : Sample := (Some [VFloat 1], None, None, None, None) in
  let d : Sample := (Some [VFloat 2], None, None, None, None) in
  let schedule := [Produce x; Produce x; Produce d; Consume; Produce d] in
  items (ch_queue (run schedule new_channel)) = [] /\
  items (ch_queue (step (Produce d) (run schedule new_channel))) = [d] /\
  ch_last (step (Produce d) (run schedule new_channel)) = Some d /\
  ch_pc (step (Produce d) (run schedule new_channel)) = PIdle.
Proof.
  cbv zeta. apply put_succeeds_when_occupant_seen; reflexivity.
Defined.

(** ** [CommandActuators]: the dictionary of commands *)

(** X8.  When a request names a registered actuator more than once, the
    position of its last command is the one handed to [set_positions]. *)
Theorem last_command_for_an_actuator_wins (ids : list Z)
    (before after : list ActuatorCommand) (cmd : ActuatorCommand) :
  cmd_actuator_id cmd ∈ ids ->
  Forall (fun c => cmd_actuator_id c <> cmd_actuator_id cmd) after ->
  servo_commands_of ids (before ++ cmd :: after) !! cmd_actuator_id cmd
    = Some (cmd_position cmd).
Proof.
  intros Hreg. induction after as [|c after IH] using rev_ind; intros Hafter.
  - rewrite servo_commands_of_snoc, bool_decide_eq_true_2 by done.
    apply lookup_insert_eq.
  - apply Forall_app in Hafter as [Hafter Hc].
    apply Forall_inv in Hc.
    rewrite app_comm_cons, app_assoc, servo_commands_of_snoc.
    case_bool_decide; [|by apply IH].
    rewrite lookup_insert_ne by done. by apply IH.
Qed.

Lemma last_command_for_an_actuator_wins_witness :
  servo_commands_of [1; 2]
    ([ {| cmd_actuator_id := 1; cmd_position := (1 # 4)%Q |} ] ++
     {| cmd_actuator_id := 1; cmd_position := (3 # 4)%Q |} ::
     [ {| cmd_actuator_id := 2; cmd_position := 0%Q |} ]) !! 1
    = Some (3 # 4)%Q.
Proof.
  apply (last_command_for_an_actuator_wins [1; 2]
           [ {| cmd_actuator_id := 1; cmd_position := (1 # 4)%Q |} ]
           [ {| cmd_actuator_id := 2; cmd_position := 0%Q |} ]
           {| cmd_actuator_id := 1; cmd_position := (3 # 4)%Q |}).
  - simpl. by left.
  - by repeat constructor.
Defined.

Lemma servo_commands_of_none_registered (ids : list Z)
    (commands : list ActuatorCommand) :
  Forall (fun c => cmd_actuator_id c ∉ ids) commands ->
  servo_commands_of ids commands = ∅.
Proof.
  induction commands as [|c commands IH] using rev_ind; intros H; [done|].
  apply Forall_app in H as [H Hc]. apply Forall_inv in Hc.
  rewrite servo_commands_of_snoc, bool_decide_eq_false_2 by done.
  by apply IH.
Qed.

(** X9.  A position command none of whose targets is registered (an empty
    one in particular) is not rejected and not skipped: [set_positions] is
    still called, with the empty dictionary, and when it returns the call
    answers [CommandActuatorsResponse] with no error code. *)
Theorem unknown_only_command_reaches_controller {S : Type}
    (ctl : SCSMotorController S) (s s' : S)
    (commands : list ActuatorCommand) :
  Forall (fun c => cmd_actuator_id c ∉ actuator_ids ctl s) commands ->
  set_positions ctl ∅ s = (Ok tt, s') ->
  CommandActuators ctl commands (fresh s) =
    (Ret CommandActuatorsResponse,
     {| backend := s'; locked := false; code := None; details := None;
        trace := [EvAcquire; EvDecode; EvEnter (CallSetPositions ∅);
                  EvExit (CallSetPositions ∅); EvRelease] |}).
Proof.
  intros Hnone Hset. rewrite CommandActuators_spec by done. cbv zeta.
  cbn [backend fresh]. rewrite (servo_commands_of_none_registered _ _ Hnone).
  by rewrite Hset.
Qed.

Lemma unknown_only_command_reaches_controller_witness :
  CommandActuators bench_controller
    [ {| cmd_actuator_id := 99; cmd_position := 1%Q |} ] (fresh bench_one) =
    (Ret CommandActuatorsResponse,
     {| backend := bench_one; locked := false; code := None; details := None;
        trace := [EvAcquire; EvDecode; EvEnter (CallSetPositions ∅);
                  EvExit (CallSetPositions ∅); EvRelease] |}).
Proof.
  apply unknown_only_command_reaches_controller.
  - repeat constructor. simpl. intros H.
    apply list_elem_of_singleton in H. discriminate.
  - reflexivity.
Defined.

(** ** The error paths of the mutating calls *)

(** X10.  When the controller raises anything but [RuntimeError], both
    mutating calls release the lock, set [INTERNAL] and return their own
    response message: [ConfigureActuator] an [ActionResponse] with
    [success=False] and the details "error configuring actuator <id>:
    <message>", which it also logs; [CommandActuators] an empty
    [CommandActuatorsResponse] with the message as details. *)
Theorem other_exceptions_are_internal {S : Type} (ctl : SCSMotorController S)
    (s s' : S) (e : exn) (request : ConfigureActuatorRequest)
    (commands : list ActuatorCommand) :
  (forall msg, e <> RuntimeError msg) ->
  configure_actuator ctl (actuator_id request) (decode_config request) s
    = (Err e, s') ->
  set_positions ctl (servo_commands_of (actuator_ids ctl s) commands) s
    = (Err e, s') ->
  let error_msg :=
    "error configuring actuator " +:+ pretty (actuator_id request)
    +:+ ": " +:+ str_exn e in
  let configured := ConfigureActuator ctl request (fresh s) in
  let commanded := CommandActuators ctl commands (fresh s) in
  (configured.1 = Ret (ActionResponse false) /\
   code configured.2 = Some INTERNAL /\
   details configured.2 = Some error_msg /\
   EvLog "error" error_msg ∈ trace configured.2 /\
   locked configured.2 = false /\ backend configured.2 = s') /\
  (commanded.1 = Ret CommandActuatorsResponse /\
   code commanded.2 = Some INTERNAL /\
   details commanded.2 = Some (str_exn e) /\
   locked commanded.2 = false /\ backend commanded.2 = s').
Proof.
  intros Hnot Hconf Hset. cbv zeta. split.
  - rewrite ConfigureActuator_spec by done. cbv zeta.
    cbn [backend fresh]. rewrite Hconf.
    destruct e; try (by destruct (Hnot msg));
      (repeat split; simpl; do 5 right; by left).
  - rewrite CommandActuators_spec by done. cbv zeta.
    cbn [backend fresh]. rewrite Hset.
    destruct e; try (by destruct (Hnot msg)); by repeat split.
Qed.

Lemma other_exceptions_are_internal_witness :
  let request :=
    {| actuator_id := 1; torque_enabled := Some true; zero_position := None;
       kp := None; kd := None; ki := None; max_torque := None;
       acceleration := None; new_actuator_id := None |} in
  let commands := [ {| cmd_actuator_id := 1; cmd_position := 1%Q |} ] in
  let e := ValueError "bad frame" in
  let configured := ConfigureActuator raising_controller request (fresh e) in
  let commanded := CommandActuators raising_controller commands (fresh e) in
  (configured.1 = Ret (ActionResponse false) /\
   code configured.2 = Some INTERNAL /\
   details configured.2 = Some "error configuring actuator 1: bad frame" /\
   EvLog "error" "error configuring actuator 1: bad frame"
     ∈ trace configured.2 /\
   locked configured.2 = false /\ backend configured.2 = e) /\
  (commanded.1 = Ret CommandActuatorsResponse /\
   code commanded.2 = Some INTERNAL /\
   details commanded.2 = Some "bad frame" /\
   locked commanded.2 = false /\ backend commanded.2 = e).
Proof.
  cbv zeta.
  apply (other_exceptions_are_internal raising_controller
           (ValueError "bad frame") (ValueError "bad frame")
           (ValueError "bad frame")); done.
Defined.

(** X11.  [ConfigureActuator] passes on the verdict of the controller: the
    response carries the flag that [configure_actuator] returned, and a
    refusal ([False]) sets no status code and no details; it is only
    logged.  The controller is called once, with the id of the request and
    the dictionary of the fields that the request has. *)
Theorem ConfigureActuator_passes_verdict {S : Type}
    (ctl : SCSMotorController S) (s s' : S)
    (request : ConfigureActuatorRequest) (success : bool) :
  configure_actuator ctl (actuator_id request) (decode_config request) s
    = (Ok success, s') ->
  let out := ConfigureActuator ctl request (fresh s) in
  let c := CallConfigure (actuator_id request) (decode_config request) in
  out.1 = Ret (ActionResponse success) /\
  code out.2 = None /\ details out.2 = None /\
  backend out.2 = s' /\ locked out.2 = false /\
  trace out.2 =
    [EvAcquire; EvDecode; EvEnter c; EvExit c] ++
    (if success then []
     else [EvLog "error"
             ("failed to configure actuator " +:+ pretty (actuator_id request))])
    ++ [EvRelease].
Proof.
  intros Hconf. cbv zeta. rewrite ConfigureActuator_spec by done.
  cbv zeta. cbn [backend fresh]. by rewrite Hconf.
Qed.

Lemma ConfigureActuator_passes_verdict_witness :
  let request :=
    {| actuator_id := 99; torque_enabled := Some true; zero_position := None;
       kp := Some (3 # 2)%Q; kd := None; ki := None; max_torque := None;
       acceleration := None; new_actuator_id := None |} in
  let out := ConfigureActuator bench_controller request (fresh bench_one) in
  let c := CallConfigure 99 (decode_config request) in
  out.1 = Ret (ActionResponse false) /\
  code out.2 = None /\ details out.2 = None /\
  backend out.2 = bench_one /\ locked out.2 = false /\
  trace out.2 =
    [EvAcquire; EvDecode; EvEnter c; EvExit c] ++
    [EvLog "error" ("failed to configure actuator " +:+ pretty 99)] ++
    [EvRelease].
Proof.
  exact (ConfigureActuator_passes_verdict bench_controller bench_one bench_one
           {| actuator_id := 99; torque_enabled := Some true;
              zero_position := None; kp := Some (3 # 2)%Q; kd := None;
              ki := None; max_torque := None; acceleration := None;
              new_actuator_id := None |} false eq_refl).
Defined.

(** ** The queries *)

Lemma Forall_filter_le (P : Z -> Prop) `{!forall x, Decision (P x)}
    (x : Z) (l : list Z) :
  Forall (Z.le x) l -> Forall (Z.le x) (filter P l).
Proof.
  induction 1 as [|y l Hy Hl IH]; [constructor|].
  rewrite filter_cons. case_decide; [by constructor|done].
Qed.

Lemma StronglySorted_filter_le (P : Z -> Prop) `{!forall x, Decision (P x)}
    (l : list Z) :
  StronglySorted Z.le l -> StronglySorted Z.le (filter P l).
Proof.
  induction 1 as [|x l Hl IH Hx]; [constructor|].
  rewrite filter_cons. case_decide; [|done].
  constructor; [done|]. by apply Forall_filter_le.
Qed.

Lemma dumped_ids {S : Type} (ctl : SCSMotorController S) (s : S)
    (ids : list Z) :
  pd_actuator_id <$> omap (dumped_entry ctl s) ids =
    filter (fun id => readable ctl s id = true) ids.
Proof.
  induction ids as [|id ids IH]; [done|].
  cbn [omap list_omap]. rewrite filter_cons.
  destruct (decide (readable ctl s id = true)) as [Hr|Hr];
    unfold readable in Hr; unfold dumped_entry at 1.
  - apply andb_prop in Hr as [H1 H2]. rewrite H1.
    destruct (read_all_servo_params ctl id s); [|discriminate].
    cbn. by f_equal.
  - destruct (bool_decide (id ∈ actuator_ids ctl s)); [|done].
    destruct (read_all_servo_params ctl id s); [|done].
    by destruct Hr.
Qed.

(** X12.  [ParameterDump] never fails as a whole and never sets a status
    code.  It answers one entry for each requested id that is registered
    and whose parameters can be read, in the order of the request and with
    the parameters that the controller returned; ids that are unknown or
    unreadable are left out.  With an empty request it goes through all
    the registered ids, in ascending order. *)
Theorem ParameterDump_answers_readable_ids {S : Type}
    (ctl : SCSMotorController S) (s : S) (request_ids : list Z) :
  let out := ParameterDump ctl request_ids (fresh s) in
  let ids := ids_of_request ctl s request_ids in
  exists entries,
    out.1 = Ret (ParameterDumpResponse entries) /\
    code out.2 = None /\ backend out.2 = s /\
    pd_actuator_id <$> entries =
      filter (fun id => readable ctl s id = true) ids /\
    Forall (fun e => read_all_servo_params ctl (pd_actuator_id e) s
                     = Ok (pd_parameters e)) entries /\
    (match request_ids with
     | [] => StronglySorted Z.le (pd_actuator_id <$> entries) /\
             forall id, id ∈ ids <-> id ∈ actuator_ids ctl s
     | _ => ids = request_ids
     end).
Proof.
  cbv zeta. rewrite ParameterDump_spec. cbv zeta.
  cbn [fst snd backend fresh code].
  fold (ids_of_request ctl s request_ids).
  eexists. split; [reflexivity|]. split; [done|]. split; [done|].
  split; [apply dumped_ids|]. split.
  - generalize (ids_of_request ctl s request_ids). intros ids.
    induction ids as [|id ids IH]; [constructor|].
    cbn [omap list_omap]. unfold dumped_entry at 1.
    destruct (bool_decide (id ∈ actuator_ids ctl s)); [|done].
    destruct (read_all_servo_params ctl id s) eqn:E; [|done].
    by constructor.
  - destruct request_ids as [|r rest]; [|done]. split.
    + rewrite dumped_ids. apply StronglySorted_filter_le.
      apply StronglySorted_merge_sort; apply _.
    + intros id. unfold ids_of_request.
      by rewrite merge_sort_Permutation.
Qed.

(** What [state_loop] does when the controller answers all the queries. *)
Lemma state_loop_answers {S : Type} (ctl : SCSMotorController S)
    (torque : Z -> bool) (state : Z -> option (gmap string Q))
    (faults : Z -> option fault_info) (ids : list Z)
    (acc : list ActuatorStateResponse) (w : World S) :
  (forall id, id ∈ ids -> id ∈ actuator_ids ctl (backend w) ->
     get_torque_enabled ctl id (backend w) = Ok (torque id) /\
     get_state ctl id (backend w) = Ok (state id) /\
     get_faults ctl id (backend w) = Ok (faults id)) ->
  exists w',
    state_loop ctl ids acc w =
      (Ret (acc ++ (state_entry ctl (backend w) torque state faults <$> ids)),
       w') /\
    backend w' = backend w /\ code w' = code w /\ details w' = details w.
Proof.
  revert acc w. induction ids as [|id ids IH]; intros acc w Hq.
  - exists w. simpl. by rewrite app_nil_r.
  - cbn [state_loop]. unfold_kos. simpl. unfold state_entry at 1.
    destruct (bool_decide (id ∈ actuator_ids ctl (backend w))) eqn:Hin.
    + apply bool_decide_eq_true_1 in Hin.
      destruct (Hq id) as (Ht & Hs & Hf); [by left|done|].
      rewrite Ht. simpl. rewrite Hs. simpl. rewrite Hf. simpl.
      match goal with |- context [state_loop ctl ids ?a ?w1] =>
        destruct (IH a w1) as (w' & -> & Hb & Hc & Hd) end.
      { intros id' Hid'. simpl. apply Hq. by right. }
      exists w'. simpl in *. by rewrite <- app_assoc.
    + destruct (IH (acc ++ [unregistered_state id]) w)
        as (w' & -> & Hb & Hc & Hd).
      { intros id' Hid'. apply Hq. by right. }
      exists w'. by rewrite <- app_assoc.
Qed.

(** X13.  When the controller answers the queries for the registered ids
    that are asked, [GetActuatorsState] returns exactly one entry for each
    id it goes through, in that order: the entry of a registered id is
    built from the three answers, the entry of an unknown id is the
    "servo not registered" one; no status code is set.  With an empty
    request the ids are all the registered ones, in ascending order. *)
Theorem GetActuatorsState_one_entry_per_id {S : Type}
    (ctl : SCSMotorController S) (s : S)
    (torque : Z -> bool) (state : Z -> option (gmap string Q))
    (faults : Z -> option fault_info) (request_ids : list Z) :
  (forall id, id ∈ actuator_ids ctl s ->
     get_torque_enabled ctl id s = Ok (torque id) /\
     get_state ctl id s = Ok (state id) /\
     get_faults ctl id s = Ok (faults id)) ->
  let out := GetActuatorsState ctl request_ids (fresh s) in
  let ids := ids_of_request ctl s request_ids in
  let states := state_entry ctl s torque state faults <$> ids in
  out.1 = Ret (GetActuatorsStateResponse states) /\
  code out.2 = None /\
  st_actuator_id <$> states = ids /\
  length states = length ids.
Proof.
  intros Hq. cbv zeta.
  assert (Hout : exists w',
    GetActuatorsState ctl request_ids (fresh s) =
      (Ret (GetActuatorsStateResponse
              (state_entry ctl s torque state faults
                 <$> ids_of_request ctl s request_ids)), w') /\
    code w' = None).
  { unfold GetActuatorsState, try_except.
    unfold mbind at 1, M_bind at 1, bind at 1.
    assert (Hids : requested_ids ctl request_ids (fresh s) =
                   (Ret (ids_of_request ctl s request_ids), fresh s)).
    { unfold requested_ids, ids_of_request. by destruct request_ids. }
    rewrite Hids. unfold mbind at 1, M_bind at 1, bind at 1.
    destruct (state_loop_answers ctl torque state faults
                (ids_of_request ctl s request_ids) [] (fresh s))
      as (w' & -> & _ & Hc & _).
    { intros id _ Hid. by apply Hq. }
    exists w'. by unfold_M. }
  destruct Hout as (w' & -> & Hc).
  split; [done|]. split; [done|]. split.
  - rewrite <- list_fmap_compose. rewrite <- (list_fmap_id (ids_of_request _ _ _)) at 2.
    apply list_fmap_ext. intros _ id _. simpl.
    unfold state_entry, registered_state, unregistered_state.
    case_bool_decide; [by destruct (state id)|done].
  - by rewrite length_fmap.
Qed.

Lemma GetActuatorsState_one_entry_per_id_witness :
  let torque := fun _ : Z => true in
  let state := fun id : Z =>
    match bench_positions bench_one !! id with
    | Some pos => Some (<["position" := pos]> {[ "velocity" := 0%Q ]})
    | None => None
    end in
  let faults := fun _ : Z => @None fault_info in
  let out := GetActuatorsState bench_controller [99; 1; 99] (fresh bench_one) in
  let ids := ids_of_request bench_controller bench_one [99; 1; 99] in
  let states :=
    state_entry bench_controller bench_one torque state faults <$> ids in
  out.1 = Ret (GetActuatorsStateResponse states) /\
  code out.2 = None /\
  st_actuator_id <$> states = ids /\
  length states = length ids.
Proof.
  cbv zeta.
  apply (GetActuatorsState_one_entry_per_id bench_controller bench_one).
  intros id _. done.
Defined.

Lemma state_loop_raises {S : Type} (ctl : SCSMotorController S)
    (torque : Z -> bool) (state : Z -> option (gmap string Q))
    (faults : Z -> option fault_info) (before after : list Z) (id : Z)
    (e : exn) (acc : list ActuatorStateResponse) (w : World S) :
  (forall id', id' ∈ before -> id' ∈ actuator_ids ctl (backend w) ->
     get_torque_enabled ctl id' (backend w) = Ok (torque id') /\
     get_state ctl id' (backend w) = Ok (state id') /\
     get_faults ctl id' (backend w) = Ok (faults id')) ->
  id ∈ actuator_ids ctl (backend w) ->
  get_torque_enabled ctl id (backend w) = Err e \/
  (get_torque_enabled ctl id (backend w) = Ok (torque id) /\
   get_state ctl id (backend w) = Err e) \/
  (get_torque_enabled ctl id (backend w) = Ok (torque id) /\
   get_state ctl id (backend w) = Ok (state id) /\
   get_faults ctl id (backend w) = Err e) ->
  exists w',
    state_loop ctl (before ++ id :: after) acc w = (Raise e, w') /\
    backend w' = backend w /\ locked w' = locked w.
Proof.
  intros Hq Hreg Hfail. revert acc w Hq Hreg Hfail.
  induction before as [|id' before IH]; intros acc w Hq Hreg Hfail.
  - cbn [app state_loop]. unfold_kos. simpl.
    rewrite (bool_decide_eq_true_2 _ Hreg).
    destruct Hfail as [Ht|[[Ht Hs]|(Ht & Hs & Hf)]].
    + rewrite Ht. simpl. by eexists.
    + rewrite Ht. simpl. rewrite Hs. simpl. by eexists.
    + rewrite Ht. simpl. rewrite Hs. simpl. rewrite Hf. simpl. by eexists.
  - cbn [app state_loop]. unfold_kos. simpl.
    destruct (bool_decide (id' ∈ actuator_ids ctl (backend w))) eqn:Hin.
    + apply bool_decide_eq_true_1 in Hin.
      destruct (Hq id') as (Ht & Hs & Hf); [by left|done|].
      rewrite Ht. simpl. rewrite Hs. simpl. rewrite Hf. simpl.
      match goal with |- context [state_loop ctl _ ?a ?w1] =>
        destruct (IH a w1) as (w' & -> & Hb & Hl) end; simpl; try done.
      { intros id'' Hid''. apply Hq. by right. }
      by exists w'.
    + apply IH; try done. intros id'' Hid''. apply Hq. by right.
Qed.

(** X14.  [GetActuatorsState] fails as a whole when one query of the
    controller raises: if, for a registered id of the request,
    [get_torque_enabled], [get_state] or [get_faults] raises, the entries
    already built are dropped, the response is empty, and the call sets
    [INTERNAL] with the message of the exception. *)
Theorem GetActuatorsState_fails_as_a_whole {S : Type}
    (ctl : SCSMotorController S) (s : S)
    (torque : Z -> bool) (state : Z -> option (gmap string Q))
    (faults : Z -> option fault_info) (before after : list Z) (id : Z)
    (e : exn) :
  (forall id', id' ∈ before -> id' ∈ actuator_ids ctl s ->
     get_torque_enabled ctl id' s = Ok (torque id') /\
     get_state ctl id' s = Ok (state id') /\
     get_faults ctl id' s = Ok (faults id')) ->
  id ∈ actuator_ids ctl s ->
  get_torque_enabled ctl id s = Err e \/
  (get_torque_enabled ctl id s = Ok (torque id) /\
   get_state ctl id s = Err e) \/
  (get_torque_enabled ctl id s = Ok (torque id) /\
   get_state ctl id s = Ok (state id) /\
   get_faults ctl id s = Err e) ->
  let out := GetActuatorsState ctl (before ++ id :: after) (fresh s) in
  out.1 = Ret (GetActuatorsStateResponse []) /\
  code out.2 = Some INTERNAL /\
  details out.2 = Some (str_exn e) /\
  backend out.2 = s.
Proof.
  intros Hq Hreg Hfail. cbv zeta.
  assert (Hout : exists w',
    GetActuatorsState ctl (before ++ id :: after) (fresh s) =
      (Ret (GetActuatorsStateResponse []), w') /\
    code w' = Some INTERNAL /\ details w' = Some (str_exn e) /\
    backend w' = s).
  { unfold GetActuatorsState, try_except.
    unfold mbind at 1, M_bind at 1, bind at 1.
    assert (Hids : requested_ids ctl (before ++ id :: after) (fresh s) =
                   (Ret (before ++ id :: after), fresh s)).
    { unfold requested_ids. by destruct before. }
    rewrite Hids. unfold mbind at 1, M_bind at 1, bind at 1.
    destruct (state_loop_raises ctl torque state faults before after id e []
                (fresh s) Hq Hreg Hfail) as (w' & -> & Hb & _).
    unfold_kos. simpl. by eexists. }
  by destruct Hout as (w' & -> & Hc & Hd & Hb).
Qed.

Lemma GetActuatorsState_fails_as_a_whole_witness :
  let e := OtherException "bus timeout" in
  let out := GetActuatorsState raising_controller ([99] ++ 1 :: [2]) (fresh e) in
  out.1 = Ret (GetActuatorsStateResponse []) /\
  code out.2 = Some INTERNAL /\
  details out.2 = Some "bus timeout" /\
  backend out.2 = e.
Proof.
  cbv zeta.
  apply (GetActuatorsState_fails_as_a_whole raising_controller
           (OtherException "bus timeout") (fun _ => true) (fun _ => None)
           (fun _ => None) [99] [2] 1 (OtherException "bus timeout")).
  - intros id' Hid' Hreg. apply list_elem_of_singleton in Hid' as ->.
    simpl in Hreg. apply elem_of_cons in Hreg as [Hreg|Hreg]; [done|].
    apply list_elem_of_singleton in Hreg. done.
  - simpl. by left.
  - by left.
Defined.

(** ** The IMU service on the buffer that the reader keeps *)






Lemma int_of_to_int {St} (v : value) (s : St) :
  v <> VNone -> int_of (PyVal v) s = (Ret (to_int v), s).
Proof. by destruct v. Qed.








(** ** Start-up: [singleton_check] *)

Example singleton_check_runs :
  (singleton_check (quiet_machine 77 [])).1 = Done 0%nat /\
  (singleton_check (busy_machine 77 (Some 3%nat) "4242" ["n"])).1
    = Fails (SystemExit 1) /\
  (singleton_check (busy_machine 77 (Some 3%nat) "4242" ["Y"])).1
    = Done 0%nat /\
  (singleton_check (busy_machine 77 (Some 10%nat) "4242" ["y"])).1
    = Fails (SystemExit 1) /\
  (singleton_check (busy_machine 77 (Some 3%nat) " " ["y"])).1
    = Fails (OSError "Resource temporarily unavailable").
Proof. vm_compute. repeat split. Qed.

Lemma os_bind_done {A B} (m : OSM A) (k : A -> OSM B) (s s' : OS) (a : A) :
  m s = (Done a, s') -> (m ≫= k) s = k a s'.
Proof. intros H. unfold mbind, OSM_bind. by rewrite H. Qed.

Lemma os_bind_fails {A B} (m : OSM A) (k : A -> OSM B) (s s' : OS)
    (e : os_exn) :
  m s = (Fails e, s') -> (m ≫= k) s = (Fails e, s').
Proof. intros H. unfold mbind, OSM_bind. by rewrite H. Qed.


Lemma overwrite_empty (data : string) : overwrite data "" = data.
Proof. induction data as [|c data IH]; simpl; by rewrite ?IH. Qed.

Lemma lockf_free (fd : nat) (s : OS) (ino : Inode) :
  os_inodes s !! fd = Some ino -> lock_taken s ino = false ->
  lockf fd s =
    (Done tt,
     set_files (os_path s)
       (<[fd := {| content := content ino; lock := Some (os_getpid s) |}]>
          (os_inodes s)) s).
Proof. intros Hino Hfree. unfold lockf. by rewrite Hino, Hfree. Qed.

Lemma lockf_taken (fd : nat) (s : OS) (ino : Inode) :
  os_inodes s !! fd = Some ino -> lock_taken s ino = true ->
  lockf fd s = (Fails (OSError "Resource temporarily unavailable"), s).
Proof. intros Hino Htaken. unfold lockf. by rewrite Hino, Htaken. Qed.


Lemma write_pid_spec (fd : nat) (s : OS) (ino : Inode) :
  os_inodes s !! fd = Some ino ->
  write_pid fd s =
    (Done fd,
     set_files (os_path s)
       (<[fd := {| content := pretty (os_getpid s); lock := lock ino |}]>
          (os_inodes s)) s).
Proof.
  intros Hino. unfold write_pid.
  assert (Hlt : (fd < length (os_inodes s))%nat)
    by (by apply lookup_lt_is_Some; exists ino).
  erewrite os_bind_done; last first.
  { unfold os_ftruncate. rewrite Hino. reflexivity. }
  unfold mbind at 1, OSM_bind at 1. cbn [os_getpid set_files].
  unfold mbind at 1, OSM_bind at 1, os_write.
  cbn [os_inodes set_files os_path].
  rewrite list_lookup_insert_eq by done.
  cbn [content lock]. rewrite overwrite_empty, list_insert_insert_eq.
  reflexivity.
Qed.

(** What the function does when nothing stands in its way. *)
Lemma singleton_check_free_spec (s : OS) :
  pidfile_free s ->
  singleton_check s =
    (Done (default (length (os_inodes s)) (os_path s)),
     match os_path s with
     | Some fd => claimed fd s
     | None =>
         claimed (length (os_inodes s))
           (set_files None
              (os_inodes s ++ [{| content := ""; lock := None |}]) s)
     end).
Proof.
  unfold pidfile_free, singleton_check. intros Hfree.
  destruct (os_path s) as [fd|] eqn:Hpath.
  - destruct Hfree as (ino & Hino & Hlock).
    erewrite os_bind_done; last first.
    { unfold os_open. rewrite Hpath. reflexivity. }
    erewrite os_bind_done; last first.
    { unfold try_OSError. rewrite (lockf_free _ _ _ Hino Hlock). reflexivity. }
    assert (Hlt : (fd < length (os_inodes s))%nat)
      by (by apply lookup_lt_is_Some; exists ino).
    erewrite write_pid_spec; last first.
    { cbn [os_inodes set_files]. by apply list_lookup_insert_eq. }
    unfold claimed, set_files. simpl.
    by rewrite list_insert_insert_eq, Hpath.
  - set (new := {| content := ""; lock := None |}).
    set (fd := length (os_inodes s)).
    set (s0 := set_files (Some fd) (os_inodes s ++ [new]) s).
    assert (Hino : os_inodes s0 !! fd = Some new).
    { unfold s0, fd. cbn [os_inodes set_files].
      by rewrite lookup_app_r, Nat.sub_diag. }
    erewrite (os_bind_done _ _ s s0 fd); last first.
    { unfold os_open. rewrite Hpath. reflexivity. }
    erewrite os_bind_done; last first.
    { unfold try_OSError. rewrite (lockf_free _ _ _ Hino eq_refl).
      reflexivity. }
    assert (Hlt : (fd < length (os_inodes s0))%nat)
      by (by apply lookup_lt_is_Some; exists new).
    erewrite write_pid_spec; last first.
    { cbn [os_inodes set_files]. by apply list_lookup_insert_eq. }
    unfold claimed, set_files. simpl.
    by rewrite list_insert_insert_eq.
Qed.

(** X16.  When the pid file is absent or no other running process has its
    lock, [singleton_check] returns the descriptor of the file that the path
    names, with the caller's lock on that file and the caller's id as its
    whole text.  It asks nothing, signals nobody and leaves the other files
    as they are. *)
Theorem singleton_check_takes_free_lock (s : OS) :
  pidfile_free s ->
  exists fd s',
    singleton_check s = (Done fd, s') /\
    os_path s' = Some fd /\
    os_inodes s' !! fd = Some {| content := pretty (os_getpid s);
                                 lock := Some (os_getpid s) |} /\
    (forall fd', fd' <> fd -> os_inodes s' !! fd' = os_inodes s !! fd') /\
    os_signals s' = os_signals s /\ os_alive s' = os_alive s /\
    os_stdin s' = os_stdin s /\ os_stdout s' = os_stdout s /\
    os_log s' = os_log s /\ os_slept s' = os_slept s.
Proof.
  intros Hfree. rewrite (singleton_check_free_spec s Hfree).
  unfold pidfile_free in Hfree.
  destruct (os_path s) as [fd|].
  - destruct Hfree as (ino & Hino & _).
    assert (Hlt : (fd < length (os_inodes s))%nat)
      by (by apply lookup_lt_is_Some; exists ino).
    exists fd, (claimed fd s). simpl.
    split; [done|]. split; [done|].
    split; [by apply list_lookup_insert_eq|].
    split; [|done].
    intros fd' Hne. by apply list_lookup_insert_ne.
  - eexists _, _. split; [reflexivity|]. simpl.
    split; [done|]. split.
    { apply list_lookup_insert_eq. rewrite length_app. simpl. lia. }
    split; [|done].
    intros fd' Hne. rewrite list_lookup_insert_ne by done.
    destruct (decide (fd' < length (os_inodes s))%nat) as [Hlt|Hge].
    + by rewrite lookup_app_l.
    + rewrite !lookup_ge_None_2; [done|lia|].
      rewrite length_app. simpl. lia.
Qed.

Lemma singleton_check_takes_free_lock_witness :
  pidfile_free (quiet_machine 77 []) /\
  exists fd s',
    singleton_check (quiet_machine 77 []) = (Done fd, s') /\
    os_path s' = Some fd /\
    os_inodes s' !! fd = Some {| content := pretty (os_getpid (quiet_machine 77 []));
                                 lock := Some (os_getpid (quiet_machine 77 [])) |} /\
    (forall fd', fd' <> fd ->
       os_inodes s' !! fd' = os_inodes (quiet_machine 77 []) !! fd') /\
    os_signals s' = os_signals (quiet_machine 77 []) /\
    os_alive s' = os_alive (quiet_machine 77 []) /\
    os_stdin s' = os_stdin (quiet_machine 77 []) /\
    os_stdout s' = os_stdout (quiet_machine 77 []) /\
    os_log s' = os_log (quiet_machine 77 []) /\
    os_slept s' = os_slept (quiet_machine 77 []).
Proof.
  split; [exact I|].
  exact (singleton_check_takes_free_lock (quiet_machine 77 []) I).
Defined.

(** *** The pieces of the function *)

Lemma int_spec (digits : string) (s : OS) :
  (String.length digits <= 4300)%nat ->
  int digits s = (Done (int_of_digits digits), s).
Proof.
  intros Hlen. unfold int.
  destruct (4300 <? String.length digits)%nat eqn:E; [|done].
  apply Nat.ltb_lt in E. lia.
Qed.


Lemma probe_alive (s : OS) (p : Z) :
  other_process s p -> p ∈ os_alive s -> os_kill p 0 s = (Done tt, s).
Proof.
  intros (Hlt & H0 & Hme) Hal. unfold os_kill.
  rewrite bool_decide_eq_false_2 by lia.
  rewrite bool_decide_eq_false_2 by (intros [?|?]; done).
  by rewrite bool_decide_eq_true_2.
Qed.

Lemma probe_gone (s : OS) (p : Z) :
  other_process s p -> p ∉ os_alive s ->
  os_kill p 0 s = (Fails (OSError "No such process"), s).
Proof.
  intros (Hlt & H0 & Hme) Hal. unfold os_kill.
  rewrite bool_decide_eq_false_2 by lia.
  rewrite bool_decide_eq_false_2 by (intros [?|?]; done).
  by rewrite bool_decide_eq_false_2.
Qed.

Lemma sigterm_alive (s : OS) (p : Z) :
  other_process s p -> p ∈ os_alive s ->
  os_kill p 15 s = (Done tt, deliver p 15 s).
Proof.
  intros (Hlt & H0 & Hme) Hal. unfold os_kill.
  rewrite bool_decide_eq_false_2 by lia.
  rewrite bool_decide_eq_false_2 by (intros [?|?]; done).
  by rewrite bool_decide_eq_true_2.
Qed.


Lemma deliver_sigterm (s : OS) (p : Z) :
  os_getpid (deliver p 15 s) = os_getpid s /\
  os_path (deliver p 15 s) = os_path s /\
  os_inodes (deliver p 15 s) = os_inodes s /\
  os_stdin (deliver p 15 s) = os_stdin s /\
  os_stdout (deliver p 15 s) = os_stdout s /\
  os_log (deliver p 15 s) = os_log s /\
  os_slept (deliver p 15 s) = os_slept s /\
  os_exits_after (deliver p 15 s) = os_exits_after s /\
  os_signals (deliver p 15 s) = os_signals s ++ [(p, 15)].
Proof.
  unfold deliver. rewrite bool_decide_eq_false_2 by done.
  destruct (os_exits_after s !! p) as [[|n]|];
    [|destruct (os_dying s !! p)|]; done.
Qed.

Lemma only_time_passed_refl (s : OS) : only_time_passed s s.
Proof. by repeat split. Qed.

Lemma only_time_passed_asleep (s s' : OS) :
  only_time_passed (asleep s) s' -> only_time_passed s s'.
Proof. intros H. exact H. Qed.

Lemma other_process_asleep (s : OS) (p : Z) :
  other_process s p -> other_process (asleep s) p.
Proof. intros H. exact H. Qed.

Lemma wait_for_exit_gone (n : nat) (digits : string) (s : OS) :
  (String.length digits <= 4300)%nat ->
  other_process s (int_of_digits digits) ->
  int_of_digits digits ∉ os_alive s ->
  wait_for_exit (S n) digits s = (Done true, s).
Proof.
  intros Hlen Hp Hgone. cbn [wait_for_exit].
  erewrite (os_bind_done _ _ s s false); [reflexivity|].
  unfold try_OSError.
  erewrite os_bind_done by (by apply int_spec).
  erewrite os_bind_fails by (by apply probe_gone).
  reflexivity.
Qed.

Lemma wait_for_exit_alive (n : nat) (digits : string) (s : OS) :
  (String.length digits <= 4300)%nat ->
  other_process s (int_of_digits digits) ->
  int_of_digits digits ∈ os_alive s ->
  wait_for_exit (S n) digits s = wait_for_exit n digits (asleep s).
Proof.
  intros Hlen Hp Hal. cbn [wait_for_exit].
  erewrite (os_bind_done _ _ s (asleep s) true); [reflexivity|].
  unfold try_OSError.
  erewrite os_bind_done by (by apply int_spec).
  erewrite os_bind_done by (by apply probe_alive).
  reflexivity.
Qed.

Lemma asleep_alive (s : OS) (p : Z) :
  p ∈ os_alive (asleep s) <-> p ∈ os_alive s /\ os_dying s !! p <> Some 1%nat.
Proof. unfold asleep. simpl. by rewrite elem_of_filter, (comm and). Qed.

Lemma asleep_dying (s : OS) (p : Z) :
  os_dying (asleep s) !! p = Nat.pred <$> os_dying s !! p.
Proof. unfold asleep. simpl. by rewrite lookup_fmap. Qed.

(** A process that ends [k] sleeps from now is seen to be gone by the
    probe that follows the [k]-th sleep, if the loop has one. *)
Lemma wait_for_exit_exits (digits : string) (n k : nat) (s : OS) :
  (String.length digits <= 4300)%nat ->
  other_process s (int_of_digits digits) ->
  int_of_digits digits ∈ os_alive s ->
  os_dying s !! int_of_digits digits = Some k ->
  (1 <= k < n)%nat ->
  exists s',
    wait_for_exit n digits s = (Done true, s') /\
    (int_of_digits digits ∉ os_alive s') /\
    os_slept s' = (os_slept s + k)%nat /\
    os_alive s' ⊆ os_alive s /\
    only_time_passed s s'.
Proof.
  intros Hlen. set (p := int_of_digits digits).
  revert k s. induction n as [|n IH]; intros k s Hp Hal Hdy Hk; [lia|].
  rewrite wait_for_exit_alive by done.
  destruct (decide (k = 1%nat)) as [->|Hk1].
  - assert (Hgone : p ∉ os_alive (asleep s)).
    { rewrite asleep_alive. intros [_ Hne]. by apply Hne. }
    destruct n as [|n]; [lia|].
    rewrite wait_for_exit_gone by done.
    exists (asleep s). split; [done|]. split; [done|].
    split; [simpl; lia|]. split; [|by repeat split].
    intros q. rewrite asleep_alive. tauto.
  - destruct (IH (Nat.pred k) (asleep s)) as (s' & Hrun & Hgone & Hslept & Hsub & Hfr).
    + done.
    + rewrite asleep_alive. split; [done|]. rewrite Hdy. intros [=]. lia.
    + rewrite asleep_dying. fold p. by rewrite Hdy.
    + lia.
    + exists s'. split; [done|]. split; [done|].
      split; [rewrite Hslept; simpl; lia|]. split; [|done].
      intros q Hq. apply Hsub in Hq. apply asleep_alive in Hq. tauto.
Qed.

(** A process that outlives the sleeps of the loop makes it run out. *)
Lemma wait_for_exit_runs_out (digits : string) (n : nat) (s : OS) :
  (String.length digits <= 4300)%nat ->
  other_process s (int_of_digits digits) ->
  n = 0%nat \/
    (int_of_digits digits ∈ os_alive s /\
     match os_dying s !! int_of_digits digits with
     | Some k => (n <= k)%nat
     | None => True
     end) ->
  exists s',
    wait_for_exit n digits s = (Done false, s') /\
    os_slept s' = (os_slept s + n)%nat /\
    only_time_passed s s'.
Proof.
  intros Hlen. set (p := int_of_digits digits).
  revert s. induction n as [|n IH]; intros s Hp Hcond.
  { exists s. split; [done|]. split; [lia|]. apply only_time_passed_refl. }
  destruct Hcond as [|[Hal Hdy]]; [done|].
  rewrite wait_for_exit_alive by done.
  destruct (IH (asleep s)) as (s' & Hrun & Hslept & Hfr).
  - done.
  - destruct n as [|n]; [by left|]. right. split.
    + rewrite asleep_alive. split; [done|].
      destruct (os_dying s !! p) as [k|]; [|done]. intros [=]. lia.
    + rewrite asleep_dying. fold p.
      destruct (os_dying s !! p) as [k|]; simpl; [lia|done].
  - exists s'. split; [done|]. split; [rewrite Hslept; simpl; lia|done].
Qed.


Lemma isdigit_nonempty (digits : string) :
  isdigit digits = true ->
  negb (String.eqb digits "") && isdigit digits = true.
Proof. by destruct digits. Qed.

Lemma probe_ok (s : OS) (p : Z) :
  p < 2 ^ 31 -> p = 0 \/ p = os_getpid s \/ p ∈ os_alive s ->
  os_kill p 0 s = (Done tt, s).
Proof.
  intros Hlt Hp. unfold os_kill.
  rewrite bool_decide_eq_false_2 by lia.
  case_bool_decide as H0; [done|].
  rewrite bool_decide_eq_true_2 by tauto. done.
Qed.

(** With the lock taken the function goes on to read the pid file. *)
Lemma singleton_check_locked (s : OS) (fd : nat) (ino : Inode) :
  os_path s = Some fd -> os_inodes s !! fd = Some ino ->
  lock_taken s ino = true ->
  singleton_check s = (lock_is_taken fd ≫= fun _ => write_pid fd) s.
Proof.
  intros Hpath Hino Htaken. unfold singleton_check.
  erewrite (os_bind_done _ _ s s fd); last first.
  { unfold os_open. by rewrite Hpath. }
  unfold mbind, OSM_bind, try_OSError.
  by rewrite (lockf_taken _ _ _ Hino Htaken).
Qed.

Lemma lock_is_taken_digits (s : OS) (fd : nat) (ino : Inode) :
  os_path s = Some fd -> os_inodes s !! fd = Some ino ->
  isdigit (strip (content ino)) = true ->
  lock_is_taken fd s =
    try_OSError (ask_and_stop fd (strip (content ino)))
      (log_info "Stale PID file found, removing.";;
       os_remove;;
       lockf fd) s.
Proof.
  intros Hpath Hino Hdig. unfold lock_is_taken.
  erewrite (os_bind_done _ _ s s (content ino)); last first.
  { unfold read_pidfile. rewrite Hpath. simpl. by rewrite Hino. }
  cbv zeta. by rewrite isdigit_nonempty.
Qed.


(** The function when the answer is no. *)
Lemma declining_changes_nothing_aux (s : OS) (fd : nat) (ino : Inode)
    (answer : string) (rest : list string) :
  os_path s = Some fd -> os_inodes s !! fd = Some ino ->
  lock_taken s ino = true ->
  isdigit (strip (content ino)) = true ->
  (String.length (strip (content ino)) <= 4300)%nat ->
  int_of_digits (strip (content ino)) < 2 ^ 31 ->
  int_of_digits (strip (content ino)) = 0 \/
    int_of_digits (strip (content ino)) = os_getpid s \/
    int_of_digits (strip (content ino)) ∈ os_alive s ->
  os_stdin s = answer :: rest ->
  lower answer <> "y" ->
  singleton_check s =
    (Fails (SystemExit 1),
     set_terminal rest (os_stdout s ++ [question (strip (content ino))])
       (os_log s ++ ["Exiting."]) s).
Proof.
  intros Hpath Hino Htaken Hdig Hlen Hlt Hprobe Hin Hans.
  rewrite (singleton_check_locked _ _ _ Hpath Hino Htaken).
  erewrite os_bind_fails; [reflexivity|].
  rewrite (lock_is_taken_digits _ _ _ Hpath Hino Hdig).
  unfold try_OSError, ask_and_stop.
  erewrite os_bind_done by (by apply int_spec).
  erewrite os_bind_done by (by apply probe_ok).
  erewrite os_bind_done; last first.
  { unfold input. rewrite Hin. reflexivity. }
  destruct (String.eqb (lower answer) "y") eqn:E.
  { by apply String.eqb_eq in E. }
  reflexivity.
Qed.

(** X17.  The lock is taken, the pid file names a process that answers the
    probe, and the answer to the question is not y or Y: the function
    leaves by [sys.exit(1)].  It has signalled nobody and has changed no
    file; only the terminal shows the question and the log one line. *)
Theorem declining_changes_nothing (s : OS) (fd : nat) (ino : Inode)
    (answer : string) (rest : list string) :
  os_path s = Some fd -> os_inodes s !! fd = Some ino ->
  lock_taken s ino = true ->
  isdigit (strip (content ino)) = true ->
  (String.length (strip (content ino)) <= 4300)%nat ->
  int_of_digits (strip (content ino)) < 2 ^ 31 ->
  int_of_digits (strip (content ino)) = 0 \/
    int_of_digits (strip (content ino)) = os_getpid s \/
    int_of_digits (strip (content ino)) ∈ os_alive s ->
  os_stdin s = answer :: rest ->
  lower answer <> "y" ->
  singleton_check s =
    (Fails (SystemExit 1),
     set_terminal rest (os_stdout s ++ [question (strip (content ino))])
       (os_log s ++ ["Exiting."]) s).
Proof.
  intros Hpath Hino Htaken Hdig Hlen Hlt Hprobe Hin Hans.
  exact (declining_changes_nothing_aux s fd ino answer rest Hpath Hino Htaken
           Hdig Hlen Hlt Hprobe Hin Hans).
Qed.

Lemma declining_changes_nothing_witness :
  os_path (busy_machine 77 (Some 3%nat) " 4242 " ["no"]) = Some 0%nat /\
  lower "no" <> "y" /\
  singleton_check (busy_machine 77 (Some 3%nat) " 4242 " ["no"]) =
    (Fails (SystemExit 1),
     set_terminal [] ([] ++ [question (strip " 4242 ")]) ([] ++ ["Exiting."])
       (busy_machine 77 (Some 3%nat) " 4242 " ["no"])).
Proof.
  split; [reflexivity|]. split; [discriminate|].
  apply (declining_changes_nothing
           (busy_machine 77 (Some 3%nat) " 4242 " ["no"]) 0
           {| content := " 4242 "; lock := Some 4242 |} "no" []);
    try reflexivity; try discriminate.
  - vm_compute. lia.
  - right. right. vm_compute. set_solver.
Defined.

(** The question has been answered with y: what is left of
    [ask_and_stop]. *)
Lemma ask_and_stop_yes (s : OS) (fd : nat) (digits answer : string)
    (rest : list string) :
  (String.length digits <= 4300)%nat ->
  other_process s (int_of_digits digits) ->
  int_of_digits digits ∈ os_alive s ->
  os_stdin s = answer :: rest ->
  lower answer = "y" ->
  ask_and_stop fd digits s =
    (exited ← wait_for_exit 10 digits;
     (if exited : bool then mret tt
      else log_info "Process did not exit, exiting.";; sys_exit 1);;
     lockf fd)
      (set_terminal rest (os_stdout s ++ [question digits])
         (os_log s ++ ["Sent SIGTERM, waiting for process to exit..."])
         (deliver (int_of_digits digits) 15 s)).
Proof.
  intros Hlen Hp Hal Hin Hans. unfold ask_and_stop.
  erewrite os_bind_done by (by apply int_spec).
  erewrite os_bind_done by (by apply probe_alive).
  erewrite os_bind_done; last first.
  { unfold input. rewrite Hin. reflexivity. }
  rewrite Hans. cbn [String.eqb Ascii.eqb Bool.eqb].
  erewrite os_bind_done by (by apply int_spec).
  erewrite os_bind_done; last first.
  { by apply sigterm_alive. }
  erewrite os_bind_done; last first.
  { unfold log_info. reflexivity. }
  f_equal. destruct (deliver_sigterm
    (set_terminal rest (os_stdout s ++ [question digits]) (os_log s) s)
    (int_of_digits digits)) as (_ & _ & _ & H4 & H5 & H6 & _).
  unfold set_terminal at 1. rewrite H4, H5, H6. cbn [os_stdin os_stdout os_log set_terminal].
  unfold deliver. rewrite !bool_decide_eq_false_2 by done.
  cbn [os_exits_after os_dying os_alive os_signals os_slept set_terminal].
  destruct (os_exits_after s !! int_of_digits digits) as [[|n]|];
    [|destruct (os_dying s !! int_of_digits digits)|]; reflexivity.
Qed.

(** The function when the answer is yes and the process ends in time. *)
Lemma accepted_takeover_aux (s : OS) (fd : nat) (ino : Inode) (p : Z) (k : nat)
    (answer : string) (rest : list string) :
  os_path s = Some fd -> os_inodes s !! fd = Some ino ->
  lock ino = Some p -> p ∈ os_alive s -> other_process s p ->
  isdigit (strip (content ino)) = true ->
  (String.length (strip (content ino)) <= 4300)%nat ->
  int_of_digits (strip (content ino)) = p ->
  os_stdin s = answer :: rest -> lower answer = "y" ->
  os_exits_after s !! p = Some k -> os_dying s !! p = None ->
  (k < 10)%nat ->
  exists s',
    singleton_check s = (Done fd, s') /\
    os_path s' = Some fd /\
    os_inodes s' !! fd = Some {| content := pretty (os_getpid s);
                                 lock := Some (os_getpid s) |} /\
    (p ∉ os_alive s') /\
    os_signals s' = os_signals s ++ [(p, 15)] /\
    os_slept s' = (os_slept s + k)%nat /\
    os_stdout s' = os_stdout s ++ [question (strip (content ino))].
Proof.
  intros Hpath Hino Hlock Hal Hp Hdig Hlen Hint Hin Hans Hex Hdy Hk.
  assert (Htaken : lock_taken s ino = true).
  { unfold lock_taken. rewrite Hlock. apply bool_decide_eq_true_2.
    split; [apply Hp|done]. }
  rewrite (singleton_check_locked _ _ _ Hpath Hino Htaken).
  rewrite <- Hint in Hal, Hp, Hex, Hdy.
  set (digits := strip (content ino)) in *.
  set (s1 := set_terminal rest (os_stdout s ++ [question digits])
         (os_log s ++ ["Sent SIGTERM, waiting for process to exit..."])
         (deliver (int_of_digits digits) 15 s)).
  destruct (deliver_sigterm s (int_of_digits digits))
    as (D1 & D2 & D3 & D4 & D5 & D6 & D7 & D8 & D9).
  assert (Hp1 : other_process s1 (int_of_digits digits)).
  { unfold other_process, s1. cbn [os_getpid set_terminal]. by rewrite D1. }
  (* the waiting loop *)
  assert (Hwait : exists s2,
    wait_for_exit 10 digits s1 = (Done true, s2) /\
    (int_of_digits digits ∉ os_alive s2) /\
    os_slept s2 = (os_slept s + k)%nat /\ only_time_passed s1 s2).
  { destruct k as [|k].
    - exists s1. split; [|split; [|split]].
      + apply wait_for_exit_gone; [done..|].
        unfold s1, deliver. cbn [os_alive set_terminal].
        rewrite bool_decide_eq_false_2 by done. rewrite Hex. simpl.
        intros [_ Hn]%elem_of_difference. apply Hn.
        by apply elem_of_singleton.
      + unfold s1, deliver. cbn [os_alive set_terminal].
        rewrite bool_decide_eq_false_2 by done. rewrite Hex. simpl.
        intros [_ Hn]%elem_of_difference. apply Hn.
        by apply elem_of_singleton.
      + unfold s1. cbn [os_slept set_terminal]. rewrite D7. lia.
      + apply only_time_passed_refl.
    - destruct (wait_for_exit_exits digits 10 (S k) s1)
        as (s2 & Hrun & Hgone & Hslept & _ & Hfr); try done.
      + unfold s1, deliver. cbn [os_alive set_terminal].
        rewrite bool_decide_eq_false_2 by done. rewrite Hex, Hdy. done.
      + unfold s1, deliver. cbn [os_dying set_terminal].
        rewrite bool_decide_eq_false_2 by done. rewrite Hex, Hdy. simpl.
        by rewrite lookup_insert_eq.
      + lia.
      + exists s2. split; [done|]. split; [done|]. split; [|done].
        rewrite Hslept. unfold s1. cbn [os_slept set_terminal].
        by rewrite D7. }
  destruct Hwait as (s2 & Hrun & Hgone & Hslept & Hfr).
  destruct Hfr as (F1 & F2 & F3 & F4 & F5 & F6 & F7).
  assert (Hino2 : os_inodes s2 !! fd = Some ino).
  { rewrite F3. unfold s1. cbn [os_inodes set_terminal]. by rewrite D3. }
  assert (Hfree2 : lock_taken s2 ino = false).
  { unfold lock_taken. rewrite Hlock, <- Hint.
    apply bool_decide_eq_false_2. tauto. }
  assert (Hlt : (fd < length (os_inodes s2))%nat)
    by (by apply lookup_lt_is_Some; exists ino).
  erewrite os_bind_done; last first.
  { rewrite (lock_is_taken_digits _ _ _ Hpath Hino Hdig).
    unfold try_OSError. fold digits.
    rewrite (ask_and_stop_yes s fd digits answer rest Hlen Hp Hal Hin Hans).
    fold s1.
    erewrite os_bind_done by exact Hrun.
    unfold mbind at 1, OSM_bind at 1, mret at 1, OSM_ret at 1.
    rewrite (lockf_free _ _ _ Hino2 Hfree2). reflexivity. }
  erewrite write_pid_spec; last first.
  { cbn [os_inodes set_files]. by apply list_lookup_insert_eq. }
  eexists. split; [reflexivity|].
  cbn [os_path os_inodes os_alive os_signals os_slept os_stdout os_getpid
       set_files lock].
  rewrite list_insert_insert_eq.
  unfold s1 in F1, F2, F5, F7.
  cbn [os_getpid os_path os_stdout os_signals set_terminal] in F1, F2, F5, F7.
  rewrite F1, D1, F2, D2, F7, D9, F5, Hint.
  split; [done|]. split; [by apply list_lookup_insert_eq|].
  split; [by rewrite <- Hint|]. done.
Qed.

(** X18.  The lock is taken by the process that the pid file names, the
    answer is y or Y, and that process ends within nine sleeps of its
    SIGTERM: the function sends it this one signal, waits for as many
    half-seconds as the process takes, then holds the lock and has written
    its own id over the old one. *)
Theorem accepted_takeover (s : OS) (fd : nat) (ino : Inode) (p : Z) (k : nat)
    (answer : string) (rest : list string) :
  os_path s = Some fd -> os_inodes s !! fd = Some ino ->
  lock ino = Some p -> p ∈ os_alive s -> other_process s p ->
  isdigit (strip (content ino)) = true ->
  (String.length (strip (content ino)) <= 4300)%nat ->
  int_of_digits (strip (content ino)) = p ->
  os_stdin s = answer :: rest -> lower answer = "y" ->
  os_exits_after s !! p = Some k -> os_dying s !! p = None ->
  (k < 10)%nat ->
  exists s',
    singleton_check s = (Done fd, s') /\
    os_path s' = Some fd /\
    os_inodes s' !! fd = Some {| content := pretty (os_getpid s);
                                 lock := Some (os_getpid s) |} /\
    (p ∉ os_alive s') /\
    os_signals s' = os_signals s ++ [(p, 15)] /\
    os_slept s' = (os_slept s + k)%nat /\
    os_stdout s' = os_stdout s ++ [question (strip (content ino))].
Proof.
  intros Hpath Hino Hlock Hal Hp Hdig Hlen Hint Hin Hans Hex Hdy Hk.
  exact (accepted_takeover_aux s fd ino p k answer rest Hpath Hino Hlock Hal
           Hp Hdig Hlen Hint Hin Hans Hex Hdy Hk).
Qed.

Lemma accepted_takeover_witness :
  lower "Y" = "y" /\
  exists s',
    singleton_check (busy_machine 77 (Some 3%nat) "4242" ["Y"])
      = (Done 0%nat, s') /\
    os_path s' = Some 0%nat /\
    os_inodes s' !! 0%nat = Some {| content := pretty 77; lock := Some 77 |} /\
    (4242 ∉ os_alive s') /\
    os_signals s' = [] ++ [(4242, 15)] /\
    os_slept s' = (0 + 3)%nat /\
    os_stdout s' = [] ++ [question (strip "4242")].
Proof.
  split; [reflexivity|].
  apply (accepted_takeover
           (busy_machine 77 (Some 3%nat) "4242" ["Y"]) 0
           {| content := "4242"; lock := Some 4242 |} 4242 3 "Y" []);
    try reflexivity.
  all: try (simpl; set_solver).
  all: try (vm_compute; lia).
  all: vm_compute; repeat split; discriminate.
Defined.

(** X19.  The answer is y or Y, but the process is still there at each of
    the ten probes, because it takes ten sleeps or more to end or ignores
    SIGTERM: the function waits ten half-seconds and leaves by
    [sys.exit(1)].  The pid file and its path are as they were; the process
    has got one SIGTERM. *)
Theorem takeover_gives_up (s : OS) (fd : nat) (ino : Inode) (p : Z)
    (answer : string) (rest : list string) :
  os_path s = Some fd -> os_inodes s !! fd = Some ino ->
  lock_taken s ino = true -> p ∈ os_alive s -> other_process s p ->
  isdigit (strip (content ino)) = true ->
  (String.length (strip (content ino)) <= 4300)%nat ->
  int_of_digits (strip (content ino)) = p ->
  os_stdin s = answer :: rest -> lower answer = "y" ->
  match os_exits_after s !! p with
  | Some k => (10 <= k)%nat
  | None => True
  end ->
  os_dying s !! p = None ->
  exists s',
    singleton_check s = (Fails (SystemExit 1), s') /\
    os_path s' = os_path s /\ os_inodes s' = os_inodes s /\
    os_signals s' = os_signals s ++ [(p, 15)] /\
    os_slept s' = (os_slept s + 10)%nat /\
    os_log s' = os_log s ++ ["Sent SIGTERM, waiting for process to exit...";
                             "Process did not exit, exiting."].
Proof.
  intros Hpath Hino Htaken Hal Hp Hdig Hlen Hint Hin Hans Hex Hdy.
  rewrite (singleton_check_locked _ _ _ Hpath Hino Htaken).
  rewrite <- Hint in Hal, Hp, Hex, Hdy.
  set (digits := strip (content ino)) in *.
  set (s1 := set_terminal rest (os_stdout s ++ [question digits])
         (os_log s ++ ["Sent SIGTERM, waiting for process to exit..."])
         (deliver (int_of_digits digits) 15 s)).
  destruct (deliver_sigterm s (int_of_digits digits))
    as (D1 & D2 & D3 & D4 & D5 & D6 & D7 & D8 & D9).
  assert (Hp1 : other_process s1 (int_of_digits digits)).
  { unfold other_process, s1. cbn [os_getpid set_terminal]. by rewrite D1. }
  destruct (wait_for_exit_runs_out digits 10 s1 Hlen Hp1)
    as (s2 & Hrun & Hslept & F1 & F2 & F3 & F4 & F5 & F6 & F7).
  { right. unfold s1, deliver. cbn [os_alive os_dying set_terminal].
    rewrite bool_decide_eq_false_2 by done.
    destruct (os_exits_after s !! int_of_digits digits) as [[|k]|];
      [lia| |].
    - rewrite Hdy. cbn [os_alive os_dying set_processes].
      by rewrite lookup_insert_eq.
    - cbn [os_alive os_dying set_processes]. by rewrite Hdy. }
  erewrite os_bind_fails; last first.
  { rewrite (lock_is_taken_digits _ _ _ Hpath Hino Hdig).
    unfold try_OSError. fold digits.
    rewrite (ask_and_stop_yes s fd digits answer rest Hlen Hp Hal Hin Hans).
    fold s1.
    erewrite os_bind_done by exact Hrun.
    reflexivity. }
  eexists. split; [reflexivity|].
  cbn [os_path os_inodes os_signals os_slept os_log set_terminal].
  unfold s1 in F2, F3, F6, F7, Hslept.
  cbn [os_path os_inodes os_log os_signals os_slept set_terminal]
    in F2, F3, F6, F7, Hslept.
  rewrite F2, D2, F3, D3, F7, D9, Hslept, D7, F6, Hint, <- app_assoc.
  done.
Qed.

Lemma takeover_gives_up_witness :
  lower "y" = "y" /\
  exists s',
    singleton_check (busy_machine 77 (Some 10%nat) "4242" ["y"])
      = (Fails (SystemExit 1), s') /\
    os_path s' = os_path (busy_machine 77 (Some 10%nat) "4242" ["y"]) /\
    os_inodes s' = os_inodes (busy_machine 77 (Some 10%nat) "4242" ["y"]) /\
    os_signals s' = [] ++ [(4242, 15)] /\
    os_slept s' = (0 + 10)%nat /\
    os_log s' = [] ++ ["Sent SIGTERM, waiting for process to exit...";
                       "Process did not exit, exiting."].
Proof.
  split; [reflexivity|].
  apply (takeover_gives_up
           (busy_machine 77 (Some 10%nat) "4242" ["y"]) 0
           {| content := "4242"; lock := Some 4242 |} 4242 "y" []);
    try reflexivity.
  all: try (simpl; set_solver).
  all: try (vm_compute; lia).
  all: vm_compute; repeat split; discriminate.
Defined.



(** *** What holds whenever the function returns *)










(** *** The id that one start writes is the number that the next reads *)

Lemma digit_of_pretty_N_char (d : N) :
  (d < 10)%N -> digit_of (pretty_N_char d) = Some (Z.of_N d).
Proof.
  intros Hd.
  assert (d = 0 \/ d = 1 \/ d = 2 \/ d = 3 \/ d = 4 \/ d = 5 \/ d = 6 \/
          d = 7 \/ d = 8 \/ d = 9)%N as Hcases by lia.
  repeat (destruct Hcases as [->|Hcases]; [reflexivity|]).
  by subst.
Qed.

Lemma all_digits_pretty_N_go (x : N) (s : string) :
  all_digits s = true -> all_digits (pretty_N_go x s) = true.
Proof.
  revert s. induction (N.lt_wf_0 x) as [x _ IH]; intros s Hs.
  destruct (decide (x = 0)%N) as [->|Hx]; [by rewrite pretty_N_go_0|].
  rewrite pretty_N_go_step by lia. apply IH.
  - apply N.div_lt; lia.
  - cbn [all_digits]. rewrite Hs, andb_true_r.
    apply bool_decide_eq_true_2.
    rewrite digit_of_pretty_N_char; [by eexists|].
    by apply N.mod_lt.
Qed.

Lemma int_go_pretty_N_go (x : N) (s : string) :
  int_go 0 (pretty_N_go x s) = int_go (Z.of_N x) s.
Proof.
  revert s. induction (N.lt_wf_0 x) as [x _ IH]; intros s.
  destruct (decide (x = 0)%N) as [->|Hx]; [by rewrite pretty_N_go_0|].
  rewrite pretty_N_go_step by lia.
  rewrite IH by (apply N.div_lt; lia).
  cbn [int_go]. rewrite digit_of_pretty_N_char by (by apply N.mod_lt).
  f_equal. simpl.
  pose proof (N.div_mod' x 10) as Hdm.
  pose proof (N.mod_lt x 10 ltac:(done)) as Hlt.
  generalize dependent (x `div` 10)%N. generalize dependent (x `mod` 10)%N.
  intros. lia.
Qed.

Lemma length_pretty_N_go (n : nat) (x : N) (s : string) :
  (x < 10 ^ N.of_nat n)%N ->
  (String.length (pretty_N_go x s) <= String.length s + n)%nat.
Proof.
  revert x s. induction n as [|n IH]; intros x s Hx.
  - assert (x = 0%N) as -> by (simpl in Hx; lia).
    rewrite pretty_N_go_0. lia.
  - destruct (decide (x = 0)%N) as [->|Hx0];
      [rewrite pretty_N_go_0; lia|].
    rewrite pretty_N_go_step by lia.
    etrans; [apply IH|simpl; lia].
    apply N.Div0.div_lt_upper_bound.
    by rewrite Nat2N.inj_succ, N.pow_succ_r' in Hx.
Qed.

Lemma digit_is_no_space (c : Ascii.ascii) :
  is_Some (digit_of c) -> isspace c = false.
Proof.
  unfold digit_of, isspace. cbv zeta.
  destruct (48 <=? Ascii.N_of_ascii c)%N eqn:E1; [|by intros [? [=]]].
  destruct (Ascii.N_of_ascii c <=? 57)%N eqn:E2; [|by intros [? [=]]].
  intros _. apply N.leb_le in E1, E2.
  assert (H13 : (Ascii.N_of_ascii c <=? 13)%N = false)
    by (apply N.leb_gt; lia).
  assert (H32 : (Ascii.N_of_ascii c <=? 32)%N = false)
    by (apply N.leb_gt; lia).
  by rewrite H13, H32, !andb_false_r.
Qed.

Lemma all_digits_lstrip (s : string) :
  all_digits s = true -> lstrip s = s.
Proof.
  destruct s as [|c s]; [done|]. cbn [all_digits lstrip].
  intros [Hc _]%andb_prop. apply bool_decide_eq_true_1 in Hc.
  by rewrite digit_is_no_space.
Qed.

Lemma all_digits_rev_app (s1 s2 : string) :
  all_digits (String.rev_app s1 s2) = all_digits s1 && all_digits s2.
Proof.
  revert s2. induction s1 as [|c s1 IH]; intros s2; [done|].
  cbn [String.rev_app all_digits]. rewrite IH. cbn [all_digits].
  by destruct (bool_decide (is_Some (digit_of c))), (all_digits s1).
Qed.

Lemma rev_app_rev_app (s1 s2 s3 : string) :
  String.rev_app (String.rev_app s1 s2) s3 = String.rev_app s2 (s1 +:+ s3).
Proof.
  revert s2 s3. induction s1 as [|c s1 IH]; intros s2 s3; [done|].
  cbn [String.rev_app]. by rewrite IH.
Qed.

Lemma all_digits_strip (s : string) : all_digits s = true -> strip s = s.
Proof.
  intros Hs. unfold strip, rstrip. rewrite (all_digits_lstrip s Hs).
  rewrite all_digits_lstrip.
  - unfold String.rev. rewrite rev_app_rev_app. cbn [String.rev_app].
    clear. induction s as [|c s IH]; [done|].
    change (String c s +:+ "") with (String c (s +:+ "")). by rewrite IH.
  - unfold String.rev. by rewrite all_digits_rev_app, Hs.
Qed.

(** What [str] makes of a process id, [strip], [isdigit] and [int] take
    back. *)
Lemma pretty_pid (h : Z) :
  0 < h < 2 ^ 31 ->
  strip (pretty h) = pretty h /\ isdigit (pretty h) = true /\
  (String.length (pretty h) <= 4300)%nat /\ int_of_digits (pretty h) = h.
Proof.
  intros Hh. destruct h as [|p|p]; [lia| |lia].
  assert (Hpretty : pretty (Z.pos p) = pretty_N_go (N.pos p) "") by done.
  rewrite Hpretty.
  assert (Hall : all_digits (pretty_N_go (N.pos p) "") = true)
    by (by apply all_digits_pretty_N_go).
  assert (Hint : int_of_digits (pretty_N_go (N.pos p) "") = Z.pos p).
  { unfold int_of_digits. by rewrite int_go_pretty_N_go. }
  split; [by apply all_digits_strip|]. split; [|split; [|done]].
  - destruct (pretty_N_go (N.pos p) "") eqn:E; [discriminate Hint|done].
  - etrans; [apply (length_pretty_N_go 10)|simpl; lia].
    change (10 ^ N.of_nat 10)%N with 10000000000%N. lia.
Qed.

(** The state that a start with nothing in its way leaves. *)
Lemma singleton_check_free_state (s : OS) :
  pidfile_free s ->
  exists fd s1,
    singleton_check s = (Done fd, s1) /\
    os_path s1 = Some fd /\
    os_inodes s1 !! fd = Some {| content := pretty (os_getpid s);
                                 lock := Some (os_getpid s) |} /\
    os_getpid s1 = os_getpid s /\ os_alive s1 = os_alive s /\
    os_exits_after s1 = os_exits_after s /\ os_dying s1 = os_dying s /\
    os_signals s1 = os_signals s /\ os_slept s1 = os_slept s.
Proof.
  intros Hfree. rewrite (singleton_check_free_spec s Hfree).
  unfold pidfile_free in Hfree.
  destruct (os_path s) as [fd|].
  - destruct Hfree as (ino & Hino & _).
    eexists _, _. split; [reflexivity|]. simpl.
    split; [done|]. split; [|done].
    apply list_lookup_insert_eq. by apply lookup_lt_is_Some; eexists.
  - eexists _, _. split; [reflexivity|]. simpl.
    split; [done|]. split; [|done].
    apply list_lookup_insert_eq. rewrite length_app. simpl. lia.
Qed.

(** X22.  A process has started with nothing in its way and runs on.  A
    second start, by another process, finds the lock taken, reads the id
    of the first out of the pid file and asks whether to stop it; with
    any answer but y or Y it leaves by [sys.exit(1)] and has changed
    nothing but the terminal. *)
Theorem second_start_names_the_first (s : OS) (q : Z) (answer : string)
    (rest : list string) :
  pidfile_free s -> 0 < os_getpid s < 2 ^ 31 -> q <> os_getpid s ->
  lower answer <> "y" ->
  exists fd s1,
    singleton_check s = (Done fd, s1) /\
    singleton_check (started_later q (answer :: rest) s1) =
      (Fails (SystemExit 1),
       set_terminal rest
         (os_stdout s1 ++ [question (pretty (os_getpid s))])
         (os_log s1 ++ ["Exiting."])
         (started_later q (answer :: rest) s1)).
Proof.
  intros Hfree Hpid Hq Hans.
  destruct (singleton_check_free_state s Hfree)
    as (fd & s1 & Hrun & Hpath & Hino & Hme & Hal & _).
  destruct (pretty_pid (os_getpid s) Hpid) as (Hstrip & Hdig & Hlen & Hint).
  exists fd, s1. split; [done|].
  set (ino := {| content := pretty (os_getpid s);
                 lock := Some (os_getpid s) |}) in *.
  rewrite (declining_changes_nothing_aux
             (started_later q (answer :: rest) s1) fd ino answer rest);
    cbn [content ino os_path os_inodes os_stdin os_alive os_getpid
         started_later]; rewrite ?Hstrip; try done.
  - unfold lock_taken. cbn [lock ino os_getpid os_alive started_later].
    apply bool_decide_eq_true_2. split; [done|].
    rewrite Hme. apply elem_of_union_r. by apply elem_of_singleton.
  - rewrite Hint. lia.
  - right. right. rewrite Hint, Hme.
    apply elem_of_union_r. by apply elem_of_singleton.
Qed.

Lemma second_start_names_the_first_witness :
  pidfile_free (quiet_machine 4242 []) /\
  lower "n" <> "y" /\
  exists fd s1,
    singleton_check (quiet_machine 4242 []) = (Done fd, s1) /\
    singleton_check (started_later 77 ("n" :: []) s1) =
      (Fails (SystemExit 1),
       set_terminal []
         (os_stdout s1 ++ [question (pretty (os_getpid (quiet_machine 4242 [])))])
         (os_log s1 ++ ["Exiting."])
         (started_later 77 ("n" :: []) s1)).
Proof.
  split; [exact I|]. split; [discriminate|].
  apply (second_start_names_the_first (quiet_machine 4242 []) 77 "n" []).
  - exact I.
  - simpl. lia.
  - discriminate.
  - discriminate.
Defined.

(** X23.  A process has started with nothing in its way and runs on; it
    ends within nine sleeps of a SIGTERM.  A second start that is answered
    with y or Y sends that signal to the id it has read, sees the first
    process go, and ends with the lock of the same pid file and its own id
    in it. *)
Theorem second_start_replaces_the_first (s : OS) (q : Z) (k : nat)
    (answer : string) (rest : list string) :
  pidfile_free s -> 0 < os_getpid s < 2 ^ 31 -> q <> os_getpid s ->
  lower answer = "y" ->
  os_exits_after s !! os_getpid s = Some k -> (k < 10)%nat ->
  os_dying s !! os_getpid s = None ->
  exists fd s1 s2,
    singleton_check s = (Done fd, s1) /\
    singleton_check (started_later q (answer :: rest) s1) = (Done fd, s2) /\
    os_path s2 = Some fd /\
    os_inodes s2 !! fd = Some {| content := pretty q; lock := Some q |} /\
    (os_getpid s ∉ os_alive s2) /\
    os_signals s2 = os_signals s ++ [(os_getpid s, 15)].
Proof.
  intros Hfree Hpid Hq Hans Hex Hk Hdy.
  destruct (singleton_check_free_state s Hfree)
    as (fd & s1 & Hrun & Hpath & Hino & Hme & Hal & Hex1 & Hdy1 & Hsig & _).
  destruct (pretty_pid (os_getpid s) Hpid) as (Hstrip & Hdig & Hlen & Hint).
  set (ino := {| content := pretty (os_getpid s);
                 lock := Some (os_getpid s) |}) in *.
  destruct (accepted_takeover_aux
              (started_later q (answer :: rest) s1) fd ino (os_getpid s) k
              answer rest)
    as (s2 & Hrun2 & Hpath2 & Hino2 & Hgone & Hsig2 & _);
    cbn [content lock ino os_path os_inodes os_stdin os_alive os_getpid
         os_exits_after os_dying started_later]; rewrite ?Hstrip; try done.
  - rewrite Hme. apply elem_of_union_r. by apply elem_of_singleton.
  - unfold other_process. cbn [os_getpid started_later]. lia.
  - by rewrite Hex1.
  - by rewrite Hdy1.
  - exists fd, s1, s2. split; [done|]. split; [done|].
    cbn [os_getpid os_signals started_later] in Hino2, Hsig2.
    rewrite Hsig2, Hsig. done.
Qed.

Lemma second_start_replaces_the_first_witness :
  pidfile_free (lone_machine 4242 3) /\
  lower "y" = "y" /\
  exists fd s1 s2,
    singleton_check (lone_machine 4242 3) = (Done fd, s1) /\
    singleton_check (started_later 77 ("y" :: []) s1) = (Done fd, s2) /\
    os_path s2 = Some fd /\
    os_inodes s2 !! fd = Some {| content := pretty 77; lock := Some 77 |} /\
    (os_getpid (lone_machine 4242 3) ∉ os_alive s2) /\
    os_signals s2 = os_signals (lone_machine 4242 3)
                    ++ [(os_getpid (lone_machine 4242 3), 15)].
Proof.
  split; [exact I|]. split; [reflexivity|].
  apply (second_start_replaces_the_first (lone_machine 4242 3) 77 3 "y" []).
  - exact I.
  - simpl. lia.
  - discriminate.
  - reflexivity.
  - reflexivity.
  - lia.
  - reflexivity.
Defined.

(** X24.  The lock is taken and the pid file names a process that is gone,
    as it does when a process has taken the lock of a pid file left by an
    earlier run and has not yet written its id.  The function calls the
    file stale and removes the path, and then fails with the [OSError] of
    its second [lockf]: the holder still has the lock. *)
Theorem stale_pid_file_is_unlinked (s : OS) (fd : nat) (ino : Inode) :
  os_path s = Some fd -> os_inodes s !! fd = Some ino ->
  lock_taken s ino = true ->
  isdigit (strip (content ino)) = true ->
  (String.length (strip (content ino)) <= 4300)%nat ->
  other_process s (int_of_digits (strip (content ino))) ->
  int_of_digits (strip (content ino)) ∉ os_alive s ->
  exists s',
    singleton_check s
      = (Fails (OSError "Resource temporarily unavailable"), s') /\
    os_path s' = None /\ os_inodes s' = os_inodes s /\
    os_alive s' = os_alive s /\ os_signals s' = os_signals s /\
    os_log s' = os_log s ++ ["Stale PID file found, removing."].
Proof.
  intros Hpath Hino Htaken Hdig Hlen Hp Hgone.
  rewrite (singleton_check_locked _ _ _ Hpath Hino Htaken).
  erewrite os_bind_fails; last first.
  { rewrite (lock_is_taken_digits _ _ _ Hpath Hino Hdig).
    unfold try_OSError, ask_and_stop.
    erewrite os_bind_done by (by apply int_spec).
    erewrite os_bind_fails by (by apply probe_gone).
    unfold mbind at 1, OSM_bind at 1. cbn [log_info].
    unfold mbind at 1, OSM_bind at 1, os_remove. cbn [os_path set_terminal].
    rewrite Hpath.
    by erewrite lockf_taken. }
  eexists. split; [reflexivity|]. done.
Qed.

Lemma stale_pid_file_is_unlinked_witness :
  lock_taken (busy_machine 77 None "4100" [])
    {| content := "4100"; lock := Some 4242 |} = true /\
  exists s',
    singleton_check (busy_machine 77 None "4100" [])
      = (Fails (OSError "Resource temporarily unavailable"), s') /\
    os_path s' = None /\
    os_inodes s' = os_inodes (busy_machine 77 None "4100" []) /\
    os_alive s' = os_alive (busy_machine 77 None "4100" []) /\
    os_signals s' = os_signals (busy_machine 77 None "4100" []) /\
    os_log s' = os_log (busy_machine 77 None "4100" [])
                ++ ["Stale PID file found, removing."].
Proof.
  split; [reflexivity|].
  apply (stale_pid_file_is_unlinked (busy_machine 77 None "4100" []) 0
           {| content := "4100"; lock := Some 4242 |});
    try reflexivity.
  - vm_compute. lia.
  - vm_compute. repeat split; discriminate.
  - simpl. intros H%elem_of_singleton. discriminate H.
Defined.
